(** * ImageResizer: the geometry of [Resizer2.0.py]

    A shallow embedding of the parts of [ImageResizerApp] that decide
    sizes, offsets, orientation and the recent-files list, together with
    the properties its specification states about them.

    Python numbers are modelled as the interpreter has them: [int] as
    [Z], [float] as IEEE-754 binary64 through the Standard Library's
    [SpecFloat] (the executable specification of the format).  Raised
    exceptions are the [Raise] case of [result]. *)

From Stdlib Require Import ZArith QArith Lia Floats.SpecFloat DecimalString.
From stdpp Require Import base option list strings gmap pretty.

Local Open Scope Z_scope.

(** ** Exceptions and results *)

Inductive exn : Type :=
  | ZeroDivisionError
  | OverflowError
  | ValueError
  | AttributeError
  | BackendError.

Inductive result (A : Type) : Type :=
  | Ok (a : A)
  | Raise (e : exn).
Arguments Ok {A} a.
Arguments Raise {A} e.

#[global] Instance result_ret : MRet result := fun _ a => Ok a.
#[global] Instance result_bind : MBind result := fun _ _ f r =>
  match r with
  | Ok a => f a
  | Raise e => Raise e
  end.

#[global] Instance result_fmap : FMap result := fun _ _ f r =>
  match r with
  | Ok a => Ok (f a)
  | Raise e => Raise e
  end.

(** ** Python floats *)

Module PyFloat.

Definition prec : Z := 53.
Definition emax : Z := 1024.

Definition float : Type := spec_float.

Definition one : float := SFone prec emax.

(** [float(n)] for an [int]: round to nearest, ties to even;
    [OverflowError] when [n] is too large. *)
Definition of_int (n : Z) : result float :=
  match binary_normalize prec emax n 0 false with
  | S754_infinity _ => Raise OverflowError
  | f => Ok f
  end.

(** [a / b] on two [int]s: the correctly rounded quotient of the exact
    integers. *)
Definition truediv_int (a b : Z) : result float :=
  match a, b with
  | _, Z0 => Raise ZeroDivisionError
  | Z0, _ => Ok (S754_zero (b <? 0))
  | _, _ =>
    let '(mz, ez, lz) :=
      SFdiv_core_binary prec emax (Z.abs a) 0 (Z.abs b) 0 in
    match binary_round_aux prec emax (xorb (a <? 0) (b <? 0)) mz ez lz with
    | S754_infinity _ => Raise OverflowError
    | f => Ok f
    end
  end.

Definition is_zero (x : float) : bool :=
  match x with S754_zero _ => true | _ => false end.

(** [x * y] on floats never raises. *)
Definition mul (x y : float) : float := SFmul prec emax x y.

(** [x / y] on floats raises on a zero divisor. *)
Definition div (x y : float) : result float :=
  if is_zero y then Raise ZeroDivisionError else Ok (SFdiv prec emax x y).

(** [n * x] and [n / x] with [n] an [int]: [n] is converted first. *)
Definition int_mul (n : Z) (x : float) : result float :=
  nf ← of_int n; Ok (mul nf x).

Definition int_div (n : Z) (x : float) : result float :=
  nf ← of_int n; div nf x.

Definition ltb (x y : float) : bool := SFltb x y.
Definition geb (x y : float) : bool := SFleb y x.

(** [min(x, y)] keeps [x] unless [y < x]. *)
Definition min2 (x y : float) : float := if ltb y x then y else x.

Definition min3 (x y z : float) : float := min2 (min2 x y) z.

Definition signed (s : bool) (n : Z) : Z := if s then - n else n.

(** [int(x)]: truncation toward zero. *)
Definition to_int (x : float) : result Z :=
  match x with
  | S754_zero _ => Ok 0
  | S754_infinity _ => Raise OverflowError
  | S754_nan => Raise ValueError
  | S754_finite s m e =>
    Ok (signed s (if 0 <=? e then Z.pos m * 2 ^ e
                  else Z.pos m / 2 ^ (- e)))
  end.

(** [round(x)]: to the nearest integer, ties to the even one. *)
Definition round (x : float) : result Z :=
  match x with
  | S754_zero _ => Ok 0
  | S754_infinity _ => Raise OverflowError
  | S754_nan => Raise ValueError
  | S754_finite s m e =>
    Ok (signed s
          (if 0 <=? e then Z.pos m * 2 ^ e
           else
             let d := 2 ^ (- e) in
             let q := Z.pos m / d in
             let r := Z.pos m mod d in
             match 2 * r ?= d with
             | Lt => q
             | Gt => q + 1
             | Eq => if Z.even q then q else q + 1
             end))
  end.

(** The rational a finite float stands for. *)
Definition to_Q (x : float) : Q :=
  match x with
  | S754_finite s m e =>
    let v := if 0 <=? e then inject_Z (Z.pos m * 2 ^ e)
             else Qmake (Z.pos m) (Z.to_pos (2 ^ (- e))) in
    if s then Qopp v else v
  | _ => 0%Q
  end.

End PyFloat.

(** ** The imaging backend

    [PIL.Image], [PIL.ImageOps] are not part of the program: the
    operations the program calls are the interface below.  An image is a
    value; [img.copy()] is that same value. *)

Class Imaging : Type := {
  image : Type;
  (** [img.size], [img.mode] *)
  img_size : image → Z * Z;
  img_mode : image → string;
  (** [img._getexif()]: a dict of tags, [None], or an exception *)
  Image_getexif : image → result (option (gmap Z Z));
  (** [img.rotate(angle, expand=True)] *)
  Image_rotate : image → Z → result image;
  (** [img.resize(size, Image.Resampling.LANCZOS)] *)
  Image_resize : image → Z * Z → result image;
  (** [ImageOps.fit(img, size, method=Image.Resampling.LANCZOS)] *)
  ImageOps_fit : image → Z * Z → result image;
  (** [Image.new(mode, size, color)] *)
  Image_new : string → Z * Z → list Z → result image;
  (** [background.paste(img, offset)], as the updated background *)
  Image_paste : image → image → Z * Z → image;
  (** [img.convert(mode)] *)
  Image_convert : image → string → image;
}.

Definition swap_size (s : Z * Z) : Z * Z := (s.2, s.1).

Definition nonempty_size (s : Z * Z) : Prop := 1 ≤ s.1 ∧ 1 ≤ s.2.

(** What the program relies on from the backend. *)
Class ImagingLaws (B : Imaging) : Prop := {
  resize_size im s r : Image_resize im s = Ok r → img_size r = s;
  resize_defined im s : nonempty_size s → ∃ r, Image_resize im s = Ok r;
  fit_size im s r : ImageOps_fit im s = Ok r → img_size r = s;
  fit_defined im s : nonempty_size s → ∃ r, ImageOps_fit im s = Ok r;
  new_size m s c r : Image_new m s c = Ok r → img_size r = s;
  new_defined m s c : nonempty_size s → ∃ r, Image_new m s c = Ok r;
  paste_size bg im off : img_size (Image_paste bg im off) = img_size bg;
  rotate_180_size im r :
    Image_rotate im 180 = Ok r → img_size r = img_size im;
  rotate_270_size im r :
    Image_rotate im 270 = Ok r → img_size r = swap_size (img_size im);
  rotate_90_size im r :
    Image_rotate im 90 = Ok r → img_size r = swap_size (img_size im);
}.


(** ** Paths

    [pathlib] is not part of the program either.  A [Path] is kept as
    the text it was made from; [Path_str p] is [str(Path(p))], that text
    in the normal form of the platform. *)

Class Pathlib : Type := {
  Path_str : string → string;
}.

(** ** Text of the dimension entries *)

(** [str(n)] for an [int]. *)
Definition str_int (n : Z) : string := pretty n.

(** ** The application *)

Inductive status_msg : Type :=
  | Pronto
  | Caricato (path : string)
  | ErroreCaricamento
  | ErroreAnteprima (e : exn).

Section App.

Context {B : Imaging}.

(** [int(s)] on the text of an entry: [None] stands for [ValueError]. *)
Variable int_of_str : string → option Z.

(** The attributes of [ImageResizerApp] that the functions below read
    or write.  [canvas_size] is what [winfo_width()], [winfo_height()]
    answer, [canvas_image] the item drawn on the canvas with its
    north-west corner, [preview_job] the delay of the pending
    debounced [update_preview], [retry_job] the delay after which
    [update_preview] asked to be called again, [recent_files] the list
    stored at [RECENT_FILES_PATH] ([None]: no such file). *)
Record app : Type := App {
  original_image : option image;
  processed_image : option image;
  resize_mode : string;
  aspect_locked : bool;
  preserve_exif : bool;
  orig_width : Z;
  orig_height : Z;
  aspect_ratio : PyFloat.float;
  entry_width : string;
  entry_height : string;
  preview_job : option Z;
  retry_job : option Z;
  canvas_size : Z * Z;
  canvas_image : option (Z * Z * image);
  status : status_msg;
  recent_files : option (list string);
}.

Definition set_original_image v st :=
  App v (processed_image st) (resize_mode st) (aspect_locked st)
    (preserve_exif st) (orig_width st) (orig_height st) (aspect_ratio st)
    (entry_width st) (entry_height st) (preview_job st) (retry_job st)
    (canvas_size st) (canvas_image st) (status st) (recent_files st).
Definition set_processed_image v st :=
  App (original_image st) v (resize_mode st) (aspect_locked st)
    (preserve_exif st) (orig_width st) (orig_height st) (aspect_ratio st)
    (entry_width st) (entry_height st) (preview_job st) (retry_job st)
    (canvas_size st) (canvas_image st) (status st) (recent_files st).
Definition set_orig_size (v : Z * Z) st :=
  App (original_image st) (processed_image st) (resize_mode st)
    (aspect_locked st) (preserve_exif st) v.1 v.2 (aspect_ratio st)
    (entry_width st) (entry_height st) (preview_job st) (retry_job st)
    (canvas_size st) (canvas_image st) (status st) (recent_files st).
Definition set_entry_width v st :=
  App (original_image st) (processed_image st) (resize_mode st)
    (aspect_locked st) (preserve_exif st) (orig_width st) (orig_height st)
    (aspect_ratio st) v (entry_height st) (preview_job st) (retry_job st)
    (canvas_size st) (canvas_image st) (status st) (recent_files st).
Definition set_entry_height v st :=
  App (original_image st) (processed_image st) (resize_mode st)
    (aspect_locked st) (preserve_exif st) (orig_width st) (orig_height st)
    (aspect_ratio st) (entry_width st) v (preview_job st) (retry_job st)
    (canvas_size st) (canvas_image st) (status st) (recent_files st).
Definition set_preview_job v st :=
  App (original_image st) (processed_image st) (resize_mode st)
    (aspect_locked st) (preserve_exif st) (orig_width st) (orig_height st)
    (aspect_ratio st) (entry_width st) (entry_height st) v (retry_job st)
    (canvas_size st) (canvas_image st) (status st) (recent_files st).
Definition set_retry_job v st :=
  App (original_image st) (processed_image st) (resize_mode st)
    (aspect_locked st) (preserve_exif st) (orig_width st) (orig_height st)
    (aspect_ratio st) (entry_width st) (entry_height st) (preview_job st)
    v (canvas_size st) (canvas_image st) (status st) (recent_files st).
Definition set_canvas_image v st :=
  App (original_image st) (processed_image st) (resize_mode st)
    (aspect_locked st) (preserve_exif st) (orig_width st) (orig_height st)
    (aspect_ratio st) (entry_width st) (entry_height st) (preview_job st)
    (retry_job st) (canvas_size st) v (status st) (recent_files st).
Definition set_status v st :=
  App (original_image st) (processed_image st) (resize_mode st)
    (aspect_locked st) (preserve_exif st) (orig_width st) (orig_height st)
    (aspect_ratio st) (entry_width st) (entry_height st) (preview_job st)
    (retry_job st) (canvas_size st) (canvas_image st) v (recent_files st).

(** *** [get_dimensions] *)

Definition get_dimensions (st : app) : option (Z * Z) :=
  w ← int_of_str (entry_width st);
  h ← int_of_str (entry_height st);
  if (w <? 1) || (h <? 1) then None else Some (w, h).

(** *** [apply_exif_orientation] *)

(** The body of the [try]: [img] is rebound only by a rotation that
    returned. *)
Definition exif_rotation (img : image) : result image :=
  exif ← Image_getexif img;
  match exif with
  | Some tags =>
    if decide (tags = ∅) then Ok img
    else
      let orientation := tags !! 274 in
      if decide (orientation = Some 3) then Image_rotate img 180
      else if decide (orientation = Some 6) then Image_rotate img 270
      else if decide (orientation = Some 8) then Image_rotate img 90
      else Ok img
  | None => Ok img
  end.

Definition apply_exif_orientation (img : image) : image :=
  match exif_rotation img with
  | Ok img' => img'
  | Raise _ => img
  end.

(** *** [on_dim_change] *)

Definition locked_height (w : Z) (ratio : PyFloat.float) : result Z :=
  x ← PyFloat.int_div w ratio; PyFloat.to_int x.

Definition locked_width (h : Z) (ratio : PyFloat.float) : result Z :=
  x ← PyFloat.int_mul h ratio; PyFloat.to_int x.

(** The body of the [try] under [if self.aspect_locked.get()]. *)
Definition recompute_locked (st : app) (source : string) : result app :=
  if String.eqb source "width" then
    match int_of_str (entry_width st) with
    | None => Raise ValueError
    | Some w =>
      new_h ← locked_height w (aspect_ratio st);
      Ok (set_entry_height (str_int new_h) st)
    end
  else
    match int_of_str (entry_height st) with
    | None => Raise ValueError
    | Some h =>
      new_w ← locked_width h (aspect_ratio st);
      Ok (set_entry_width (str_int new_w) st)
    end.

Definition on_dim_change (st : app) (source : string) : result app :=
  match original_image st with
  | None => Ok st
  | Some _ =>
    st1 ← (if aspect_locked st then
             match recompute_locked st source with
             | Ok st' => Ok st'
             | Raise ValueError | Raise ZeroDivisionError => Ok st
             | Raise e => Raise e
             end
           else Ok st);
    Ok (set_preview_job (Some 100) st1)
  end.

(** *** [process_image] *)

Definition fit_scale (orig target : Z * Z) : result PyFloat.float :=
  sw ← PyFloat.truediv_int target.1 orig.1;
  sh ← PyFloat.truediv_int target.2 orig.2;
  Ok (PyFloat.min2 sw sh).

Definition fit_inner_size (orig : Z * Z) (scale : PyFloat.float)
    : result (Z * Z) :=
  if PyFloat.geb scale PyFloat.one then Ok orig
  else
    new_w ← (x ← PyFloat.int_mul orig.1 scale; PyFloat.to_int x);
    new_h ← (x ← PyFloat.int_mul orig.2 scale; PyFloat.to_int x);
    Ok (new_w, new_h).

(** [((target_w - new_w) // 2, (target_h - new_h) // 2)] *)
Definition center_offset (outer inner : Z * Z) : Z * Z :=
  ((outer.1 - inner.1) / 2, (outer.2 - inner.2) / 2).

Definition fit_background (img : image) (target : Z * Z) : result image :=
  if bool_decide (img_mode img ∈ ["RGBA"; "P"])
  then Image_new "RGBA" target [255; 255; 255; 0]
  else Image_new "RGB" target [255; 255; 255].

Definition process_fit (img : image) (target : Z * Z) : result image :=
  scale ← fit_scale (img_size img) target;
  new_size ← fit_inner_size (img_size img) scale;
  resized ← Image_resize img new_size;
  background ← fit_background img target;
  Ok (Image_paste background resized (center_offset target new_size)).

Definition process_image (st : app) (target_w target_h : Z)
    : result (option image) :=
  match original_image st with
  | None => Ok None
  | Some img =>
    let mode := resize_mode st in
    if String.eqb mode "stretch" then
      Some <$> Image_resize img (target_w, target_h)
    else if String.eqb mode "cut" then
      Some <$> ImageOps_fit img (target_w, target_h)
    else if String.eqb mode "fit" then
      Some <$> process_fit img (target_w, target_h)
    else Ok None
  end.

(** *** [update_preview] *)

(** Scale, preview size and north-west corner of the preview inside
    the canvas. *)
Definition viewport_fit (canvas img : Z * Z)
    : result (PyFloat.float * (Z * Z) * (Z * Z)) :=
  sw ← PyFloat.truediv_int canvas.1 img.1;
  sh ← PyFloat.truediv_int canvas.2 img.2;
  let scale := PyFloat.min3 sw sh PyFloat.one in
  preview_w ← (x ← PyFloat.int_mul img.1 scale; PyFloat.to_int x);
  preview_h ← (x ← PyFloat.int_mul img.2 scale; PyFloat.to_int x);
  Ok (scale, (preview_w, preview_h),
      center_offset canvas (preview_w, preview_h)).

Definition display_image (processed : image) (scale : PyFloat.float)
    (preview : Z * Z) : result image :=
  display_img ← (if PyFloat.ltb scale PyFloat.one
                 then Image_resize processed preview
                 else Ok processed);
  Ok (if String.eqb (img_mode display_img) "RGBA"
      then Image_convert display_img "RGB"
      else display_img).

(** What is drawn once [processed] is there: an exception leaves the
    state as it was when it was raised. *)
Definition draw_preview (st : app) (processed : image) : app :=
  let st := set_processed_image (Some processed) st in
  if (fst (canvas_size st) <? 50) || (snd (canvas_size st) <? 50) then
    set_retry_job (Some 100) st
  else
    match viewport_fit (canvas_size st) (img_size processed) with
    | Raise e => set_status (ErroreAnteprima e) st
    | Ok (scale, preview, origin) =>
      match display_image processed scale preview with
      | Raise e => set_status (ErroreAnteprima e) st
      | Ok display_img =>
        set_canvas_image (Some (origin.1, origin.2, display_img)) st
      end
    end.

Definition update_preview (st : app) : app :=
  match original_image st with
  | None => st
  | Some _ =>
    match get_dimensions st with
    | None => st
    | Some (w, h) =>
      match process_image st w h with
      | Raise e => set_status (ErroreAnteprima e) st
      | Ok None => st
      | Ok (Some processed) => draw_preview st processed
      end
    end
  end.

(** *** [add_recent_file] *)

Definition MAX_RECENT : nat := 5.

(** [recent.remove(filepath)]: the first occurrence goes. *)
Fixpoint list_remove (x : string) (l : list string) : list string :=
  match l with
  | [] => []
  | y :: l' => if decide (x = y) then l' else y :: list_remove x l'
  end.

(** From the stored list to the list written back. *)
Definition add_recent_file (stored : option (list string))
    (filepath : string) : option (list string) :=
  let recent := default [] stored in
  let recent :=
    if bool_decide (filepath ∈ recent) then list_remove filepath recent
    else recent in
  let recent := filepath :: recent in
  Some (take MAX_RECENT recent).

(** *** [load_image] *)

(** [self.orig_width / self.orig_height if self.orig_height else 1.0] *)
Definition load_aspect_ratio (orig_width orig_height : Z)
    : result PyFloat.float :=
  if orig_height =? 0 then Ok PyFloat.one
  else PyFloat.truediv_int orig_width orig_height.

Context {P : Pathlib}.

(** [filepath] is the path given or chosen in the dialog, [opened]
    what [Image.open(filepath)] answers.  The list of recent files
    takes [str(filepath)] of the [Path] made at the start. *)
Definition load_image (st : app) (filepath : option string)
    (opened : result image) : app :=
  match filepath with
  | None => st
  | Some path =>
    match opened with
    | Raise _ => set_status ErroreCaricamento st
    | Ok img =>
      let img :=
        if preserve_exif st then apply_exif_orientation img else img in
      let '(width, height) := img_size img in
      match load_aspect_ratio width height with
      | Raise _ =>
        set_status ErroreCaricamento
          (set_orig_size (width, height)
             (set_original_image (Some img) st))
      | Ok ratio =>
        set_status (Caricato path)
          (update_preview
             {| original_image := Some img;
                processed_image := processed_image st;
                resize_mode := resize_mode st;
                aspect_locked := aspect_locked st;
                preserve_exif := preserve_exif st;
                orig_width := width;
                orig_height := height;
                aspect_ratio := ratio;
                entry_width := str_int width;
                entry_height := str_int height;
                preview_job := preview_job st;
                retry_job := retry_job st;
                canvas_size := canvas_size st;
                canvas_image := None;
                status := status st;
                recent_files :=
                  add_recent_file (recent_files st) (Path_str path) |})
      end
    end
  end.

End App.

Arguments app {B}.

(** ** A reference backend

    Images with symbolic content: enough of Pillow to run the program.
    [resize] answers a copy when the size is unchanged and rejects an
    empty size ("height and width must be > 0"); [rotate] by a multiple
    of 90 with [expand] transposes. *)

Module Pillow.

Inductive pixels : Type :=
  | Decoded (name : string)
  | Resampled (p : pixels) (size : Z * Z)
  | Fitted (p : pixels) (size : Z * Z)
  | Rotated (p : pixels) (angle : Z)
  | Blank (color : list Z)
  | Pasted (bg fg : pixels) (offset : Z * Z)
  | Converted (p : pixels) (mode : string).

Record img : Type := Img {
  size : Z * Z;
  mode : string;
  exif : result (option (gmap Z Z));
  data : pixels;
}.

Definition derived (s : Z * Z) (m : string) (p : pixels) : img :=
  Img s m (Raise AttributeError) p.

Definition empty_size (s : Z * Z) : bool := (s.1 <? 1) || (s.2 <? 1).

Definition resize (im : img) (s : Z * Z) : result img :=
  if bool_decide (size im = s) then Ok im
  else if empty_size s then Raise ValueError
  else Ok (derived s (mode im) (Resampled (data im) s)).

Definition fit (im : img) (s : Z * Z) : result img :=
  if empty_size s then Raise ValueError
  else Ok (derived s (mode im) (Fitted (data im) s)).

Definition rotate (im : img) (angle : Z) : result img :=
  if bool_decide (angle = 180) then
    Ok (derived (size im) (mode im) (Rotated (data im) angle))
  else if bool_decide (angle = 90 ∨ angle = 270) then
    Ok (derived (swap_size (size im)) (mode im) (Rotated (data im) angle))
  else Raise BackendError.

Definition new (m : string) (s : Z * Z) (color : list Z) : result img :=
  if (s.1 <? 0) || (s.2 <? 0) then Raise ValueError
  else Ok (derived s m (Blank color)).

Definition paste (bg im : img) (offset : Z * Z) : img :=
  derived (size bg) (mode bg) (Pasted (data bg) (data im) offset).

Definition convert (im : img) (m : string) : img :=
  derived (size im) m (Converted (data im) m).

#[export] Instance backend : Imaging := {|
  image := img;
  img_size := size;
  img_mode := mode;
  Image_getexif := exif;
  Image_rotate := rotate;
  Image_resize := resize;
  ImageOps_fit := fit;
  Image_new := new;
  Image_paste := paste;
  Image_convert := convert;
|}.

(** A decoded file. *)
Definition decoded (name : string) (w h : Z) (m : string)
    (tags : result (option (gmap Z Z))) : img :=
  Img (w, h) m tags (Decoded name).

(** The application with [img] loaded, the entries showing [w] and
    [h], a canvas of 800 x 600. *)
Definition session (im : img) (resize_mode : string) (ratio : PyFloat.float)
    (w h : Z) : app :=
  App (Some im) None resize_mode true true (size im).1 (size im).2 ratio
    (str_int w) (str_int h) None None (800, 600) None Pronto None.

(** [int] on plain decimal text. *)
Definition int_of_decimal (s : string) : option Z :=
  Z.of_int <$> DecimalString.NilZero.int_of_string s.

End Pillow.

(** ** A backend that reads metadata and fails at everything else

    An image is its tags; every operation on pixels raises. *)

Module Failing.

#[export] Instance backend : Imaging := {|
  image := gmap Z Z;
  img_size := λ _, (0, 0);
  img_mode := λ _, "RGB";
  Image_getexif := λ tags, Ok (Some tags);
  Image_rotate := λ _ _, Raise BackendError;
  Image_resize := λ _ _, Raise BackendError;
  ImageOps_fit := λ _ _, Raise BackendError;
  Image_new := λ _ _ _, Raise BackendError;
  Image_paste := λ bg _ _, bg;
  Image_convert := λ im _, im;
|}.

End Failing.

(** ** The specification's wording, for comparison *)

Module Spec.

(** Orientation tag to the rotation applied: the angle, and whether
    width and height swap. *)
Definition orientation_rotation (tag : option Z) : option (Z * bool) :=
  if decide (tag = Some 3) then Some (180, false)
  else if decide (tag = Some 6) then Some (270, true)
  else if decide (tag = Some 8) then Some (90, true)
  else None.

(** [newW = round(source.width * scale)],
    [newH = round(source.height * scale)] *)
Definition fit_inner_size (orig : Z * Z) (scale : PyFloat.float)
    : result (Z * Z) :=
  new_w ← (x ← PyFloat.int_mul orig.1 scale; PyFloat.round x);
  new_h ← (x ← PyFloat.int_mul orig.2 scale; PyFloat.round x);
  Ok (new_w, new_h).

(** [round(other / ratio)] and [round(other * ratio)] *)
Definition locked_height (w : Z) (ratio : PyFloat.float) : result Z :=
  x ← PyFloat.int_div w ratio; PyFloat.round x.

Definition locked_width (h : Z) (ratio : PyFloat.float) : result Z :=
  x ← PyFloat.int_mul h ratio; PyFloat.round x.

(** Most recent first, each path once, at most five. *)
Fixpoint first_occurrences (l : list string) : list string :=
  match l with
  | [] => []
  | x :: l' => x :: filter (λ y, y ≠ x) (first_occurrences l')
  end.

Definition recent_list (opened : list string) : list string :=
  take 5 (first_occurrences (reverse opened)).

End Spec.

(** The orientation tag of an image: tag 274 of its metadata, when the
    metadata can be read. *)
Definition orientation_tag `{Imaging} (img : image) : option Z :=
  match Image_getexif img with
  | Ok (Some tags) => tags !! 274
  | _ => None
  end.

(** The stored list after the paths of [opened] were inserted in turn,
    starting without a file. *)
Definition recent_after (opened : list string) : option (list string) :=
  foldl add_recent_file None opened.

(** ** Notions for the rounding proofs *)

(** [k] halvings of a mantissa [m], starting from location [l]: the
    quotient by [2 ^ k]; nothing is recorded as lost when nothing was. *)
Definition halved (l : location) (m : Z) (k : Z) (mrs : shr_record) : Prop :=
  shr_m mrs = m / 2 ^ k ∧
  (l = loc_Exact → m mod 2 ^ k = 0 →
   shr_r mrs = false ∧ shr_s mrs = false).

(** The shift [shr_fexp] makes, and what it leaves. *)
Definition shift_of (m e : Z) : Z :=
  Z.max (fexp PyFloat.prec PyFloat.emax (Zdigits2 m + e) - e) 0.

(** [m * 2 ^ e <= V], for an exponent of either sign *)
Definition le_float (m e V : Z) : Prop :=
  (0 ≤ e → m * 2 ^ e ≤ V) ∧ (e < 0 → m ≤ V * 2 ^ (- e)).

(** Values the fit and preview scales take: zero, or positive with a
    mantissa of at most 53 bits. *)
Definition plain (x : PyFloat.float) : Prop :=
  match x with
  | S754_zero _ => True
  | S754_finite false m _ => Z.pos m < 2 ^ 53
  | _ => False
  end.

(** at most [V]: zero, or positive and at most [V] *)
Definition at_most (V : Z) (x : PyFloat.float) : Prop :=
  match x with
  | S754_zero _ => True
  | S754_finite false m e => le_float (Z.pos m) e V
  | _ => False
  end.

(** The padding around [inner] placed at [offset] inside [outer]:
    right and bottom exceed left and top by at most one pixel. *)
Definition balanced (outer inner offset : Z * Z) : Prop :=
  0 ≤ (outer.1 - inner.1 - offset.1) - offset.1 ≤ 1 ∧
  0 ≤ (outer.2 - inner.2 - offset.2) - offset.2 ≤ 1.

(** [n] is [x] cut toward zero: the integer next to [x] on the side of
    zero. *)
Definition truncation_of (x : PyFloat.float) (n : Z) : Prop :=
  ((0 <= PyFloat.to_Q x)%Q →
   (inject_Z n <= PyFloat.to_Q x)%Q ∧
   (PyFloat.to_Q x < inject_Z (n + 1))%Q) ∧
  ((PyFloat.to_Q x <= 0)%Q →
   (inject_Z (n - 1) < PyFloat.to_Q x)%Q ∧ (PyFloat.to_Q x <= inject_Z n)%Q).

(** ** Paths, for the reference backend

    [pathlib] on POSIX paths and ASCII text. *)

Module Posix.

(** What follows the last [sep] in [p], if there is one. *)
Fixpoint after_last (sep : Ascii.ascii) (p : string) : option string :=
  match p with
  | EmptyString => None
  | String c p' =>
    match after_last sep p' with
    | Some r => Some r
    | None => if Ascii.eqb c sep then Some p' else None
    end
  end.

(** the characters "/" and "." *)
Definition slash : Ascii.ascii := Ascii.ascii_of_nat 47.
Definition dot : Ascii.ascii := Ascii.ascii_of_nat 46.

(** [Path(p).name] *)
Definition name (p : string) : string := default p (after_last slash p).

(** [Path(p).suffix]: from the last dot of the name, unless the name
    starts or ends with it. *)
Definition suffix (p : string) : string :=
  match name p with
  | EmptyString => ""
  | String _ rest =>
    match after_last dot rest with
    | None | Some EmptyString => ""
    | Some ext => "." +:+ ext
    end
  end.

Definition lower_ascii (c : Ascii.ascii) : Ascii.ascii :=
  let n := Ascii.nat_of_ascii c in
  if (65 <=? n)%nat && (n <=? 90)%nat then Ascii.ascii_of_nat (n + 32) else c.

(** [s.lower()] *)
Fixpoint lower (s : string) : string :=
  match s with
  | EmptyString => EmptyString
  | String c s' => String (lower_ascii c) (lower s')
  end.

(** [Path(p).suffix.lower()] *)
Definition suffix_lower (p : string) : string := lower (suffix p).

(** [Path(p).exists()] with the files of [disk] there. *)
Definition exists_on (disk : list string) (p : string) : bool :=
  bool_decide (p ∈ disk).

(** [rel.split('/')]; [cur] is the component being read. *)
Fixpoint split (rel cur : string) : list string :=
  match rel with
  | EmptyString => [cur]
  | String c rel' =>
    if Ascii.eqb c slash then cur :: split rel' EmptyString
    else split rel' (cur +:+ String c EmptyString)
  end.

(** [posixpath.splitroot], without the drive: one slash, or two when
    the path starts with exactly two. *)
Definition splitroot (p : string) : string * string :=
  if negb (String.eqb (String.substring 0 1 p) "/") then ("", p)
  else if negb (String.eqb (String.substring 1 1 p) "/")
          || String.eqb (String.substring 2 1 p) "/"
  then ("/", String.substring 1 (String.length p) p)
  else ("//", String.substring 2 (String.length p) p).

(** The components kept: not empty and not ["."]. *)
Definition parts (rel : string) : list string :=
  filter (λ x, x ≠ "" ∧ x ≠ ".") (split rel "").

(** [str(PurePosixPath(p))] *)
Definition str (p : string) : string :=
  let '(root, rel) := splitroot p in
  let s := root +:+ String.concat "/" (parts rel) in
  if String.eqb s "" then "." else s.

#[export] Instance pathlib : Pathlib := {| Path_str := str |}.

End Posix.

(** ** Sample inputs *)

Module Examples.

#[local] Existing Instance Posix.pathlib.

Definition int_of_str := Pillow.int_of_decimal.

(** 0.25, 1.75 and 2.5 as floats *)
Definition quarter : PyFloat.float := S754_finite false 4503599627370496 (-54).
Definition seven_quarters : PyFloat.float :=
  S754_finite false 7881299347898368 (-52).
Definition five_halves : PyFloat.float :=
  S754_finite false 5629499534213120 (-51).

(** An 8 x 7 opaque file and a 4 x 3 file with alpha, no metadata *)
Definition wide : Pillow.img := Pillow.decoded "wide.png" 8 7 "RGB" (Ok None).
Definition small : Pillow.img :=
  Pillow.decoded "small.png" 4 3 "RGBA" (Ok None).

(** a 1000 x 1 strip, and 0.1 as a float *)
Definition strip : Pillow.img :=
  Pillow.decoded "strip.png" 1000 1 "RGB" (Ok None).
Definition tenth : PyFloat.float := S754_finite false 7205759403792794 (-56).

(** [strip] loaded, fit mode, the entries asking for 100 x 100 *)
Definition strip_fitting : app (B := Pillow.backend) :=
  Pillow.session strip "fit" PyFloat.one 100 100.

(** a 49 x 49 square, and 1/49 as a float *)
Definition square : Pillow.img :=
  Pillow.decoded "square.png" 49 49 "RGB" (Ok None).
Definition forty_ninth : PyFloat.float :=
  S754_finite false 5882252574524729 (-58).

(** [square] loaded, fit mode, the entries asking for 1 x 1 *)
Definition square_fitting : app (B := Pillow.backend) :=
  Pillow.session square "fit" PyFloat.one 1 1.

(** [wide] loaded, fit mode, the entries asking for 2 x 100 *)
Definition fitting : app (B := Pillow.backend) :=
  Pillow.session wide "fit" PyFloat.one 2 100.

(** the same with a mode the program does not know *)
Definition zooming : app (B := Pillow.backend) :=
  Pillow.session wide "zoom" PyFloat.one 2 100.

(** before anything is loaded *)
Definition started : app (B := Pillow.backend) :=
  App None None "fit" true true 0 0 PyFloat.one "800" "600" None None
    (800, 600) None Pronto None.

(** a 7 x 4 file loaded into [started] *)
Definition landscape : Pillow.img :=
  Pillow.decoded "landscape.png" 7 4 "RGB" (Ok None).
Definition loaded : app (B := Pillow.backend) :=
  load_image int_of_str started (Some "landscape.png") (Ok landscape).

(** the user typed 3 as width, or 1 as height *)
Definition width_typed : app (B := Pillow.backend) :=
  set_entry_width "3" loaded.
Definition height_typed : app (B := Pillow.backend) :=
  set_entry_height "1" loaded.

End Examples.

(** ** The controls

    The callbacks [setup_ui] and [setup_bindings] attach to the entries,
    the buttons and the window. *)

Section Controls.

Context {B : Imaging} {P : Pathlib}.

(** [int(s)] on the text of an entry: [None] stands for [ValueError]. *)
Variable int_of_str : string → option Z.

Definition set_resize_mode v (st : app) :=
  App (original_image st) (processed_image st) v (aspect_locked st)
    (preserve_exif st) (orig_width st) (orig_height st) (aspect_ratio st)
    (entry_width st) (entry_height st) (preview_job st) (retry_job st)
    (canvas_size st) (canvas_image st) (status st) (recent_files st).
Definition set_aspect_locked v (st : app) :=
  App (original_image st) (processed_image st) (resize_mode st) v
    (preserve_exif st) (orig_width st) (orig_height st) (aspect_ratio st)
    (entry_width st) (entry_height st) (preview_job st) (retry_job st)
    (canvas_size st) (canvas_image st) (status st) (recent_files st).
Definition set_canvas_size v (st : app) :=
  App (original_image st) (processed_image st) (resize_mode st)
    (aspect_locked st) (preserve_exif st) (orig_width st) (orig_height st)
    (aspect_ratio st) (entry_width st) (entry_height st) (preview_job st)
    (retry_job st) v (canvas_image st) (status st) (recent_files st).

(** *** [validate_dimension_input] *)

Definition validate_dimension_input (value : string) : bool :=
  if String.eqb value "" then true
  else
    match int_of_str value with
    | Some _ => true
    | None => false
    end.

(** *** [on_window_resize]

    [from_root] is [event.widget == self.root]. *)
Definition on_window_resize (st : app) (from_root : bool) : app :=
  if from_root then set_preview_job (Some 150) st else st.

(** *** [on_mode_change]

    The description labels apart, a call of [update_preview]. *)
Definition on_mode_change (st : app) : app := update_preview int_of_str st.

(** *** [toggle_aspect_lock]

    [int(w * self.aspect_ratio)] is the computation [on_dim_change]
    makes for a changed height.  [ValueError] is swallowed, any other
    exception leaves the callback. *)
Definition toggle_aspect_lock (st : app) : result app :=
  match aspect_locked st, original_image st with
  | true, Some _ =>
    match int_of_str (entry_width st) with
    | None => Ok st
    | Some w =>
      match locked_width w (aspect_ratio st) with
      | Ok h => Ok (update_preview int_of_str (set_entry_height (str_int h) st))
      | Raise ValueError => Ok st
      | Raise e => Raise e
      end
    end
  | _, _ => Ok st
  end.

(** *** [reset_dimensions] *)

Definition reset_dimensions (st : app) : app :=
  match original_image st with
  | None => st
  | Some _ =>
    update_preview int_of_str
      (set_entry_height (str_int (orig_height st))
         (set_entry_width (str_int (orig_width st)) st))
  end.

(** *** [swap_dimensions] *)

(** The two [set] calls. *)
Definition swap_entries (st : app) : app :=
  let w := entry_width st in
  let h := entry_height st in
  set_entry_height w (set_entry_width h st).

Definition swap_dimensions (st : app) : result app :=
  on_dim_change int_of_str (swap_entries st) "width".

(** *** What the user does

    [Key]: a key released in the entry [source], [proposed] being the
    text the entry would hold: the entry takes it when
    [validate_dimension_input] accepts it, and [on_dim_change] is
    called either way.  [Lock], [Mode]: the check button and the radio
    buttons write their variable, then call their command.
    [Originali], [Scambia], [Aggiorna]: the three buttons.  [Apri]:
    [load_image], with the path chosen and what [Image.open] answers.
    [Configure]: the window was resized, the canvas measures [canvas]
    from now on.  [PreviewDue]: the debounced call of [update_preview]
    is due.  A callback that raises leaves the state as it was when the
    exception was raised. *)
Inductive action : Type :=
  | Key (source proposed : string)
  | Lock (on : bool)
  | Mode (mode : string)
  | Originali
  | Scambia
  | Aggiorna
  | Apri (filepath : option string) (opened : result image)
  | Configure (from_root : bool) (canvas : Z * Z)
  | PreviewDue.

Definition is_Apri (a : action) : bool :=
  match a with
  | Apri _ _ => true
  | _ => false
  end.

Definition keep_on_raise (st : app) (r : result app) : app :=
  match r with
  | Ok st' => st'
  | Raise _ => st
  end.

Definition perform (st : app) (a : action) : app :=
  match a with
  | Key source proposed =>
    let st :=
      if validate_dimension_input proposed then
        if String.eqb source "width" then set_entry_width proposed st
        else set_entry_height proposed st
      else st in
    keep_on_raise st (on_dim_change int_of_str st source)
  | Lock on =>
    let st := set_aspect_locked on st in
    keep_on_raise st (toggle_aspect_lock st)
  | Mode mode => on_mode_change (set_resize_mode mode st)
  | Originali => reset_dimensions st
  | Scambia => keep_on_raise (swap_entries st) (swap_dimensions st)
  | Aggiorna => update_preview int_of_str st
  | Apri filepath opened => load_image int_of_str st filepath opened
  | Configure from_root canvas =>
    on_window_resize (set_canvas_size canvas st) from_root
  | PreviewDue => update_preview int_of_str st
  end.

Definition run (st : app) (actions : list action) : app :=
  foldl perform st actions.

(** *** [__init__]

    The application as [__init__] leaves it, with the canvas measuring
    [canvas] and [stored] the list at [RECENT_FILES_PATH]. *)
Definition init (canvas : Z * Z) (stored : option (list string)) : app :=
  {| original_image := None;
     processed_image := None;
     resize_mode := "fit";
     aspect_locked := true;
     preserve_exif := true;
     orig_width := 0;
     orig_height := 0;
     aspect_ratio := PyFloat.one;
     entry_width := "800";
     entry_height := "600";
     preview_job := None;
     retry_job := None;
     canvas_size := canvas;
     canvas_image := None;
     status := Pronto;
     recent_files := stored |}.

End Controls.

(** ** The list of recent files on screen *)

Section RecentList.

Context {B : Imaging} {P : Pathlib}.
Variable int_of_str : string → option Z.

(** [Path(f).exists()] and [Path(f).name] *)
Variable path_exists : string → bool.
Variable path_name : string → string.

(** The rows of [recent_listbox] and its [_paths] dict. *)
Record listbox : Type := Listbox {
  rows : list string;
  paths : gmap string string;
}.

(** [needle in s] on two strings *)
Fixpoint contains (needle s : string) : bool :=
  String.prefix needle s ||
  match s with
  | EmptyString => false
  | String _ s' => contains needle s'
  end.

(** One turn of the [for] loop. *)
Definition add_row (lb : listbox) (f : string) : listbox :=
  if path_exists f then
    Listbox (rows lb ++ [path_name f]) (<[path_name f := f]> (paths lb))
  else
    Listbox (rows lb ++ [path_name f +:+ " (mancante)"]) (paths lb).

(** *** [load_recent_files] *)

Definition load_recent_files (stored : option (list string)) : listbox :=
  match stored with
  | None => Listbox [] ∅
  | Some recent => foldl add_row (Listbox [] ∅) recent
  end.

(** *** [on_recent_select]

    [selection] is the first index of [curselection()], [open] what
    [Image.open] answers for a path. *)
Definition on_recent_select (st : app) (lb : listbox)
    (selection : option nat) (open : string → result image) : app :=
  match selection with
  | None => st
  | Some i =>
    match rows lb !! i with
    | None => st
    | Some filename =>
      if contains "(mancante)" filename then st
      else
        match paths lb !! filename with
        | Some path => load_image int_of_str st (Some path) (open path)
        | None => st
        end
    end
  end.

End RecentList.

Arguments listbox : clear implicits.

(** ** Saving

    What [save_image] asks of Pillow beyond [Imaging]. *)

Inductive save_option : Type :=
  | Quality (q : Z)
  | Optimize (b : bool).

Class ImagingOutput (B : Imaging) : Type := {
  (** [img.split()[3]] *)
  Image_alpha : image → result image;
  (** [background.paste(img, mask=mask)], as the updated background *)
  Image_paste_mask : image → image → image → result image;
  (** [img.save(path, **save_kwargs)] *)
  Image_save : image → string → list save_option → result ();
}.

(** Modes and sizes of what the backend builds. *)
Class ModeLaws (B : Imaging) : Prop := {
  new_mode m s c r : Image_new m s c = Ok r → img_mode r = m;
  convert_mode im m : img_mode (Image_convert im m) = m;
  convert_size im m : img_size (Image_convert im m) = img_size im;
  paste_mode bg im off : img_mode (Image_paste bg im off) = img_mode bg;
}.

Class OutputLaws (B : Imaging) (O : ImagingOutput B) : Prop := {
  paste_mask_mode bg im mask r :
    Image_paste_mask bg im mask = Ok r → img_mode r = img_mode bg;
  paste_mask_size bg im mask r :
    Image_paste_mask bg im mask = Ok r → img_size r = img_size bg;
}.

(** What [save_image] tells the user. *)
Inductive save_report : Type :=
  | NessunaImmagine
  | Annullato
  | Salvato (path : string)
  | SalvataggioFallito (e : exn).

(** What [save_image] leaves: the file written, with the image and the
    options handed to [save]; the stored list of recent files; the
    report. *)
Record save_outcome {B : Imaging} : Type := SaveOutcome {
  written : option (string * image * list save_option);
  recent_saved : option (list string);
  report : save_report;
}.
Arguments SaveOutcome {B} written recent_saved report.

Section Saving.

Context {B : Imaging} {O : ImagingOutput B} {P : Pathlib}.

(** [Path(p).suffix.lower()] *)
Variable suffix : string → string.

(** The branch for [.jpg] and [.jpeg]: the image on a white opaque
    background. *)
Definition flatten_for_jpeg (img : image) : result image :=
  if bool_decide (img_mode img ∈ ["RGBA"; "P"]) then
    background ← Image_new "RGB" (img_size img) [255; 255; 255];
    let img :=
      if String.eqb (img_mode img) "P" then Image_convert img "RGBA"
      else img in
    if String.eqb (img_mode img) "RGBA" then
      mask ← Image_alpha img;
      Image_paste_mask background img mask
    else Ok background
  else if negb (String.eqb (img_mode img) "RGB") then
    Ok (Image_convert img "RGB")
  else Ok img.

(** The image and the options for an extension. *)
Definition save_format (ext : string) (img : image)
    : result (image * list save_option) :=
  if bool_decide (ext ∈ [".jpg"; ".jpeg"]) then
    img ← flatten_for_jpeg img;
    Ok (img, [Quality 95; Optimize true])
  else if String.eqb ext ".png" then Ok (img, [Optimize true])
  else if String.eqb ext ".webp" then Ok (img, [Quality 95])
  else Ok (img, []).

(** *** [save_image]

    [save_path] is what the dialog answers.  The list of recent files
    takes [str(save_path)] of the [Path] made of it. *)
Definition save_image (st : app) (save_path : option string)
    : save_outcome :=
  match processed_image st with
  | None => SaveOutcome None (recent_files st) NessunaImmagine
  | Some processed =>
    match save_path with
    | None => SaveOutcome None (recent_files st) Annullato
    | Some path =>
      match
        '(img, save_kwargs) ← save_format (suffix path) processed;
        _ ← Image_save img path save_kwargs;
        Ok (img, save_kwargs)
      with
      | Ok (img, save_kwargs) =>
        SaveOutcome (Some (path, img, save_kwargs))
          (add_recent_file (recent_files st) (Path_str path))
          (Salvato path)
      | Raise e => SaveOutcome None (recent_files st) (SalvataggioFallito e)
      end
    end
  end.

End Saving.

(** ** Notions for the properties of the controls *)

(** [st'] differs from [st] at most in what the preview writes: the
    processed image, the canvas, the retry and the status. *)
Definition same_settings {B : Imaging} (st st' : app) : Prop :=
  original_image st' = original_image st ∧
  resize_mode st' = resize_mode st ∧
  aspect_locked st' = aspect_locked st ∧
  preserve_exif st' = preserve_exif st ∧
  orig_width st' = orig_width st ∧
  orig_height st' = orig_height st ∧
  aspect_ratio st' = aspect_ratio st ∧
  entry_width st' = entry_width st ∧
  entry_height st' = entry_height st ∧
  preview_job st' = preview_job st ∧
  canvas_size st' = canvas_size st ∧
  recent_files st' = recent_files st.

(** [st'] holds the image [st] holds, with its size and ratio, and the
    same stored list of recent files. *)
Definition same_source {B : Imaging} (st st' : app) : Prop :=
  original_image st' = original_image st ∧
  orig_width st' = orig_width st ∧
  orig_height st' = orig_height st ∧
  aspect_ratio st' = aspect_ratio st ∧
  recent_files st' = recent_files st.

(** There is a processed image only when an image is loaded, the size
    on record is the size of the loaded image, and a processed image
    has at least one pixel. *)
Definition consistent {B : Imaging} (st : app) : Prop :=
  (original_image st = None → processed_image st = None) ∧
  (∀ img, original_image st = Some img →
          (orig_width st, orig_height st) = img_size img) ∧
  (∀ p, processed_image st = Some p → nonempty_size (img_size p)).

(** [m * 2 ^ e = V], for an exponent of either sign *)
Definition eq_float (m e V : Z) : Prop :=
  (0 ≤ e → m * 2 ^ e = V) ∧ (e < 0 → m = V * 2 ^ (- e)).

(** exactly the integer [V] *)
Definition exactly (V : Z) (x : PyFloat.float) : Prop :=
  match x with
  | S754_finite false m e => eq_float (Z.pos m) e V
  | _ => False
  end.

(** [c * x <= V + 1/2], for a float [x] below [2 ^ 52] with a full
    mantissa *)
Definition within (c V : Z) (x : PyFloat.float) : Prop :=
  match x with
  | S754_finite false m e =>
    e < 0 ∧ 2 ^ 52 ≤ Z.pos m < 2 ^ 53 ∧
    2 * c * Z.pos m ≤ (2 * V + 1) * 2 ^ (- e)
  | _ => False
  end.

(** ** The reference backend, writing

    [save] picks the format by the extension, refuses an extension it
    does not know and refuses to write a JPEG from a mode with alpha or
    a palette, as Pillow does. *)

Module PillowOutput.

Definition alpha (im : Pillow.img) : result Pillow.img :=
  if String.eqb (Pillow.mode im) "RGBA" then
    Ok (Pillow.derived (Pillow.size im) "L"
          (Pillow.Converted (Pillow.data im) "A"))
  else Raise ValueError.

Definition paste_mask (bg im mask : Pillow.img) : result Pillow.img :=
  if bool_decide (Pillow.size mask = Pillow.size im) then
    Ok (Pillow.derived (Pillow.size bg) (Pillow.mode bg)
          (Pillow.Pasted (Pillow.data bg) (Pillow.data im) (0, 0)))
  else Raise ValueError.

Definition save (im : Pillow.img) (path : string)
    (options : list save_option) : result () :=
  let ext := Posix.suffix_lower path in
  if bool_decide (ext ∈ [".jpg"; ".jpeg"]) then
    if bool_decide (Pillow.mode im ∈ ["RGB"; "L"; "CMYK"; "1"]) then Ok ()
    else Raise BackendError
  else if bool_decide (ext ∈ [".png"; ".webp"; ".tiff"; ".tif"; ".bmp";
                              ".gif"])
  then Ok ()
  else Raise ValueError.

#[export] Instance output : ImagingOutput Pillow.backend :=
  Build_ImagingOutput Pillow.backend alpha paste_mask save.

End PillowOutput.

(** ** More sample inputs *)

Module Scenes.

#[local] Existing Instance Pillow.backend.
#[local] Existing Instance Posix.pathlib.

(** 0.5 as a float *)
Definition half : PyFloat.float := S754_finite false 4503599627370496 (-53).

(** a 1600 x 1200 image with alpha, as processed *)
Definition large : Pillow.img :=
  Pillow.decoded "large.png" 1600 1200 "RGBA" (Ok None).

(** [wide] fitted into 2 x 100 *)
Definition wide_fitted : Pillow.img :=
  Pillow.derived (2, 100) "RGB"
    (Pillow.Pasted (Pillow.Blank [255; 255; 255])
       (Pillow.Resampled (Pillow.Decoded "wide.png") (2, 1)) (0, 49)).

(** the 7 x 4 file loaded, then 0 or 1 typed as width, or a width too
    large for a float *)
Definition zero_typed : app (B := Pillow.backend) :=
  set_entry_width "0" Examples.loaded.
Definition one_typed : app (B := Pillow.backend) :=
  set_entry_width "1" Examples.loaded.
Definition huge_typed : app (B := Pillow.backend) :=
  set_entry_width (str_int (2 ^ 1100)) Examples.loaded.

(** the same file, opened as [./landscape.png] *)
Definition dotted : app (B := Pillow.backend) :=
  load_image Examples.int_of_str Examples.started
    (Some "./landscape.png") (Ok Examples.landscape).

(** the same file loaded, with the lock off *)
Definition unlocked : app (B := Pillow.backend) :=
  set_aspect_locked false Examples.loaded.

(** an afternoon at the controls *)
Definition editing : list action :=
  [Key "width" "3"; Scambia; Lock false; Mode "cut"; Key "height" "";
   Originali; Configure true (1024, 768); PreviewDue].
Definition afternoon : list action :=
  Apri (Some "landscape.png") (Ok Examples.landscape) ::
  editing ++
  [Apri (Some "broken.png") (Raise BackendError);
   Apri (Some "small.png") (Ok Examples.small); Mode "stretch"; Aggiorna].

(** two files of the same name, and one that is gone *)
Definition disk : list string := ["/a/photo.png"; "/b/photo.png"].
Definition stored : list string :=
  ["/a/photo.png"; "/b/photo.png"; "/c/gone.png"].
Definition open (path : string) : result Pillow.img :=
  if String.eqb path "/a/photo.png" then
    Ok (Pillow.decoded path 8 7 "RGB" (Ok None))
  else if String.eqb path "/b/photo.png" then
    Ok (Pillow.decoded path 4 3 "RGBA" (Ok None))
  else Raise BackendError.

(** a 30 x 20 photo taken with the camera turned *)
Definition turned : Pillow.img :=
  Pillow.decoded "photo.jpg" 30 20 "RGB" (Ok (Some {[274 := 6]})).

(** [small], with alpha, as the processed image *)
Definition previewed : app (B := Pillow.backend) :=
  App (Some Examples.small) (Some Examples.small) "stretch" true true 4 3
    PyFloat.one "4" "3" None None (800, 600) None Pronto
    (Some ["small.png"]).

End Scenes.

(** * Properties *)

(** ** Results *)

Lemma bind_Ok {A C} (r : result A) (f : A → result C) (c : C) :
  r ≫= f = Ok c ↔ ∃ a, r = Ok a ∧ f a = Ok c.
Proof.
  destruct r as [a|e]; simpl; split; eauto.
  - by intros (a'&[= <-]&?).
  - done.
  - by intros (?&?&?).
Qed.

(** ** Floats *)

Section Floats.

Lemma SFcompare_antisym (x y : PyFloat.float) :
  SFcompare y x = CompOpp <$> SFcompare x y.
Proof.
  destruct x as [sx|sx| |sx mx ex], y as [sy|sy| |sy my ey]; simpl;
    try done;
    try (by destruct sx); try (by destruct sy); try (by destruct sx, sy).
  destruct sx, sy; simpl; try done;
    rewrite (Z.compare_antisym ey ex);
    destruct (ey ?= ex); simpl; try done;
    pose proof (Pos.compare_cont_antisym mx my Eq) as Ha; simpl in Ha;
    rewrite <- Ha; by destruct (Pos.compare_cont Eq mx my).
Qed.

(** [x < y] rules out [x >= y]. *)
Lemma ltb_not_geb (x y : PyFloat.float) :
  PyFloat.ltb x y = true → PyFloat.geb x y = false.
Proof.
  unfold PyFloat.ltb, PyFloat.geb, SFltb, SFleb.
  rewrite (SFcompare_antisym x y).
  by destruct (SFcompare x y) as [[]|].
Qed.

(** [int(x)] is [x] cut toward zero. *)
Lemma to_int_truncation (x : PyFloat.float) (n : Z) :
  PyFloat.to_int x = Ok n → truncation_of x n.
Proof.
  unfold truncation_of. destruct x as [s| | |s m e]; simpl; try done.
  { intros [= <-]. unfold Qle, Qlt. simpl. lia. }
  intros [= <-]. destruct (Z.leb_spec 0 e) as [He|He].
  - assert (0 < 2 ^ e) by (by apply Z.pow_pos_nonneg).
    destruct s; unfold Qle, Qlt; simpl; nia.
  - assert (0 < 2 ^ (- e)) as Hd by (apply Z.pow_pos_nonneg; lia).
    pose proof (Z.div_mod (Z.pos m) (2 ^ (- e))) as Hdm.
    pose proof (Z.mod_pos_bound (Z.pos m) (2 ^ (- e)) Hd) as Hmod.
    assert (0 ≤ Z.pos m `div` 2 ^ (- e)) by (apply Z.div_pos; lia).
    destruct s; unfold Qle, Qlt; simpl; rewrite ?Z2Pos.id by done; nia.
Qed.

(** [round(x)] is within one half of [x]. *)
Lemma round_nearest (x : PyFloat.float) (n : Z) :
  PyFloat.round x = Ok n →
  (inject_Z (2 * n - 1) <= 2 * PyFloat.to_Q x)%Q ∧
  (2 * PyFloat.to_Q x <= inject_Z (2 * n + 1))%Q.
Proof.
  destruct x as [s| | |s m e]; simpl; try done.
  { intros [= <-]. unfold Qle. simpl. lia. }
  intros [= <-]. destruct (Z.leb_spec 0 e) as [He|He].
  - assert (0 < 2 ^ e) by (by apply Z.pow_pos_nonneg).
    destruct s; unfold Qle; simpl; nia.
  - assert (0 < 2 ^ (- e)) as Hd by (apply Z.pow_pos_nonneg; lia).
    pose proof (Z.div_mod (Z.pos m) (2 ^ (- e))) as Hdm.
    pose proof (Z.mod_pos_bound (Z.pos m) (2 ^ (- e)) Hd) as Hmod.
    set (d := 2 ^ (- e)) in *. set (q := Z.pos m `div` d) in *.
    set (r := Z.pos m `mod` d) in *.
    destruct (Z.compare_spec (2 * r) d) as [Heq|Hlt|Hgt];
      [destruct (Z.even q)| |];
      destruct s; unfold Qle; simpl; rewrite ?Z2Pos.id by done; nia.
Qed.

(** *** Rounding: what [binary_round_aux] does to a mantissa *)

Lemma digits2_pos_bounds (m : positive) :
  2 ^ (Z.pos (digits2_pos m) - 1) ≤ Z.pos m < 2 ^ Z.pos (digits2_pos m).
Proof.
  induction m as [m IH|m IH|]; simpl digits2_pos.
  - rewrite Pos2Z.inj_succ.
    replace (Z.succ (Z.pos (digits2_pos m)) - 1)
      with (Z.succ (Z.pos (digits2_pos m) - 1)) by lia.
    rewrite !Z.pow_succ_r by lia.
    generalize dependent (2 ^ (Z.pos (digits2_pos m) - 1)).
    generalize dependent (2 ^ Z.pos (digits2_pos m)). lia.
  - rewrite Pos2Z.inj_succ.
    replace (Z.succ (Z.pos (digits2_pos m)) - 1)
      with (Z.succ (Z.pos (digits2_pos m) - 1)) by lia.
    rewrite !Z.pow_succ_r by lia.
    generalize dependent (2 ^ (Z.pos (digits2_pos m) - 1)).
    generalize dependent (2 ^ Z.pos (digits2_pos m)). lia.
  - simpl. lia.
Qed.

Lemma iter_pos_invariant {A} (f : A → A) (Inv : Z → A → Prop) :
  (∀ k x, 0 ≤ k → Inv k x → Inv (k + 1) (f x)) →
  ∀ p k x, 0 ≤ k → Inv k x →
    Inv (k + Z.pos p) (SpecFloat.iter_pos f p x).
Proof.
  intros Hstep. induction p as [p IH|p IH|]; intros k x Hk Hx; simpl.
  - replace (k + Z.pos p~1) with (k + 1 + Z.pos p + Z.pos p) by lia.
    apply IH; [lia|]. apply IH; [lia|]. by apply Hstep.
  - replace (k + Z.pos p~0) with (k + Z.pos p + Z.pos p) by lia.
    apply IH; [lia|]. by apply IH.
  - by apply Hstep.
Qed.

Lemma shr_1_nonneg (mrs : shr_record) :
  0 ≤ shr_m mrs →
  shr_1 mrs = Build_shr_record (shr_m mrs / 2) (Z.odd (shr_m mrs))
                (shr_r mrs || shr_s mrs).
Proof.
  destruct mrs as [m r s]. simpl. intros Hm.
  rewrite <- Z.div2_div.
  destruct m as [|[p|p|]|p]; try done; lia.
Qed.

Lemma shr_1_halved l (m k : Z) (mrs : shr_record) :
  0 ≤ m → 0 ≤ k → halved l m k mrs → halved l m (k + 1) (shr_1 mrs).
Proof.
  intros Hm Hk [Hq Hexact].
  assert (0 < 2 ^ k) as Hpow by (by apply Z.pow_pos_nonneg).
  assert (0 ≤ shr_m mrs) as Hnn by (rewrite Hq; by apply Z.div_pos).
  rewrite shr_1_nonneg by done. unfold halved. simpl.
  rewrite Z.pow_add_r, Z.pow_1_r by lia.
  split.
  - rewrite Hq. by rewrite Z.div_div by lia.
  - intros Hl Hmod.
    assert (m mod 2 ^ k = 0 ∧ (m / 2 ^ k) mod 2 = 0) as [Hmod1 Hmod2].
    { rewrite Z.rem_mul_r in Hmod by lia.
      pose proof (Z.mod_pos_bound m (2 ^ k) Hpow).
      pose proof (Z.mod_pos_bound (m / 2 ^ k) 2). nia. }
    destruct (Hexact Hl Hmod1) as [-> ->]. split; [|done].
    rewrite Hq. rewrite Zodd_mod, Hmod2. done.
Qed.

Lemma iter_shr_halved l (m : Z) (p : positive) (mrs : shr_record) :
  0 ≤ m → halved l m 0 mrs →
  halved l m (Z.pos p) (SpecFloat.iter_pos shr_1 p mrs).
Proof.
  intros Hm H0.
  apply (iter_pos_invariant shr_1 (halved l m)
           (λ k x Hk, shr_1_halved l m k x Hm Hk) p 0 mrs); [lia|done].
Qed.

Lemma shr_fexp_spec (m e : Z) (l : location) :
  0 ≤ m →
  ∃ mrs,
    shr_fexp PyFloat.prec PyFloat.emax m e l = (mrs, e + shift_of m e) ∧
    shr_m mrs = m / 2 ^ shift_of m e ∧
    (l = loc_Exact → m mod 2 ^ shift_of m e = 0 →
     loc_of_shr_record mrs = loc_Exact).
Proof.
  intros Hm. unfold shr_fexp, shift_of, shr.
  destruct (fexp PyFloat.prec PyFloat.emax (Zdigits2 m + e) - e)
    as [|p|p] eqn:Hn.
  - exists (shr_record_of_loc m l). simpl.
    rewrite Z.add_0_r, Z.div_1_r. repeat split.
    + by destruct l as [|[]].
    + by intros ->.
  - destruct (iter_shr_halved l m p (shr_record_of_loc m l) Hm)
      as [Hq Hexact].
    { split; [by destruct l as [|[]]; simpl; rewrite Z.div_1_r|].
      by intros ->. }
    eexists. rewrite Z.max_l by lia. repeat split; [done|].
    intros Hl Hmod. destruct (Hexact Hl Hmod) as [Hr Hs].
    destruct (SpecFloat.iter_pos _ _ _) as [m' r s]. simpl in *.
    by rewrite Hr, Hs.
  - exists (shr_record_of_loc m l). simpl.
    rewrite Z.add_0_r, Z.div_1_r. repeat split.
    + by destruct l as [|[]].
    + by intros ->.
Qed.

Lemma round_nearest_even_bounds (m : Z) (l : location) :
  m ≤ round_nearest_even m l ≤ m + 1 ∧ round_nearest_even m loc_Exact = m.
Proof.
  split; [|done].
  destruct l as [|[]]; simpl; try lia. destruct (Z.even m); lia.
Qed.

Lemma le_float_shift (m e n V : Z) :
  0 ≤ m → 0 ≤ n → le_float m e V → le_float (m / 2 ^ n) (e + n) V.
Proof.
  intros Hm Hn [Hpos Hneg].
  assert (0 < 2 ^ n) as Hpn by (by apply Z.pow_pos_nonneg).
  pose proof (Z.mul_div_le m (2 ^ n) Hpn) as Hq.
  assert (0 ≤ m / 2 ^ n) as Hq0 by (by apply Z.div_pos).
  set (q := m / 2 ^ n) in *.
  split; intros He'.
  - destruct (Z.le_gt_cases 0 e) as [He|He].
    + specialize (Hpos He). rewrite Z.pow_add_r by lia.
      assert (0 < 2 ^ e) by (by apply Z.pow_pos_nonneg). nia.
    + specialize (Hneg He).
      assert (2 ^ n = 2 ^ (e + n) * 2 ^ (- e)) as Hsplit.
      { rewrite <- Z.pow_add_r by lia. f_equal; lia. }
      assert (0 < 2 ^ (- e)) by (apply Z.pow_pos_nonneg; lia).
      assert (0 < 2 ^ (e + n)) by (by apply Z.pow_pos_nonneg).
      nia.
  - specialize (Hneg ltac:(lia)).
    assert (2 ^ (- e) = 2 ^ (- (e + n)) * 2 ^ n) as Hsplit.
    { rewrite <- Z.pow_add_r by lia. f_equal; lia. }
    assert (0 < 2 ^ (- (e + n))) by (apply Z.pow_pos_nonneg; lia).
    nia.
Qed.

Lemma digits_le_float (p : positive) (e V : Z) :
  le_float (Z.pos p) e V → 0 ≤ V < 2 ^ 53 →
  Z.pos (digits2_pos p) + e ≤ 53.
Proof.
  intros [Hpos Hneg] HV.
  destruct (digits2_pos_bounds p) as [Hlo _].
  destruct (Z.le_gt_cases (Z.pos (digits2_pos p) + e) 53) as [|Hgt]; [done|].
  exfalso. destruct (Z.le_gt_cases 0 e) as [He|He].
  - specialize (Hpos He).
    destruct (Z.le_gt_cases 53 e) as [He53|He53].
    + pose proof (Z.pow_le_mono_r 2 53 e ltac:(lia) He53). nia.
    + pose proof (Z.pow_le_mono_r 2 (53 - e) (Z.pos (digits2_pos p) - 1)
                    ltac:(lia) ltac:(lia)) as Hmono.
      assert (2 ^ 53 = 2 ^ (53 - e) * 2 ^ e) as Hsplit.
      { rewrite <- Z.pow_add_r by lia. f_equal; lia. }
      assert (0 < 2 ^ e) by (by apply Z.pow_pos_nonneg). nia.
  - specialize (Hneg He).
    pose proof (Z.pow_le_mono_r 2 (53 - e) (Z.pos (digits2_pos p) - 1)
                  ltac:(lia) ltac:(lia)) as Hmono.
    assert (2 ^ (53 - e) = 2 ^ 53 * 2 ^ (- e)) as Hsplit.
    { rewrite <- Z.pow_add_r by lia. f_equal; lia. }
    assert (0 < 2 ^ (- e)) by (apply Z.pow_pos_nonneg; lia). nia.
Qed.

(** Rounding to nearest after the shift stays at or below an integer
    bound [V < 2 ^ 53]. *)
Lemma round_le (p : positive) (e V : Z) (mrs : shr_record) :
  le_float (Z.pos p) e V → 0 ≤ V < 2 ^ 53 →
  shr_m mrs = Z.pos p / 2 ^ shift_of (Z.pos p) e →
  (Z.pos p mod 2 ^ shift_of (Z.pos p) e = 0 →
   loc_of_shr_record mrs = loc_Exact) →
  0 ≤ round_nearest_even (shr_m mrs) (loc_of_shr_record mrs) ∧
  le_float (round_nearest_even (shr_m mrs) (loc_of_shr_record mrs))
    (e + shift_of (Z.pos p) e) V.
Proof.
  intros Hle HV Hq Hexact.
  pose proof (digits_le_float p e V Hle HV) as Hdig.
  destruct (round_nearest_even_bounds (shr_m mrs) (loc_of_shr_record mrs))
    as [Hrne _].
  assert (0 ≤ shr_m mrs) as Hq0.
  { rewrite Hq. apply Z.div_pos; [lia|]. apply Z.pow_pos_nonneg; [lia|].
    unfold shift_of. lia. }
  split; [lia|].
  revert Hq Hexact Hrne. unfold shift_of. simpl Zdigits2.
  destruct (Z.le_gt_cases
              (fexp PyFloat.prec PyFloat.emax (Z.pos (digits2_pos p) + e) - e)
              0)
    as [Hn|Hn]; [rewrite Z.max_r by done|rewrite Z.max_l by lia].
  - (* nothing is shifted out *)
    rewrite Z.div_1_r, Z.mod_1_r, Z.add_0_r. intros Hq Hexact _.
    rewrite Hexact, Hq by done. done.
  - (* a shift by n > 0 lands on an exponent that is at most 0 *)
    set (n := fexp PyFloat.prec PyFloat.emax (Z.pos (digits2_pos p) + e) - e)
      in *.
    intros Hq Hexact Hrne.
    assert (e + n ≤ 0 ∧ e < 0) as [He1 He].
    { unfold n, fexp, emin, PyFloat.prec, PyFloat.emax in *. lia. }
    destruct Hle as [_ Hneg]. specialize (Hneg He).
    assert (0 < 2 ^ n) as Hpn by (apply Z.pow_pos_nonneg; lia).
    assert (2 ^ (- e) = 2 ^ (- (e + n)) * 2 ^ n) as Hsplit.
    { rewrite <- Z.pow_add_r by lia. f_equal; lia. }
    assert (0 < 2 ^ (- (e + n))) as Hp1 by (apply Z.pow_pos_nonneg; lia).
    pose proof (Z.div_mod (Z.pos p) (2 ^ n) ltac:(lia)) as Hdm.
    pose proof (Z.mod_pos_bound (Z.pos p) (2 ^ n) Hpn) as Hmod.
    assert (round_nearest_even (shr_m mrs) (loc_of_shr_record mrs)
            ≤ V * 2 ^ (- (e + n))) as Hbound.
    { destruct (Z.eq_dec (Z.pos p mod 2 ^ n) 0) as [Hz|Hnz].
      - rewrite (Hexact Hz). simpl. rewrite Hq. nia.
      - assert (shr_m mrs < V * 2 ^ (- (e + n))); [|lia].
        rewrite Hq. nia. }
    split; intros He'.
    + assert (e + n = 0) as Hz by lia. rewrite Hz in Hbound |- *.
      change (2 ^ (- 0)) with 1 in Hbound. rewrite Z.pow_0_r. lia.
    + done.
Qed.

(** The product of a value at most [V] by a value below 1, rounded,
    is finite and at most [V]. *)
Lemma binary_round_aux_le (s : bool) (p : positive) (e V : Z) :
  le_float (Z.pos p) e V → 0 ≤ V < 2 ^ 53 →
  match binary_round_aux PyFloat.prec PyFloat.emax s (Z.pos p) e loc_Exact with
  | S754_zero s' => s' = s
  | S754_finite s' m' e' => s' = s ∧ le_float (Z.pos m') e' V
  | _ => False
  end.
Proof.
  intros Hle HV. unfold binary_round_aux.
  destruct (shr_fexp_spec (Z.pos p) e loc_Exact ltac:(lia))
    as (mrs1&->&Hq1&Hex1).
  destruct (round_le p e V mrs1 Hle HV Hq1 (Hex1 eq_refl)) as [Hm1 Hle1].
  set (m1 := round_nearest_even (shr_m mrs1) (loc_of_shr_record mrs1)) in *.
  set (e1 := e + shift_of (Z.pos p) e) in *.
  destruct (shr_fexp_spec m1 e1 loc_Exact Hm1) as (mrs2&->&Hq2&_).
  assert (0 ≤ shift_of m1 e1) as Hn2 by (unfold shift_of; lia).
  pose proof (le_float_shift m1 e1 (shift_of m1 e1) V Hm1 Hn2 Hle1) as Hle2.
  rewrite <- Hq2 in Hle2.
  assert (0 ≤ shr_m mrs2) as Hm2.
  { rewrite Hq2. apply Z.div_pos; [done|]. by apply Z.pow_pos_nonneg. }
  destruct (shr_m mrs2) as [|m2|m2]; [done| |lia].
  set (e2 := e1 + shift_of m1 e1) in *.
  assert (e2 ≤ PyFloat.emax - PyFloat.prec) as He2.
  { unfold PyFloat.emax, PyFloat.prec.
    destruct (Z.le_gt_cases e2 0) as [|Hpos]; [lia|].
    destruct Hle2 as [Hle2 _]. specialize (Hle2 ltac:(lia)).
    destruct (Z.le_gt_cases 53 e2) as [He53|]; [|lia].
    pose proof (Z.pow_le_mono_r 2 53 e2 ltac:(lia) He53). nia. }
  apply Z.leb_le in He2. rewrite He2. done.
Qed.

Lemma Zdigits2_bound (m : Z) : 0 ≤ m → m < 2 ^ Zdigits2 m.
Proof.
  destruct m as [|p|p]; simpl; [lia| |lia]. intros _.
  apply digits2_pos_bounds.
Qed.

(** Whatever is rounded, the mantissa that comes out has at most 53
    bits, and the sign is the one given. *)
Lemma binary_round_aux_shape (s : bool) (m e : Z) (l : location) :
  0 ≤ m →
  match binary_round_aux PyFloat.prec PyFloat.emax s m e l with
  | S754_zero s' | S754_infinity s' => s' = s
  | S754_finite s' m' e' => s' = s ∧ Z.pos m' < 2 ^ 53
  | S754_nan => False
  end.
Proof.
  intros Hm. unfold binary_round_aux.
  destruct (shr_fexp_spec m e l Hm) as (mrs1&->&Hq1&_).
  destruct (round_nearest_even_bounds (shr_m mrs1) (loc_of_shr_record mrs1))
    as [Hrne _].
  assert (0 ≤ shr_m mrs1) as Hq0.
  { rewrite Hq1. apply Z.div_pos; [lia|]. apply Z.pow_pos_nonneg; [lia|].
    unfold shift_of. lia. }
  set (m1 := round_nearest_even (shr_m mrs1) (loc_of_shr_record mrs1)) in *.
  set (e1 := e + shift_of m e) in *.
  assert (0 ≤ m1) as Hm1 by lia.
  destruct (shr_fexp_spec m1 e1 loc_Exact Hm1) as (mrs2&->&Hq2&_).
  assert (shr_m mrs2 < 2 ^ 53 ∧ 0 ≤ shr_m mrs2) as [Hlt Hnn].
  { rewrite Hq2.
    assert (0 ≤ shift_of m1 e1 ∧ Zdigits2 m1 ≤ shift_of m1 e1 + 53)
      as [Hn Hd].
    { unfold shift_of, fexp, emin, PyFloat.prec, PyFloat.emax. lia. }
    assert (0 < 2 ^ shift_of m1 e1) as Hp by (by apply Z.pow_pos_nonneg).
    split; [|by apply Z.div_pos].
    apply Z.div_lt_upper_bound; [done|].
    rewrite <- Z.pow_add_r by lia.
    pose proof (Zdigits2_bound m1 Hm1).
    assert (0 ≤ Zdigits2 m1) by (destruct m1; simpl; lia).
    pose proof (Z.pow_le_mono_r 2 (Zdigits2 m1) (shift_of m1 e1 + 53)
                  ltac:(lia) Hd). lia. }
  destruct (shr_m mrs2) as [|m2|m2]; [done| |lia].
  by destruct (_ <=? _).
Qed.

Lemma truediv_int_plain (a b : Z) (x : PyFloat.float) :
  0 ≤ a → 0 < b → PyFloat.truediv_int a b = Ok x → plain x.
Proof.
  intros Ha Hb. unfold PyFloat.truediv_int.
  destruct a as [|a|a]; [|clear Ha|lia]; destruct b as [|b|b]; try lia.
  { by intros [= <-]. }
  destruct (SFdiv_core_binary _ _ _ _ _ _) as [[mz ez] lz] eqn:Hcore.
  assert (0 ≤ mz) as Hmz.
  { unfold SFdiv_core_binary in Hcore.
    match type of Hcore with
    | (let '(q, r) := Z.div_eucl ?n ?d in _) = _ =>
      assert (0 ≤ n / d) as Hq;
      [apply Z.div_pos; [|simpl; lia]
      |unfold Z.div in Hq; destruct (Z.div_eucl n d) as [q r];
       by injection Hcore as <- _ _]
    end.
    destruct (_ - _ - _) as [|k|k]; simpl; try lia.
    apply Z.shiftl_nonneg. simpl. lia. }
  pose proof (binary_round_aux_shape false mz ez lz Hmz) as Hshape.
  simpl. destruct (binary_round_aux _ _ _ _ _ _) as [s|s| |s m e]; try done.
  - by intros [= <-].
  - destruct Hshape as [-> ?]. by intros [= <-].
Qed.

Lemma min2_plain (x y : PyFloat.float) :
  plain x → plain y → plain (PyFloat.min2 x y).
Proof. unfold PyFloat.min2. by destruct (PyFloat.ltb y x). Qed.

Lemma SFcompare_positive (m1 m2 : positive) (e1 e2 : Z) :
  SFcompare (S754_finite false m1 e1) (S754_finite false m2 e2)
  = Some match e1 ?= e2 with
         | Lt => Lt
         | Gt => Gt
         | Eq => (m1 ?= m2)%positive
         end.
Proof. reflexivity. Qed.

(** A plain float that is not [>= 1] is below 1. *)
Lemma plain_below_one (m : positive) (e : Z) :
  Z.pos m < 2 ^ 53 →
  PyFloat.geb (S754_finite false m e) PyFloat.one = false →
  e < 0 ∧ Z.pos m < 2 ^ (- e).
Proof.
  intros Hm. unfold PyFloat.geb, SFleb.
  change PyFloat.one with (S754_finite false 4503599627370496 (-52)).
  rewrite SFcompare_positive.
  destruct (Z.compare_spec (-52) e) as [<-|Hlt|Hgt]; try discriminate.
  - destruct (Pos.compare_spec 4503599627370496 m) as [|?|Hgt];
      try discriminate.
    intros _. clear Hm. apply Pos2Z.pos_lt_pos in Hgt. split; [lia|].
    change (2 ^ (- -52)) with 4503599627370496. lia.
  - intros _. split; [lia|].
    pose proof (Z.pow_le_mono_r 2 53 (- e) ltac:(lia) ltac:(lia)). lia.
Qed.

Lemma iter_xO (p d : positive) :
  Z.pos (Pos.iter xO p d) = Z.pos p * 2 ^ Z.pos d.
Proof.
  induction d as [|d IH] using Pos.peano_ind.
  - simpl. lia.
  - rewrite Pos.iter_succ, Pos2Z.inj_succ, Z.pow_succ_r by lia.
    rewrite Pos2Z.inj_xO, IH. lia.
Qed.

Lemma binary_round_aux_at_most (p : positive) (e V : Z) :
  le_float (Z.pos p) e V → 0 ≤ V < 2 ^ 53 →
  at_most V
    (binary_round_aux PyFloat.prec PyFloat.emax false (Z.pos p) e loc_Exact).
Proof.
  intros Hle HV. pose proof (binary_round_aux_le false p e V Hle HV) as H.
  unfold at_most. destruct (binary_round_aux _ _ _ _ _ _) as [s|s| |s m' e'];
    try done.
  by destruct H as [-> ?].
Qed.

(** [float(n)] is at most [n] when [n] is below [2 ^ 53]. *)
Lemma of_int_at_most (n : Z) :
  0 < n < 2 ^ 53 → ∃ f, PyFloat.of_int n = Ok f ∧ at_most n f.
Proof.
  intros Hn. destruct n as [|p|p]; try lia.
  unfold PyFloat.of_int, binary_normalize, binary_round, shl_align.
  assert (∀ mz ez, le_float (Z.pos mz) ez (Z.pos p) →
            ∃ f, match binary_round_aux PyFloat.prec PyFloat.emax false
                         (Z.pos mz) ez loc_Exact
                 with
                 | S754_infinity _ => Raise OverflowError
                 | f => Ok f
                 end = Ok f ∧ at_most (Z.pos p) f) as Hround.
  { intros mz ez Hle.
    pose proof (binary_round_aux_at_most mz ez (Z.pos p) Hle ltac:(lia)) as H.
    destruct (binary_round_aux _ _ _ _ _ _) as [s|s| |s m' e']; try done;
      by eexists. }
  destruct (fexp PyFloat.prec PyFloat.emax (Z.pos (digits2_pos p) + 0) - 0)
    as [|d|d] eqn:Hd.
  - apply Hround. clear. split; intros; [rewrite Z.pow_0_r|]; lia.
  - apply Hround. clear. split; intros; [rewrite Z.pow_0_r|]; lia.
  - apply Hround. rewrite Z.sub_0_r in Hd. rewrite Hd. split; [lia|].
    intros _. rewrite iter_xO. change (- Z.neg d) with (Z.pos d).
    apply Z.le_refl.
Qed.

Lemma le_float_mul (mx my : positive) (ex ey V : Z) :
  le_float (Z.pos mx) ex V → ey < 0 → Z.pos my < 2 ^ (- ey) →
  le_float (Z.pos (mx * my)) (ex + ey) V.
Proof.
  intros [Hpos Hneg] Hey Hmy. rewrite Pos2Z.inj_mul.
  assert (0 < 2 ^ (- ey)) as Hpy by (apply Z.pow_pos_nonneg; lia).
  split; intros He.
  - specialize (Hpos ltac:(lia)).
    assert (2 ^ ex = 2 ^ (ex + ey) * 2 ^ (- ey)) as Hsplit.
    { rewrite <- Z.pow_add_r by lia. f_equal; lia. }
    assert (0 < 2 ^ (ex + ey)) by (by apply Z.pow_pos_nonneg). nia.
  - destruct (Z.le_gt_cases 0 ex) as [Hex|Hex].
    + specialize (Hpos Hex).
      assert (2 ^ (- ey) = 2 ^ ex * 2 ^ (- (ex + ey))) as Hsplit.
      { rewrite <- Z.pow_add_r by lia. f_equal; lia. }
      assert (0 < 2 ^ ex) by (by apply Z.pow_pos_nonneg).
      assert (0 < 2 ^ (- (ex + ey))) by (apply Z.pow_pos_nonneg; lia). nia.
    + specialize (Hneg Hex).
      assert (2 ^ (- (ex + ey)) = 2 ^ (- ex) * 2 ^ (- ey)) as Hsplit.
      { rewrite <- Z.pow_add_r by lia. f_equal; lia. }
      assert (0 < 2 ^ (- ex)) by (apply Z.pow_pos_nonneg; lia). nia.
Qed.

Lemma to_int_at_most (V : Z) (x : PyFloat.float) :
  0 ≤ V → at_most V x → ∃ k, PyFloat.to_int x = Ok k ∧ 0 ≤ k ≤ V.
Proof.
  intros HV. destruct x as [s|s| |[] m e]; simpl; try done.
  { intros _. exists 0. split; [done|lia]. }
  intros [Hpos Hneg]. eexists. split; [done|].
  destruct (Z.leb_spec 0 e) as [He|He].
  - assert (0 < 2 ^ e) by (by apply Z.pow_pos_nonneg).
    specialize (Hpos He). nia.
  - specialize (Hneg He).
    assert (0 < 2 ^ (- e)) as Hp by (apply Z.pow_pos_nonneg; lia).
    split; [apply Z.div_pos; lia|].
    apply Z.div_le_upper_bound; [done|]. lia.
Qed.

(** [int(n * scale)] for a scale below 1: defined, and between 0 and
    [n]. *)
Lemma int_mul_shrinks (n : Z) (scale : PyFloat.float) :
  0 < n < 2 ^ 53 → plain scale →
  PyFloat.geb scale PyFloat.one = false →
  ∃ k, (x ← PyFloat.int_mul n scale; PyFloat.to_int x) = Ok k ∧
       0 ≤ k ≤ n.
Proof.
  intros Hn Hplain Hlt.
  destruct (of_int_at_most n Hn) as (f&Hf&Hle).
  unfold PyFloat.int_mul. rewrite Hf. simpl.
  apply to_int_at_most; [lia|]. unfold PyFloat.mul.
  destruct f as [sf|sf| |[] mx ex]; try done;
    destruct scale as [ss|ss| |[] my ey]; try done.
  simpl in Hplain, Hle.
  destruct (plain_below_one my ey Hplain Hlt) as [Hey Hmy].
  unfold SFmul. simpl xorb.
  apply binary_round_aux_at_most; [|lia]. by apply le_float_mul.
Qed.

(** The scale of the fit mode is plain when the sizes are. *)
Lemma fit_scale_plain (orig target : Z * Z) (scale : PyFloat.float) :
  0 < orig.1 → 0 < orig.2 → 0 ≤ target.1 → 0 ≤ target.2 →
  fit_scale orig target = Ok scale → plain scale.
Proof.
  intros Hw Hh Htw Hth Hscale. unfold fit_scale in Hscale.
  apply bind_Ok in Hscale as (sw&Hsw&Hscale).
  apply bind_Ok in Hscale as (sh&Hsh&[= <-]).
  apply min2_plain; eauto using truediv_int_plain.
Qed.

(** The inner size of the fit mode is there, and within the source
    size, for sources below [2 ^ 53] pixels a side. *)
Lemma fit_inner_size_shrinks (orig : Z * Z) (scale : PyFloat.float) :
  0 < orig.1 < 2 ^ 53 → 0 < orig.2 < 2 ^ 53 → plain scale →
  ∃ new_size, fit_inner_size orig scale = Ok new_size ∧
              0 ≤ new_size.1 ≤ orig.1 ∧ 0 ≤ new_size.2 ≤ orig.2.
Proof.
  intros Hw Hh Hplain. unfold fit_inner_size.
  destruct (PyFloat.geb scale PyFloat.one) eqn:Hge.
  - exists orig. split; [done|lia].
  - destruct (int_mul_shrinks orig.1 scale Hw Hplain Hge) as (new_w&->&?).
    destruct (int_mul_shrinks orig.2 scale Hh Hplain Hge) as (new_h&->&?).
    by exists (new_w, new_h).
Qed.

End Floats.

(** ** The reference backend meets the laws *)

#[export] Instance pillow_laws : ImagingLaws Pillow.backend.
Proof.
  split; simpl.
  - intros im s r. unfold Pillow.resize. case_bool_decide as Hs.
    + intros [= <-]. done.
    + destruct (Pillow.empty_size s); [done|]. by intros [= <-].
  - intros im [w h] [Hw Hh]. simpl in *. unfold Pillow.resize.
    case_bool_decide; [by eexists|].
    unfold Pillow.empty_size. simpl.
    destruct (Z.ltb_spec w 1), (Z.ltb_spec h 1); try lia. by eexists.
  - intros im s r. unfold Pillow.fit.
    destruct (Pillow.empty_size s); [done|]. by intros [= <-].
  - intros im [w h] [Hw Hh]. simpl in *. unfold Pillow.fit, Pillow.empty_size.
    simpl. destruct (Z.ltb_spec w 1), (Z.ltb_spec h 1); try lia. by eexists.
  - intros m s c r. unfold Pillow.new.
    destruct (_ || _); [done|]. by intros [= <-].
  - intros m [w h] c [Hw Hh]. simpl in *. unfold Pillow.new. simpl.
    destruct (Z.ltb_spec w 0), (Z.ltb_spec h 0); try lia. by eexists.
  - done.
  - intros im r. unfold Pillow.rotate. simpl. by intros [= <-].
  - intros im r. unfold Pillow.rotate. simpl. by intros [= <-].
  - intros im r. unfold Pillow.rotate. simpl. by intros [= <-].
Qed.


(** ** Orientation *)

Section Orientation.

Context {B : Imaging}.

Lemma exif_rotation_tag (img : image) :
  exif_rotation img =
    match Spec.orientation_rotation (orientation_tag img) with
    | Some (angle, _) =>
      match Image_getexif img with
      | Raise e => Raise e
      | Ok _ => Image_rotate img angle
      end
    | None =>
      match Image_getexif img with
      | Raise e => Raise e
      | Ok _ => Ok img
      end
    end.
Proof.
  unfold exif_rotation, orientation_tag, Spec.orientation_rotation.
  destruct (Image_getexif img) as [[tags|]|e]; simpl; try done.
  destruct (decide (tags = ∅)) as [->|Hne].
  - rewrite lookup_empty. done.
  - repeat case_decide; done.
Qed.

(** The result is the image given or a rotation of it that the
    backend returned. *)
Lemma apply_exif_orientation_cases (img : image) :
  apply_exif_orientation img = img ∨
  ∃ angle, Image_rotate img angle = Ok (apply_exif_orientation img).
Proof.
  unfold apply_exif_orientation. rewrite exif_rotation_tag.
  destruct (Spec.orientation_rotation _) as [[angle sw]|];
    destruct (Image_getexif img) as [o|e]; auto.
  destruct (Image_rotate img angle) eqn:Hr; eauto.
Qed.

(** C6. Normalisation always answers an image: the one given, or a
    rotation of it the backend returned.  When reading the metadata
    raises, or the rotation raises, it answers the image given; so
    it does when the tag is absent or 1. *)
Theorem apply_exif_orientation_safe (img : image) :
  (apply_exif_orientation img = img ∨
   ∃ angle, Image_rotate img angle = Ok (apply_exif_orientation img)) ∧
  (∀ e, Image_getexif img = Raise e → apply_exif_orientation img = img) ∧
  (∀ angle swapped e,
     Spec.orientation_rotation (orientation_tag img) = Some (angle, swapped) →
     Image_rotate img angle = Raise e →
     apply_exif_orientation img = img) ∧
  (orientation_tag img = None ∨ orientation_tag img = Some 1 →
   apply_exif_orientation img = img).
Proof.
  split; [apply apply_exif_orientation_cases|].
  unfold apply_exif_orientation. rewrite exif_rotation_tag.
  repeat split.
  - intros e He. rewrite He. by destruct (Spec.orientation_rotation _) as [[]|].
  - intros angle swapped e Htag Hrot. rewrite Htag, Hrot.
    by destruct (Image_getexif img).
  - intros [Htag|Htag]; rewrite Htag; simpl;
      by destruct (Image_getexif img).
Qed.

Context {L : ImagingLaws B}.

(** C4. Tag 3 gives the image rotated by 180 with its size kept, tag
    6 the image rotated by 270 and tag 8 the image rotated by 90,
    both with width and height swapped; any other tag, and metadata
    that is absent, gives the image itself. *)
Theorem apply_exif_orientation_tag (img : image) :
  match Spec.orientation_rotation (orientation_tag img) with
  | Some (angle, swapped) =>
    ∀ r, Image_rotate img angle = Ok r →
      apply_exif_orientation img = r ∧
      img_size r =
        (if swapped then swap_size (img_size img) else img_size img)
  | None => apply_exif_orientation img = img
  end.
Proof.
  unfold apply_exif_orientation. rewrite exif_rotation_tag.
  unfold Spec.orientation_rotation, orientation_tag.
  destruct (Image_getexif img) as [[tags|]|e]; simpl; try done.
  repeat case_decide; try done; intros r Hr; rewrite Hr; split; try done.
  - by apply rotate_180_size.
  - by apply rotate_270_size.
  - by apply rotate_90_size.
Qed.

End Orientation.

(** C6 at work: unreadable metadata, a rotation that fails, tag 1. *)
Lemma apply_exif_orientation_safe_witness :
  apply_exif_orientation (B := Pillow.backend)
    (Pillow.decoded "scan.png" 30 20 "RGB" (Raise AttributeError))
  = Pillow.decoded "scan.png" 30 20 "RGB" (Raise AttributeError)
  ∧ apply_exif_orientation (B := Failing.backend) {[274 := 6]} = {[274 := 6]}
  ∧ apply_exif_orientation (B := Pillow.backend)
      (Pillow.decoded "up.jpg" 30 20 "RGB" (Ok (Some {[274 := 1]})))
    = Pillow.decoded "up.jpg" 30 20 "RGB" (Ok (Some {[274 := 1]})).
Proof.
  split; [|split].
  - exact (proj1 (proj2 (apply_exif_orientation_safe
             (B := Pillow.backend)
             (Pillow.decoded "scan.png" 30 20 "RGB" (Raise AttributeError))))
             AttributeError eq_refl).
  - exact (proj1 (proj2 (proj2 (apply_exif_orientation_safe
             (B := Failing.backend) {[274 := 6]})))
             270 true BackendError eq_refl eq_refl).
  - exact (proj2 (proj2 (proj2 (apply_exif_orientation_safe
             (B := Pillow.backend)
             (Pillow.decoded "up.jpg" 30 20 "RGB" (Ok (Some {[274 := 1]}))))))
             (or_intror eq_refl)).
Defined.

(** C4 at work: a 30 x 20 file tagged 6 comes out 20 x 30. *)
Lemma apply_exif_orientation_tag_witness :
  apply_exif_orientation (B := Pillow.backend)
    (Pillow.decoded "photo.jpg" 30 20 "RGB" (Ok (Some {[274 := 6]})))
  = Pillow.derived (20, 30) "RGB"
      (Pillow.Rotated (Pillow.Decoded "photo.jpg") 270)
  ∧ Pillow.size
      (Pillow.derived (20, 30) "RGB"
         (Pillow.Rotated (Pillow.Decoded "photo.jpg") 270)) = (20, 30).
Proof.
  exact (apply_exif_orientation_tag (L := pillow_laws)
           (Pillow.decoded "photo.jpg" 30 20 "RGB" (Ok (Some {[274 := 6]})))
           _ eq_refl).
Defined.

(** ** The recent-files list *)

Section Recent.

Implicit Types (l : list string) (x : string).

Lemma list_remove_absent x l : x ∉ l → list_remove x l = l.
Proof.
  induction l as [|y l IH]; [done|]. intros Hx. simpl.
  apply not_elem_of_cons in Hx as [Hxy Hl].
  case_decide; [done|]. by rewrite IH.
Qed.

Lemma filter_absent x l : x ∉ l → filter (λ y, y ≠ x) l = l.
Proof.
  induction l as [|y l IH]; [done|]. intros Hx.
  apply not_elem_of_cons in Hx as [Hxy Hl].
  rewrite filter_cons_True by done. by rewrite IH.
Qed.

Lemma list_remove_NoDup x l :
  NoDup l → list_remove x l = filter (λ y, y ≠ x) l.
Proof.
  induction 1 as [|y l Hy Hl IH]; [done|]. simpl.
  rewrite filter_cons. case_decide as Hxy.
  - subst y. rewrite decide_False by (by intros []).
    by rewrite filter_absent.
  - rewrite decide_True by done. by rewrite IH.
Qed.

Lemma take_list_remove x l n :
  take n (list_remove x (take (S n) l)) = take n (list_remove x l).
Proof.
  revert n. induction l as [|y l IH]; intros n; [done|]. simpl.
  case_decide.
  - rewrite take_take. by rewrite Nat.min_id.
  - destruct n as [|n]; [done|]. simpl. by rewrite IH.
Qed.

Lemma first_occurrences_NoDup l : NoDup (Spec.first_occurrences l).
Proof.
  induction l as [|x l IH]; simpl; [constructor|].
  apply NoDup_cons. split.
  - rewrite list_elem_of_filter. by intros [].
  - by apply NoDup_filter.
Qed.

(** The guarded removal is the removal. *)
Lemma add_recent_file_eq stored x :
  add_recent_file stored x =
    Some (take MAX_RECENT (x :: list_remove x (default [] stored))).
Proof.
  unfold add_recent_file. case_bool_decide as Hin; [done|].
  by rewrite list_remove_absent.
Qed.

Lemma recent_after_spec opened :
  default [] (recent_after opened) = Spec.recent_list opened.
Proof.
  unfold recent_after, Spec.recent_list.
  induction opened as [|x opened IH] using rev_ind; [done|].
  rewrite foldl_snoc, reverse_snoc, add_recent_file_eq. simpl.
  rewrite IH. f_equal.
  change 5%nat with (S 4) at 1. rewrite take_list_remove.
  by rewrite list_remove_NoDup by apply first_occurrences_NoDup.
Qed.

(** C8. Whatever was opened before, the list written back after
    inserting [filepath] has at most 5 paths and no path twice, starts
    with [filepath], and lists the paths most recent first. *)
Theorem add_recent_file_invariant (opened : list string) (filepath : string) :
  ∃ l, add_recent_file (recent_after opened) filepath = Some l ∧
       (length l ≤ 5)%nat ∧
       NoDup l ∧
       head l = Some filepath ∧
       l = Spec.recent_list (opened ++ [filepath]).
Proof.
  exists (Spec.recent_list (opened ++ [filepath])). split.
  { rewrite <- recent_after_spec. unfold recent_after. rewrite foldl_snoc.
    by rewrite add_recent_file_eq. }
  unfold Spec.recent_list. rewrite reverse_snoc.
  repeat split.
  - rewrite length_take. lia.
  - eapply sublist_NoDup; [|apply sublist_take].
    apply (first_occurrences_NoDup (filepath :: reverse opened)).
Qed.

End Recent.

(** ** Resizing *)

Section Resize.

Context {B : Imaging} {P : Pathlib}.
Variable int_of_str : string → option Z.

Lemma mode_eqb_false (m k : string) : m ≠ k → String.eqb m k = false.
Proof. intros Hne. by apply String.eqb_neq. Qed.

(** C9. Without a loaded image [process_image] answers [None], and so
    it does for a mode that is none of stretch, cut and fit; on
    [None] [update_preview] leaves everything as it was. *)
Theorem process_image_none (st : app) (w h : Z) :
  (original_image st = None → process_image st w h = Ok None) ∧
  (resize_mode st ∉ ["stretch"; "cut"; "fit"] →
   process_image st w h = Ok None) ∧
  (get_dimensions int_of_str st = Some (w, h) →
   process_image st w h = Ok None →
   update_preview int_of_str st = st).
Proof.
  repeat split.
  - unfold process_image. by intros ->.
  - intros Hmode. unfold process_image. destruct (original_image st); [|done].
    rewrite !mode_eqb_false; [done|..]; intros Heq; apply Hmode;
      rewrite Heq; repeat constructor.
  - intros Hdim Hnone. unfold update_preview. rewrite Hdim, Hnone.
    by destruct (original_image st).
Qed.

(** C10. A height of 0 makes the ratio 1.0; a height of at least 1
    takes the division, which then has a non-zero divisor; in no case
    does the computation raise [ZeroDivisionError]. *)
Theorem load_aspect_ratio_guard (w : Z) :
  load_aspect_ratio w 0 = Ok PyFloat.one ∧
  (∀ h, 1 ≤ h → load_aspect_ratio w h = PyFloat.truediv_int w h) ∧
  (∀ h, load_aspect_ratio w h ≠ Raise ZeroDivisionError).
Proof.
  unfold load_aspect_ratio. repeat split.
  - intros h Hh. by rewrite (proj2 (Z.eqb_neq h 0)) by lia.
  - intros h. destruct (Z.eqb_spec h 0) as [->|Hh]; [done|].
    unfold PyFloat.truediv_int.
    destruct w, h; try done;
      destruct (SFdiv_core_binary _ _ _ _ _ _) as [[mz ez] lz];
      by destruct (binary_round_aux _ _ _ _ _ _).
Qed.

Lemma center_offset_balanced (outer inner : Z * Z) :
  balanced outer inner (center_offset outer inner).
Proof.
  unfold balanced, center_offset. simpl.
  pose proof (Z.div_mod (outer.1 - inner.1) 2).
  pose proof (Z.mod_pos_bound (outer.1 - inner.1) 2).
  pose proof (Z.div_mod (outer.2 - inner.2) 2).
  pose proof (Z.mod_pos_bound (outer.2 - inner.2) 2).
  lia.
Qed.

Context {L : ImagingLaws B}.

Lemma fit_background_size (img bg : image) (target : Z * Z) :
  fit_background img target = Ok bg → img_size bg = target.
Proof. unfold fit_background. case_bool_decide; apply new_size. Qed.

Lemma fit_background_defined (img : image) (target : Z * Z) :
  nonempty_size target → ∃ bg, fit_background img target = Ok bg.
Proof. unfold fit_background. case_bool_decide; apply new_defined. Qed.

(** What [process_fit] went through when it answers [out]. *)
Lemma process_fit_inv (img out : image) (target : Z * Z) :
  process_fit img target = Ok out →
  ∃ scale new_size resized bg,
    fit_scale (img_size img) target = Ok scale ∧
    fit_inner_size (img_size img) scale = Ok new_size ∧
    Image_resize img new_size = Ok resized ∧
    img_size resized = new_size ∧
    fit_background img target = Ok bg ∧
    img_size bg = target ∧
    out = Image_paste bg resized (center_offset target new_size).
Proof.
  unfold process_fit. intros H.
  apply bind_Ok in H as (scale&Hs&H).
  apply bind_Ok in H as (new_size&Hn&H).
  apply bind_Ok in H as (resized&Hr&H).
  apply bind_Ok in H as (bg&Hb&H).
  injection H as <-. exists scale, new_size, resized, bg.
  repeat split; try done.
  - by eapply resize_size.
  - by eapply fit_background_size.
Qed.

Lemma process_fit_defined (img : image) (target new_size : Z * Z) scale :
  nonempty_size target →
  fit_scale (img_size img) target = Ok scale →
  fit_inner_size (img_size img) scale = Ok new_size →
  nonempty_size new_size →
  ∃ out, process_fit img target = Ok out.
Proof.
  intros Ht Hs Hn Hne. unfold process_fit. rewrite Hs. simpl. rewrite Hn. simpl.
  destruct (resize_defined img new_size Hne) as [r ->]. simpl.
  destruct (fit_background_defined img target Ht) as [bg ->]. simpl.
  by eexists.
Qed.

(** C3. Every image [process_image] answers in one of the three modes
    has exactly the target size.  It answers one in the stretch and
    cut modes, and in the fit mode whenever the inner size it asks the
    backend for is not empty; when the backend refuses the inner size,
    the fit mode raises what the backend raised and answers no
    image. *)
Theorem process_image_size (st : app) (img : image) (target_w target_h : Z) :
  original_image st = Some img →
  1 ≤ target_w → 1 ≤ target_h →
  resize_mode st ∈ ["fit"; "cut"; "stretch"] →
  (∀ out, process_image st target_w target_h = Ok (Some out) →
          img_size out = (target_w, target_h)) ∧
  (resize_mode st ≠ "fit" →
   ∃ out, process_image st target_w target_h = Ok (Some out)) ∧
  (∀ scale new_size,
     fit_scale (img_size img) (target_w, target_h) = Ok scale →
     fit_inner_size (img_size img) scale = Ok new_size →
     nonempty_size new_size →
     ∃ out, process_image st target_w target_h = Ok (Some out)) ∧
  (resize_mode st = "fit" →
   ∀ scale new_size e,
     fit_scale (img_size img) (target_w, target_h) = Ok scale →
     fit_inner_size (img_size img) scale = Ok new_size →
     Image_resize img new_size = Raise e →
     process_image st target_w target_h = Raise e).
Proof.
  intros Himg Hw Hh Hmode. unfold process_image. rewrite Himg.
  assert (nonempty_size (target_w, target_h)) as Ht by (split; simpl; lia).
  destruct (resize_defined img _ Ht) as [rs Hrs].
  destruct (fit_defined img _ Ht) as [rc Hrc].
  repeat split.
  - intros out.
    destruct (String.eqb_spec (resize_mode st) "stretch") as [_|_].
    { destruct (Image_resize _ _) eqn:Hr; [|done]. intros [= <-].
      by eapply resize_size. }
    destruct (String.eqb_spec (resize_mode st) "cut") as [_|_].
    { destruct (ImageOps_fit _ _) eqn:Hr; [|done]. intros [= <-].
      by eapply fit_size. }
    destruct (String.eqb_spec (resize_mode st) "fit") as [_|_]; [|done].
    destruct (process_fit _ _) eqn:Hf; [|done]. intros [= <-].
    apply process_fit_inv in Hf as (?&?&?&bg&?&?&?&?&?&Hbg&->).
    by rewrite paste_size.
  - intros Hfit.
    destruct (String.eqb_spec (resize_mode st) "stretch") as [_|Hs].
    { rewrite Hrs. by eexists. }
    destruct (String.eqb_spec (resize_mode st) "cut") as [_|Hc].
    { rewrite Hrc. by eexists. }
    by destruct Hfit; repeat (apply elem_of_cons in Hmode as [?|Hmode]);
      [..|apply elem_of_nil in Hmode].
  - intros scale new_size Hscale Hinner Hne.
    destruct (String.eqb_spec (resize_mode st) "stretch") as [_|Hs].
    { rewrite Hrs. by eexists. }
    destruct (String.eqb_spec (resize_mode st) "cut") as [_|Hc].
    { rewrite Hrc. by eexists. }
    destruct (String.eqb_spec (resize_mode st) "fit") as [_|Hf].
    2: { by repeat (apply elem_of_cons in Hmode as [?|Hmode]);
           [..|apply elem_of_nil in Hmode]. }
    destruct (process_fit_defined img _ _ _ Ht Hscale Hinner Hne) as [o ->].
    by eexists.
  - intros Hfit scale new_size e Hscale Hinner Hr. rewrite Hfit. simpl.
    unfold process_fit. rewrite Hscale. simpl. rewrite Hinner. simpl.
    by rewrite Hr.
Qed.


(** C1 (amended). In the fit mode with a scale below 1, the inner
    size is the two products cut toward zero, not rounded to nearest;
    the image pasted on the canvas is the source resampled to that
    size.  That size is there for every source below [2 ^ 53] pixels a
    side. *)
Theorem fit_inner_size_truncates (img : image) (target : Z * Z)
    (scale : PyFloat.float) :
  fit_scale (img_size img) target = Ok scale →
  PyFloat.ltb scale PyFloat.one = true →
  (0 < (img_size img).1 < 2 ^ 53 → 0 < (img_size img).2 < 2 ^ 53 →
   nonempty_size target →
   ∃ new_size, fit_inner_size (img_size img) scale = Ok new_size) ∧
  (∀ new_size,
     fit_inner_size (img_size img) scale = Ok new_size →
     (∃ x y,
        PyFloat.int_mul (img_size img).1 scale = Ok x ∧
        PyFloat.to_int x = Ok new_size.1 ∧ truncation_of x new_size.1 ∧
        PyFloat.int_mul (img_size img).2 scale = Ok y ∧
        PyFloat.to_int y = Ok new_size.2 ∧ truncation_of y new_size.2) ∧
     (∀ out, process_fit img target = Ok out →
        ∃ resized bg,
          Image_resize img new_size = Ok resized ∧
          img_size resized = new_size ∧
          out = Image_paste bg resized (center_offset target new_size))).
Proof.
  intros Hscale Hlt. split.
  { intros Hw Hh [Htw Hth].
    destruct (fit_inner_size_shrinks (img_size img) scale Hw Hh)
      as (new_size&Hinner&_); [|by exists new_size].
    apply (fit_scale_plain (img_size img) target); try done; lia. }
  intros new_size Hinner. split.
  - unfold fit_inner_size in Hinner. rewrite (ltb_not_geb _ _ Hlt) in Hinner.
    apply bind_Ok in Hinner as (new_w&Hw&Hinner).
    apply bind_Ok in Hinner as (new_h&Hh&[= <-]).
    apply bind_Ok in Hw as (x&Hx&Hxi). apply bind_Ok in Hh as (y&Hy&Hyi).
    exists x, y. simpl. eauto 10 using to_int_truncation.
  - intros out Hout.
    apply process_fit_inv in Hout
      as (scale'&new_size'&resized&bg&Hs&Hn&Hr&Hrs&_&_&->).
    rewrite Hscale in Hs. injection Hs as <-.
    rewrite Hinner in Hn. injection Hn as <-. eauto.
Qed.


Lemma update_preview_keeps (st : app) :
  original_image (update_preview int_of_str st) = original_image st ∧
  aspect_ratio (update_preview int_of_str st) = aspect_ratio st ∧
  orig_width (update_preview int_of_str st) = orig_width st ∧
  orig_height (update_preview int_of_str st) = orig_height st.
Proof.
  unfold update_preview, draw_preview.
  destruct (original_image st) eqn:Ho; [|done].
  destruct (get_dimensions _ _) as [[w h]|]; [|by rewrite Ho].
  destruct (process_image _ _ _) as [[processed|]|]; simpl; try by rewrite Ho.
  destruct (_ || _); simpl; [done|].
  destruct (viewport_fit _ _) as [[[sc pv] og]|]; simpl; [|done].
  by destruct (display_image _ _ _).
Qed.

(** A load that went through leaves the image, after orientation, and
    the ratio of its width to its height. *)
Lemma load_image_ratio (st : app) (path : string) (img : image) :
  let st' := load_image int_of_str st (Some path) (Ok img) in
  let loaded := if preserve_exif st then apply_exif_orientation img else img in
  status st' = Caricato path →
  original_image st' = Some loaded ∧
  (orig_width st', orig_height st') = img_size loaded ∧
  load_aspect_ratio (img_size loaded).1 (img_size loaded).2
    = Ok (aspect_ratio st').
Proof.
  intros st' loaded. subst st'. unfold load_image. fold loaded.
  destruct (img_size loaded) as [width height]. simpl.
  destruct (load_aspect_ratio width height) as [ratio|e]; [|done].
  intros _.
  match goal with
  | |- context [update_preview int_of_str ?s] =>
    destruct (update_preview_keeps s) as (Ho&Ha&Hw&Hh)
  end.
  unfold set_status. simpl. by rewrite Ho, Ha, Hw, Hh.
Qed.

(** C7 (amended). With the lock on, a changed width rewrites the
    height entry to [w / ratio] cut toward zero, and a changed height
    rewrites the width entry to [h * ratio] cut toward zero; nothing
    is rounded to nearest.  The ratio is the one the load computed
    from the width and height of the loaded image. *)
Theorem on_dim_change_locked (st : app) (img : image) :
  original_image st = Some img →
  aspect_locked st = true →
  (∀ w new_h,
     int_of_str (entry_width st) = Some w →
     locked_height w (aspect_ratio st) = Ok new_h →
     on_dim_change int_of_str st "width"
       = Ok (set_preview_job (Some 100)
               (set_entry_height (str_int new_h) st)) ∧
     ∃ x, PyFloat.int_div w (aspect_ratio st) = Ok x ∧
          truncation_of x new_h) ∧
  (∀ h new_w,
     int_of_str (entry_height st) = Some h →
     locked_width h (aspect_ratio st) = Ok new_w →
     on_dim_change int_of_str st "height"
       = Ok (set_preview_job (Some 100)
               (set_entry_width (str_int new_w) st)) ∧
     ∃ x, PyFloat.int_mul h (aspect_ratio st) = Ok x ∧
          truncation_of x new_w) ∧
  (∀ st0 path opened,
     st = load_image int_of_str st0 (Some path) (Ok opened) →
     status st = Caricato path →
     1 ≤ (img_size img).2 →
     PyFloat.truediv_int (img_size img).1 (img_size img).2
       = Ok (aspect_ratio st)).
Proof.
  intros Himg Hlock. repeat split.
  - unfold on_dim_change, recompute_locked. rewrite Himg, Hlock. simpl.
    rewrite H, H0. done.
  - unfold locked_height in H0. apply bind_Ok in H0 as (x&Hx&Hxi).
    eauto using to_int_truncation.
  - unfold on_dim_change, recompute_locked. rewrite Himg, Hlock. simpl.
    rewrite H, H0. done.
  - unfold locked_width in H0. apply bind_Ok in H0 as (x&Hx&Hxi).
    eauto using to_int_truncation.
  - intros st0 path opened -> Hstatus Hh.
    destruct (load_image_ratio st0 path opened Hstatus) as (Ho&_&Hr).
    rewrite Himg in Ho. injection Ho as Ho. rewrite <- Ho in Hr.
    rewrite <- Hr. unfold load_aspect_ratio.
    by rewrite (proj2 (Z.eqb_neq _ 0)) by lia.
Qed.

End Resize.

(** ** The properties at sample inputs *)

Section Samples.

#[local] Existing Instance Pillow.backend.
#[local] Existing Instance Posix.pathlib.

(** The sample floats are the numbers they are named after, up to the
    last bit for one tenth. *)
Lemma sample_floats :
  (PyFloat.to_Q Examples.quarter == 1 # 4)%Q ∧
  (PyFloat.to_Q Examples.seven_quarters == 7 # 4)%Q ∧
  (PyFloat.to_Q Examples.five_halves == 5 # 2)%Q ∧
  PyFloat.truediv_int 1 10 = Ok Examples.tenth ∧
  PyFloat.truediv_int 7 4 = Ok Examples.seven_quarters.
Proof. repeat split; vm_compute; reflexivity. Qed.

(** C1 as stated fails: an 8 x 7 source fitted into 2 x 100 has scale
  0.25 and inner size 2 x 1, where rounding 1.75 would give 2 x 2. *)
Lemma fit_inner_size_rounds_counterexample :
fit_scale (8, 7) (2, 100) = Ok Examples.quarter ∧
PyFloat.ltb Examples.quarter PyFloat.one = true ∧
fit_inner_size (8, 7) Examples.quarter = Ok (2, 1) ∧
Spec.fit_inner_size (8, 7) Examples.quarter = Ok (2, 2) ∧
process_image Examples.fitting 2 100
  = Ok (Some (Pillow.derived (2, 100) "RGB"
                (Pillow.Pasted (Pillow.Blank [255; 255; 255])
                   (Pillow.Resampled (Pillow.Decoded "wide.png") (2, 1))
                   (0, 49)))).
Proof. repeat split; vm_compute; reflexivity. Qed.

Lemma fit_inner_size_truncates_witness :
  (∃ new_size, fit_inner_size (8, 7) Examples.quarter = Ok new_size) ∧
  (∃ x y,
     PyFloat.int_mul 8 Examples.quarter = Ok x ∧
     PyFloat.to_int x = Ok 2 ∧ truncation_of x 2 ∧
     PyFloat.int_mul 7 Examples.quarter = Ok y ∧
     PyFloat.to_int y = Ok 1 ∧ truncation_of y 1) ∧
  (∀ out, process_fit Examples.wide (2, 100) = Ok out →
     ∃ resized bg,
       Image_resize Examples.wide (2, 1) = Ok resized ∧
       img_size resized = (2, 1) ∧
       out = Image_paste bg resized (center_offset (2, 100) (2, 1))).
Proof.
  destruct (fit_inner_size_truncates (L := pillow_laws)
              Examples.wide (2, 100) Examples.quarter eq_refl eq_refl)
    as [Hthere Hsize].
  split.
  - apply Hthere; vm_compute; repeat split; congruence.
  - apply (Hsize (2, 1)); vm_compute; reflexivity.
Defined.


Lemma process_image_size_witness :
∃ out, process_image Examples.fitting 2 100 = Ok (Some out) ∧
       img_size out = (2, 100).
Proof.
destruct (process_image_size (L := pillow_laws)
            Examples.fitting Examples.wide 2 100
            eq_refl ltac:(lia) ltac:(lia) (list_elem_of_here _ _))
  as (Hsize&_&Hfit&_).
destruct (Hfit Examples.quarter (2, 1) eq_refl eq_refl
            ltac:(split; simpl; lia)) as [out Hout].
exists out. split; [exact Hout|apply Hsize, Hout].
Defined.

(** C3 as stated fails in the fit mode: a 1000 x 1 strip asked for at
    100 x 100 has scale 0.1 and inner size 100 x 0, and a 49 x 49
    square asked for at 1 x 1 has inner size 0 x 0, since 49 times the
    float 1/49 is below 1.  The reference backend, as Pillow, refuses
    to resample to an empty size, and no image is returned. *)
Lemma process_image_size_counterexample :
  original_image Examples.strip_fitting = Some Examples.strip ∧
  img_size Examples.strip = (1000, 1) ∧
  resize_mode Examples.strip_fitting = "fit" ∧
  fit_scale (1000, 1) (100, 100) = Ok Examples.tenth ∧
  fit_inner_size (1000, 1) Examples.tenth = Ok (100, 0) ∧
  Image_resize Examples.strip (100, 0) = Raise ValueError ∧
  process_image Examples.strip_fitting 100 100 = Raise ValueError ∧
  original_image Examples.square_fitting = Some Examples.square ∧
  img_size Examples.square = (49, 49) ∧
  resize_mode Examples.square_fitting = "fit" ∧
  fit_scale (49, 49) (1, 1) = Ok Examples.forty_ninth ∧
  fit_inner_size (49, 49) Examples.forty_ninth = Ok (0, 0) ∧
  process_image Examples.square_fitting 1 1 = Raise ValueError.
Proof. repeat split; vm_compute; reflexivity. Qed.

(** [str(Path(p))] on POSIX: a leading ["./"], doubled and trailing
    slashes go; [".."] stays. *)
Lemma Posix_str_samples :
  Posix.str <$> ["./landscape.png"; "a//photo.png"; "/a/photo.png";
                 "//a/b/"; "///a"; "a/../b"; "./"]
  = ["landscape.png"; "a/photo.png"; "/a/photo.png"; "//a/b"; "/a";
     "a/../b"; "."].
Proof. vm_compute; reflexivity. Qed.


Lemma process_image_none_witness :
process_image Examples.started 800 600 = Ok None ∧
process_image Examples.zooming 2 100 = Ok None ∧
update_preview Examples.int_of_str Examples.zooming = Examples.zooming.
Proof.
split; [|split].
- apply (proj1 (process_image_none Examples.int_of_str
                  Examples.started 800 600)).
  reflexivity.
- apply (proj1 (proj2 (process_image_none Examples.int_of_str
                         Examples.zooming 2 100))).
  vm_compute. intros H.
    repeat (inversion H as [|? ? ? H']; clear H; rename H' into H).
- apply (proj2 (proj2 (process_image_none Examples.int_of_str
                         Examples.zooming 2 100)));
    vm_compute; reflexivity.
Defined.

Lemma load_aspect_ratio_guard_witness :
load_aspect_ratio 7 4 = PyFloat.truediv_int 7 4.
Proof.
apply (proj1 (proj2 (load_aspect_ratio_guard 7))). lia.
Defined.

(** C7 as stated fails: with a 7 x 4 image loaded the ratio is 1.75; a
  width of 3 makes the height 1 where rounding 1.714... would give 2,
  and a height of 1 makes the width 1 where rounding 1.75 would give
  2. *)
Lemma on_dim_change_rounds_counterexample :
aspect_ratio Examples.loaded = Examples.seven_quarters ∧
entry_height <$> on_dim_change Examples.int_of_str Examples.width_typed "width"
  = Ok "1" ∧
str_int <$> Spec.locked_height 3 Examples.seven_quarters = Ok "2" ∧
entry_width <$> on_dim_change Examples.int_of_str Examples.height_typed "height"
  = Ok "1" ∧
str_int <$> Spec.locked_width 1 Examples.seven_quarters = Ok "2".
Proof. repeat split; vm_compute; reflexivity. Qed.

Lemma on_dim_change_locked_witness :
(on_dim_change Examples.int_of_str Examples.loaded "width"
   = Ok (set_preview_job (Some 100)
           (set_entry_height (str_int 4) Examples.loaded)) ∧
 ∃ x, PyFloat.int_div 7 (aspect_ratio Examples.loaded) = Ok x ∧
      truncation_of x 4) ∧
PyFloat.truediv_int 7 4 = Ok (aspect_ratio Examples.loaded).
Proof.
destruct (on_dim_change_locked Examples.int_of_str Examples.loaded
            Examples.landscape eq_refl eq_refl) as (Hwidth&_&Hratio).
split.
- apply (Hwidth 7 4); vm_compute; reflexivity.
- apply (Hratio Examples.started "landscape.png" Examples.landscape).
  + reflexivity.
  + vm_compute; reflexivity.
  + simpl. lia.
Defined.

End Samples.

(** * Further properties *)

(** ** Floats: integers that are kept *)

Section FloatsExact.

Lemma eq_float_le (m e V : Z) : eq_float m e V → le_float m e V.
Proof. intros [Hp Hn]. split; intros He; [rewrite Hp|rewrite Hn]; lia. Qed.

Lemma eq_float_shift (m e n V : Z) :
  eq_float m e V → 0 ≤ n → (0 < n → e + n ≤ 0) →
  eq_float (m / 2 ^ n) (e + n) V ∧ m mod 2 ^ n = 0.
Proof.
  intros [Hpos Hneg] Hn Hle.
  destruct (Z.eq_dec n 0) as [->|Hn0].
  { rewrite Z.pow_0_r, Z.div_1_r, Z.mod_1_r, Z.add_0_r. done. }
  specialize (Hle ltac:(lia)). specialize (Hneg ltac:(lia)).
  assert (2 ^ (- e) = 2 ^ (- (e + n)) * 2 ^ n) as Hsplit.
  { rewrite <- Z.pow_add_r by lia. f_equal; lia. }
  assert (0 < 2 ^ n) as Hpn by (apply Z.pow_pos_nonneg; lia).
  rewrite Hsplit, Z.mul_assoc in Hneg. rewrite Hneg.
  rewrite Z.div_mul, Z.mod_mul by lia. split; [|done].
  split; intros He.
  - assert (e + n = 0) as -> by lia. simpl. lia.
  - done.
Qed.

Lemma shift_of_le_float (p : positive) (e V : Z) :
  le_float (Z.pos p) e V → 0 ≤ V < 2 ^ 53 →
  0 ≤ shift_of (Z.pos p) e ∧
  (0 < shift_of (Z.pos p) e → e + shift_of (Z.pos p) e ≤ 0).
Proof.
  intros Hle HV. pose proof (digits_le_float p e V Hle HV) as Hdig.
  unfold shift_of. simpl Zdigits2.
  unfold fexp, emin, PyFloat.prec, PyFloat.emax in *. lia.
Qed.

Lemma eq_float_pos (m e V : Z) : eq_float m e V → 0 < V → 0 < m.
Proof.
  intros [Hpos Hneg] HV. destruct (Z.le_gt_cases 0 e) as [He|He].
  - specialize (Hpos He). assert (0 < 2 ^ e) by (by apply Z.pow_pos_nonneg).
    nia.
  - specialize (Hneg He).
    assert (0 < 2 ^ (- e)) by (apply Z.pow_pos_nonneg; lia). nia.
Qed.

(** Rounding leaves an integer below [2 ^ 53] as it is. *)
Lemma binary_round_aux_exact (p : positive) (e V : Z) :
  eq_float (Z.pos p) e V → 0 < V < 2 ^ 53 →
  exactly V
    (binary_round_aux PyFloat.prec PyFloat.emax false (Z.pos p) e loc_Exact).
Proof.
  intros Heq HV. unfold binary_round_aux.
  destruct (shr_fexp_spec (Z.pos p) e loc_Exact ltac:(lia))
    as (mrs1&->&Hq1&Hex1).
  destruct (shift_of_le_float p e V (eq_float_le _ _ _ Heq) ltac:(lia))
    as [Hn1 Hn1'].
  destruct (eq_float_shift _ _ _ _ Heq Hn1 Hn1') as [Heq1 Hmod1].
  rewrite (Hex1 eq_refl Hmod1). simpl round_nearest_even.
  rewrite Hq1.
  set (m1 := Z.pos p / 2 ^ shift_of (Z.pos p) e) in *.
  set (e1 := e + shift_of (Z.pos p) e) in *.
  pose proof (eq_float_pos _ _ _ Heq1 ltac:(lia)) as Hm1.
  destruct m1 as [|p1|p1] eqn:Hp1; try lia.
  destruct (shr_fexp_spec (Z.pos p1) e1 loc_Exact ltac:(lia))
    as (mrs2&->&Hq2&_).
  destruct (shift_of_le_float p1 e1 V (eq_float_le _ _ _ Heq1) ltac:(lia))
    as [Hn2 Hn2'].
  destruct (eq_float_shift _ _ _ _ Heq1 Hn2 Hn2') as [Heq2 _].
  rewrite <- Hq2 in Heq2.
  pose proof (eq_float_pos _ _ _ Heq2 ltac:(lia)) as Hm2.
  destruct (shr_m mrs2) as [|m2|m2]; try lia.
  set (e2 := e1 + shift_of (Z.pos p1) e1) in *.
  assert (e2 ≤ PyFloat.emax - PyFloat.prec) as He2.
  { unfold PyFloat.emax, PyFloat.prec.
    destruct (Z.le_gt_cases e2 0) as [|Hpos]; [lia|].
    destruct Heq2 as [Heq2 _]. specialize (Heq2 ltac:(lia)).
    destruct (Z.le_gt_cases 53 e2) as [He53|]; [|lia].
    pose proof (Z.pow_le_mono_r 2 53 e2 ltac:(lia) He53). nia. }
  apply Z.leb_le in He2. rewrite He2. done.
Qed.

(** [float(n)] is [n] when [n] is below [2 ^ 53]. *)
Lemma of_int_exact (n : Z) :
  0 < n < 2 ^ 53 → ∃ f, PyFloat.of_int n = Ok f ∧ exactly n f.
Proof.
  intros Hn. destruct n as [|p|p]; try lia.
  unfold PyFloat.of_int, binary_normalize, binary_round, shl_align.
  assert (∀ mz ez, eq_float (Z.pos mz) ez (Z.pos p) →
            ∃ f, match binary_round_aux PyFloat.prec PyFloat.emax false
                         (Z.pos mz) ez loc_Exact
                 with
                 | S754_infinity _ => Raise OverflowError
                 | f => Ok f
                 end = Ok f ∧ exactly (Z.pos p) f) as Hround.
  { intros mz ez Heq.
    pose proof (binary_round_aux_exact mz ez (Z.pos p) Heq ltac:(lia)) as H.
    destruct (binary_round_aux _ _ _ _ _ _) as [s|s| |s m' e']; try done;
      by eexists. }
  destruct (fexp PyFloat.prec PyFloat.emax (Z.pos (digits2_pos p) + 0) - 0)
    as [|d|d] eqn:Hd.
  - apply Hround. clear. split; intros; [rewrite Z.pow_0_r|]; lia.
  - apply Hround. clear. split; intros; [rewrite Z.pow_0_r|]; lia.
  - apply Hround. rewrite Z.sub_0_r in Hd. rewrite Hd. split; [lia|].
    intros _. rewrite iter_xO. change (- Z.neg d) with (Z.pos d).
    reflexivity.
Qed.

Lemma eq_float_mul_one (mx : positive) (ex V : Z) :
  eq_float (Z.pos mx) ex V →
  eq_float (Z.pos (mx * 4503599627370496)) (ex + -52) V.
Proof.
  intros [Hpos Hneg]. rewrite Pos2Z.inj_mul.
  change (Z.pos 4503599627370496) with (2 ^ 52).
  split; intros He.
  - specialize (Hpos ltac:(lia)). rewrite <- Hpos.
    replace ex with ((ex + -52) + 52) at 2 by lia.
    rewrite (Z.pow_add_r 2 (ex + -52) 52) by lia. lia.
  - destruct (Z.le_gt_cases 0 ex) as [Hex|Hex].
    + specialize (Hpos Hex). rewrite <- Hpos.
      assert (2 ^ 52 = 2 ^ ex * 2 ^ (- (ex + -52))) as ->; [|lia].
      rewrite <- Z.pow_add_r by lia. f_equal; lia.
    + specialize (Hneg Hex). rewrite Hneg.
      assert (2 ^ (- (ex + -52)) = 2 ^ (- ex) * 2 ^ 52) as ->; [|lia].
      rewrite <- Z.pow_add_r by lia. f_equal; lia.
Qed.

Lemma to_int_exact (V : Z) (x : PyFloat.float) :
  exactly V x → PyFloat.to_int x = Ok V.
Proof.
  destruct x as [s|s| |[] m e]; simpl; try done.
  intros [Hpos Hneg]. f_equal.
  destruct (Z.leb_spec 0 e) as [He|He]; [by apply Hpos|].
  rewrite (Hneg He). apply Z.div_mul.
  assert (0 < 2 ^ (- e)) by (apply Z.pow_pos_nonneg; lia). lia.
Qed.

(** [int(n * 1.0)] is [n]. *)
Lemma int_mul_one (n : Z) :
  0 < n < 2 ^ 53 →
  (x ← PyFloat.int_mul n PyFloat.one; PyFloat.to_int x) = Ok n.
Proof.
  intros Hn. destruct (of_int_exact n Hn) as (f&Hf&Hex).
  unfold PyFloat.int_mul. rewrite Hf. simpl.
  apply to_int_exact. unfold PyFloat.mul.
  destruct f as [sf|sf| |[] mx ex]; try done.
  change PyFloat.one with (S754_finite false 4503599627370496 (-52)).
  unfold SFmul. simpl xorb.
  apply binary_round_aux_exact; [|lia]. by apply eq_float_mul_one.
Qed.

(** The scale of the preview is below 1, or 1. *)
Lemma min3_one_cases (sw sh : PyFloat.float) :
  plain sw → plain sh →
  let scale := PyFloat.min3 sw sh PyFloat.one in
  plain scale ∧
  (PyFloat.ltb scale PyFloat.one = true ∨
   scale = PyFloat.one ∧ PyFloat.ltb scale PyFloat.one = false).
Proof.
  intros Hsw Hsh. unfold PyFloat.min3.
  pose proof (min2_plain sw sh Hsw Hsh) as Hm.
  set (m := PyFloat.min2 sw sh) in *. clearbody m.
  unfold PyFloat.min2 at 1 2 3 4. destruct (PyFloat.ltb PyFloat.one m) eqn:Hlt.
  { split; [done|]. right. done. }
  split; [done|].
  destruct m as [s|s| |[] mm me]; try done.
  { left. done. }
  revert Hlt. unfold PyFloat.ltb, SFltb.
  change PyFloat.one with (S754_finite false 4503599627370496 (-52)).
  rewrite !SFcompare_positive.
  destruct (Z.compare_spec (-52) me) as [<-|Hlt|Hgt]; try discriminate.
  - rewrite Z.compare_refl.
    rewrite (Pos.compare_antisym mm 4503599627370496).
    destruct (Pos.compare_spec mm 4503599627370496) as [->|?|?];
      simpl; try discriminate; auto.
  - intros _. left. by rewrite (proj2 (Z.compare_lt_iff me (-52))) by lia.
Qed.

End FloatsExact.

(** ** The preview *)

Section Preview.

Context {B : Imaging}.
Variable int_of_str : string → option Z.

(** One side of the preview: [int(n * scale)] for the scale
    [min(sw, sh, 1.0)]. *)
Lemma preview_side (n : Z) (sw sh : PyFloat.float) :
  0 < n < 2 ^ 53 → plain sw → plain sh →
  ∃ k, (x ← PyFloat.int_mul n (PyFloat.min3 sw sh PyFloat.one);
        PyFloat.to_int x) = Ok k ∧
       0 ≤ k ≤ n ∧
       (PyFloat.ltb (PyFloat.min3 sw sh PyFloat.one) PyFloat.one = false →
        k = n).
Proof.
  intros Hn Hsw Hsh.
  destruct (min3_one_cases sw sh Hsw Hsh) as [Hplain [Hlt|[Hone Hlt]]].
  - pose proof (ltb_not_geb _ _ Hlt) as Hge.
    destruct (int_mul_shrinks n _ Hn Hplain Hge) as (k&Hk&?).
    exists k. repeat split; try done; try lia. by rewrite Hlt.
  - rewrite Hone. exists n. rewrite (int_mul_one n Hn).
    repeat split; try done; lia.
Qed.

(** X1. The preview is never larger than the processed image: for an
    image below [2 ^ 53] pixels a side, once the two quotients
    [canvas / image] are there, the two products are there as well, the
    preview size lies between 0 and the image size, and it is the image
    size when the scale is not below 1. *)
Theorem viewport_fit_never_enlarges (canvas img : Z * Z)
    (sw sh : PyFloat.float) :
  0 ≤ canvas.1 → 0 ≤ canvas.2 →
  0 < img.1 < 2 ^ 53 → 0 < img.2 < 2 ^ 53 →
  PyFloat.truediv_int canvas.1 img.1 = Ok sw →
  PyFloat.truediv_int canvas.2 img.2 = Ok sh →
  ∃ preview,
    viewport_fit canvas img
      = Ok (PyFloat.min3 sw sh PyFloat.one, preview,
            center_offset canvas preview) ∧
    0 ≤ preview.1 ≤ img.1 ∧ 0 ≤ preview.2 ≤ img.2 ∧
    (PyFloat.ltb (PyFloat.min3 sw sh PyFloat.one) PyFloat.one = false →
     preview = img).
Proof.
  intros Hcw Hch Hw Hh Hsw Hsh. unfold viewport_fit. rewrite Hsw, Hsh. simpl.
  assert (plain sw) as Hpw by (eapply truediv_int_plain; [| |done]; lia).
  assert (plain sh) as Hph by (eapply truediv_int_plain; [| |done]; lia).
  destruct (preview_side img.1 sw sh Hw Hpw Hph) as (pw&->&?&Hsame_w).
  destruct (preview_side img.2 sw sh Hh Hpw Hph) as (ph&->&?&Hsame_h).
  exists (pw, ph). simpl. repeat split; try lia.
  intros Hlt. rewrite (Hsame_w Hlt), (Hsame_h Hlt). by destruct img.
Qed.

Lemma viewport_fit_Ok (canvas img : Z * Z) scale preview origin :
  viewport_fit canvas img = Ok (scale, preview, origin) →
  ∃ sw sh,
    PyFloat.truediv_int canvas.1 img.1 = Ok sw ∧
    PyFloat.truediv_int canvas.2 img.2 = Ok sh ∧
    scale = PyFloat.min3 sw sh PyFloat.one ∧
    origin = center_offset canvas preview ∧
    (x ← PyFloat.int_mul img.1 scale; PyFloat.to_int x) = Ok preview.1 ∧
    (x ← PyFloat.int_mul img.2 scale; PyFloat.to_int x) = Ok preview.2.
Proof.
  unfold viewport_fit. intros H.
  apply bind_Ok in H as (sw&Hsw&H). apply bind_Ok in H as (sh&Hsh&H).
  apply bind_Ok in H as (pw&Hpw&H). apply bind_Ok in H as (ph&Hph&H).
  exists sw, sh. by simplify_eq.
Qed.

Lemma update_preview_settings (st : app) :
  same_settings st (update_preview int_of_str st).
Proof.
  unfold update_preview, draw_preview.
  destruct (original_image st) eqn:Ho; [|done].
  destruct (get_dimensions _ _) as [[w h]|]; [|done].
  destruct (process_image _ _ _) as [[processed|]|]; try done.
  simpl. destruct (_ || _); [done|].
  destruct (viewport_fit _ _) as [[[sc pv] og]|]; [|done].
  by destruct (display_image _ _ _).
Qed.

(** X3. [update_preview] writes the processed image, the canvas, the
    retry and the status, and nothing else: the loaded image, its size
    and ratio, the mode, the lock, both entries, the pending debounced
    call and the stored recent files are as before. *)
Theorem update_preview_frame (st : app) :
  same_settings st (update_preview int_of_str st) ∧
  (original_image st = None → update_preview int_of_str st = st) ∧
  (get_dimensions int_of_str st = None → update_preview int_of_str st = st).
Proof.
  split; [apply update_preview_settings|]. unfold update_preview.
  split; intros ->; [done|]. by destruct (original_image st).
Qed.

Context {L : ImagingLaws B}.

Lemma process_image_Some_size (st : app) (w h : Z) (out : image) :
  process_image st w h = Ok (Some out) → img_size out = (w, h).
Proof.
  unfold process_image. destruct (original_image st) as [img|]; [|done].
  destruct (String.eqb _ "stretch").
  { destruct (Image_resize _ _) eqn:Hr; [|done]. intros [= <-].
    by eapply resize_size. }
  destruct (String.eqb _ "cut").
  { destruct (ImageOps_fit _ _) eqn:Hr; [|done]. intros [= <-].
    by eapply fit_size. }
  destruct (String.eqb _ "fit"); [|done].
  destruct (process_fit _ _) eqn:Hf; [|done]. intros [= <-].
  apply process_fit_inv in Hf as (?&?&?&bg&?&?&?&?&?&Hbg&->).
  by rewrite paste_size.
Qed.

Lemma get_dimensions_Some (st : app) (w h : Z) :
  get_dimensions int_of_str st = Some (w, h) ↔
  int_of_str (entry_width st) = Some w ∧
  int_of_str (entry_height st) = Some h ∧ 1 ≤ w ∧ 1 ≤ h.
Proof.
  unfold get_dimensions.
  destruct (int_of_str (entry_width st)) as [w'|]; simpl.
  2: { split; [done|]. by intros [? _]. }
  destruct (int_of_str (entry_height st)) as [h'|]; simpl.
  2: { split; [done|]. by intros (_&?&_). }
  destruct (Z.ltb_spec w' 1), (Z.ltb_spec h' 1); simpl;
    (split; [intros ?; simplify_eq; try done; repeat split; lia
            |intros (?&?&?&?); simplify_eq; try done; lia]).
Qed.

Lemma draw_preview_processed (st : app) (p : image) :
  processed_image (draw_preview st p) = Some p.
Proof.
  unfold draw_preview. simpl. destruct (_ || _); [done|].
  destruct (viewport_fit _ _) as [[[sc pv] og]|]; [|done].
  by destruct (display_image _ _ _).
Qed.

(** A processed image that [update_preview] installs has at least one
    pixel a side. *)
Lemma update_preview_processed_nonempty (st : app) (p : image) :
  processed_image (update_preview int_of_str st) = Some p →
  processed_image st = Some p ∨ nonempty_size (img_size p).
Proof.
  unfold update_preview.
  destruct (original_image st) eqn:Ho; [|auto].
  destruct (get_dimensions _ _) as [[w h]|] eqn:Hd; [|auto].
  destruct (process_image _ _ _) as [[processed|]|] eqn:Hp; simpl; auto.
  rewrite draw_preview_processed. intros [= <-]. right.
  pose proof (proj1 (get_dimensions_Some st w h) Hd) as (_&_&?&?).
  rewrite (process_image_Some_size _ _ _ _ Hp). by split.
Qed.

(** X4. The processed image [update_preview] leaves is the one that
    was there, or the image [process_image] answered for the width and
    height the two entries hold, both at least 1: it then has exactly
    that size. *)
Theorem update_preview_processed (st : app) (p : image) :
  processed_image (update_preview int_of_str st) = Some p →
  processed_image st = Some p ∨
  ∃ w h, get_dimensions int_of_str st = Some (w, h) ∧
         process_image st w h = Ok (Some p) ∧
         1 ≤ w ∧ 1 ≤ h ∧ img_size p = (w, h).
Proof.
  unfold update_preview, draw_preview.
  destruct (original_image st) eqn:Ho; [|auto].
  destruct (get_dimensions _ _) as [[w h]|] eqn:Hd; [|auto].
  destruct (process_image _ _ _) as [[processed|]|] eqn:Hp; simpl; auto.
  intros Hproc. right. exists w, h.
  assert (processed = p) as ->.
  { revert Hproc. destruct (_ || _); simpl; [congruence|].
    destruct (viewport_fit _ _) as [[[sc pv] og]|]; simpl; [|congruence].
    destruct (display_image _ _ _); simpl; congruence. }
  pose proof (proj1 (get_dimensions_Some st w h) Hd) as (_&_&?&?).
  repeat split; try done. by eapply process_image_Some_size.
Qed.

(** X6. In the stretch and cut modes, with an image loaded and two
    entries that hold numbers of at least 1, [update_preview] always
    leaves a processed image, and it has exactly the size the entries
    ask for. *)
Theorem update_preview_installs (st : app) (w h : Z) :
  is_Some (original_image st) →
  get_dimensions int_of_str st = Some (w, h) →
  resize_mode st = "stretch" ∨ resize_mode st = "cut" →
  ∃ p, processed_image (update_preview int_of_str st) = Some p ∧
       img_size p = (w, h).
Proof.
  intros [img Ho] Hd Hmode.
  pose proof (proj1 (get_dimensions_Some st w h) Hd) as (_&_&Hw&Hh).
  assert (nonempty_size (w, h)) as Hne by (by split).
  assert (∃ p, process_image st w h = Ok (Some p)) as [p Hp].
  { unfold process_image. rewrite Ho. destruct Hmode as [-> | ->]; simpl.
    - destruct (resize_defined img _ Hne) as [r ->]. by eexists.
    - destruct (fit_defined img _ Hne) as [r ->]. by eexists. }
  exists p. unfold update_preview. rewrite Ho, Hd, Hp.
  split; [apply draw_preview_processed|by eapply process_image_Some_size].
Qed.

Context {M : ModeLaws B}.

(** X2. What is drawn: with a canvas of at least 50 pixels a side and
    a processed image below [2 ^ 53] pixels a side, the image put on
    the canvas has the preview size, so that the corner it is drawn at
    centres it; it is never in mode RGBA. *)
Theorem draw_preview_shows (st : app) (processed shown : image)
    (scale : PyFloat.float) (preview origin : Z * Z) :
  50 ≤ (canvas_size st).1 → 50 ≤ (canvas_size st).2 →
  0 < (img_size processed).1 < 2 ^ 53 →
  0 < (img_size processed).2 < 2 ^ 53 →
  viewport_fit (canvas_size st) (img_size processed)
    = Ok (scale, preview, origin) →
  display_image processed scale preview = Ok shown →
  canvas_image (draw_preview st processed)
    = Some (origin.1, origin.2, shown) ∧
  img_size shown = preview ∧
  img_mode shown ≠ "RGBA" ∧
  balanced (canvas_size st) (img_size shown) origin.
Proof.
  intros Hcw Hch Hw Hh Hfit Hshown.
  assert (img_size shown = preview ∧ img_mode shown ≠ "RGBA") as [Hs Hm].
  { destruct (viewport_fit_Ok _ _ _ _ _ Hfit)
      as (sw&sh&Hsw&Hsh&->&->&Hpw&Hph).
    assert (plain sw) as Hplw by (eapply truediv_int_plain; [| |done]; lia).
    assert (plain sh) as Hplh by (eapply truediv_int_plain; [| |done]; lia).
    destruct (preview_side _ sw sh Hw Hplw Hplh) as (pw&Hpw'&_&Hsame_w).
    destruct (preview_side _ sw sh Hh Hplw Hplh) as (ph&Hph'&_&Hsame_h).
    rewrite Hpw in Hpw'. injection Hpw' as <-.
    rewrite Hph in Hph'. injection Hph' as <-.
    unfold display_image in Hshown.
    apply bind_Ok in Hshown as (d&Hd&[= <-]).
    assert (img_size d = preview) as Hds.
    { destruct (PyFloat.ltb _ _) eqn:Hlt.
      - by eapply resize_size.
      - injection Hd as <-.
        specialize (Hsame_w eq_refl). specialize (Hsame_h eq_refl).
        destruct preview, (img_size processed); simpl in *; congruence. }
    destruct (String.eqb_spec (img_mode d) "RGBA") as [_|Hne].
    - by rewrite convert_size, convert_mode.
    - done. }
  split; [|split; [done|split; [done|]]].
  - unfold draw_preview. simpl.
    rewrite (proj2 (Z.ltb_ge _ _) Hcw), (proj2 (Z.ltb_ge _ _) Hch). simpl.
    by rewrite Hfit, Hshown.
  - rewrite Hs.
    destruct (viewport_fit_Ok _ _ _ _ _ Hfit) as (?&?&?&?&?&->&?&?).
    apply center_offset_balanced.
Qed.

End Preview.

(** ** Floats: quotients of integers *)

Section FloatsQuotient.

Lemma Zdigits2_le (x k : Z) : 0 ≤ k → 0 < x < 2 ^ k → Zdigits2 x ≤ k.
Proof.
  intros Hk Hx. destruct x as [|p|p]; try lia. simpl.
  destruct (digits2_pos_bounds p) as [Hlo _].
  destruct (Z.le_gt_cases (Z.pos (digits2_pos p)) k) as [|Hgt]; [done|].
  pose proof (Z.pow_le_mono_r 2 k (Z.pos (digits2_pos p) - 1)
                ltac:(lia) ltac:(lia)). lia.
Qed.

(** A mantissa of at least 53 bits is cut to exactly 53. *)
Lemma shift_of_large (x e : Z) :
  2 ^ 52 ≤ x → -1074 ≤ Zdigits2 x + e - 53 →
  shift_of x e = Zdigits2 x - 53 ∧
  0 ≤ Zdigits2 x - 53 ∧
  2 ^ 52 ≤ x / 2 ^ (Zdigits2 x - 53) < 2 ^ 53.
Proof.
  intros Hx He. destruct x as [|p|p]; try lia.
  destruct (digits2_pos_bounds p) as [Hlo Hhi]. simpl Zdigits2 in *.
  set (d := Z.pos (digits2_pos p)) in *.
  assert (53 ≤ d) as Hd.
  { destruct (Z.le_gt_cases 53 d) as [|Hlt]; [done|].
    pose proof (Z.pow_le_mono_r 2 d 52 ltac:(lia) ltac:(lia)). lia. }
  split; [|split; [lia|]].
  - unfold shift_of, fexp, emin, PyFloat.prec, PyFloat.emax. simpl Zdigits2.
    fold d. lia.
  - assert (0 < 2 ^ (d - 53)) as Hp by (apply Z.pow_pos_nonneg; lia).
    assert (2 ^ (d - 1) = 2 ^ 52 * 2 ^ (d - 53)) as Hsplit1.
    { rewrite <- Z.pow_add_r by lia. f_equal; lia. }
    assert (2 ^ d = 2 ^ 53 * 2 ^ (d - 53)) as Hsplit2.
    { rewrite <- Z.pow_add_r by lia. f_equal; lia. }
    split.
    + apply Z.div_le_lower_bound; [done|]. lia.
    + apply Z.div_lt_upper_bound; [done|]. lia.
Qed.

Lemma floor_chain (m2 m1 q1 q b a P1 P2 S : Z) :
  0 < P1 → 0 < P2 → 0 < b → 1 ≤ m2 →
  P2 * m2 ≤ m1 → m1 ≤ q1 + 1 → P1 * q1 ≤ q → q * b ≤ a * S →
  (m2 - 1) * (P1 * P2) * b ≤ a * S.
Proof.
  intros HP1 HP2 Hb Hm2 H1 H2 H3 H4.
  assert ((m2 - 1) * P2 ≤ q1) as Ha by nia.
  assert ((m2 - 1) * P2 * P1 ≤ q) as Hb'.
  { etrans; [|exact H3]. rewrite (Z.mul_comm P1 q1).
    apply Z.mul_le_mono_nonneg_r; lia. }
  etrans; [|exact H4].
  replace ((m2 - 1) * (P1 * P2)) with ((m2 - 1) * P2 * P1) by ring.
  apply Z.mul_le_mono_nonneg_r; lia.
Qed.

(** The quotient of two integers below [2 ^ 53]: a float with a full
    mantissa, at most one unit in the last place above the exact
    quotient. *)
Lemma truediv_int_normal (a b : Z) :
  1 ≤ a < 2 ^ 53 → 1 ≤ b < 2 ^ 53 →
  ∃ m e, PyFloat.truediv_int a b = Ok (S754_finite false m e) ∧
         2 ^ 52 ≤ Z.pos m < 2 ^ 53 ∧
         le_float ((Z.pos m - 1) * b) e a.
Proof.
  intros Ha Hb. destruct a as [|pa|pa]; try lia. destruct b as [|pb|pb]; try lia.
  change (PyFloat.truediv_int (Z.pos pa) (Z.pos pb)) with
    (let '(mz, ez, lz) :=
       SFdiv_core_binary PyFloat.prec PyFloat.emax (Z.pos pa) 0 (Z.pos pb) 0 in
     match binary_round_aux PyFloat.prec PyFloat.emax false mz ez lz with
     | S754_infinity _ => Raise OverflowError
     | f => Ok f
     end).
  unfold SFdiv_core_binary.
  set (d1 := Zdigits2 (Z.pos pa)). set (d2 := Zdigits2 (Z.pos pb)).
  assert (1 ≤ d1 ≤ 53 ∧ 1 ≤ d2 ≤ 53) as [Hd1 Hd2].
  { split; (split; [unfold d1, d2; simpl; lia|]);
      apply Zdigits2_le; lia. }
  pose proof (digits2_pos_bounds pa) as [Hlo1 Hhi1].
  pose proof (digits2_pos_bounds pb) as [Hlo2 Hhi2].
  change (Z.pos (digits2_pos pa)) with d1 in *.
  change (Z.pos (digits2_pos pb)) with d2 in *.
  assert (Z.min (fexp PyFloat.prec PyFloat.emax (d1 + 0 - (d2 + 0))) (0 - 0)
          = d1 - d2 - 53) as ->.
  { unfold fexp, emin, PyFloat.prec, PyFloat.emax. lia. }
  set (s := 0 - 0 - (d1 - d2 - 53)).
  assert (0 < s ≤ 105) as Hs by (unfold s; lia).
  destruct s as [|ps|ps] eqn:Hps; try lia. rewrite <- Hps in *.
  rewrite Z.shiftl_mul_pow2 by lia.
  assert (0 < 2 ^ s) as Hpow by (apply Z.pow_pos_nonneg; lia).
  pose proof (Z_div_mod (Z.pos pa * 2 ^ s) (Z.pos pb) ltac:(lia)) as Hdm.
  destruct (Z.div_eucl (Z.pos pa * 2 ^ s) (Z.pos pb)) as [q r].
  destruct Hdm as [Hdm Hr].
  (* the quotient has at least 53 bits *)
  assert (2 ^ 52 ≤ q) as Hq.
  { assert (2 ^ (d1 - 1) * 2 ^ s = 2 ^ 52 * 2 ^ d2) as Hsplit.
    { rewrite <- !Z.pow_add_r by lia. f_equal. unfold s. lia. }
    assert (0 < 2 ^ 52) by (by apply Z.pow_pos_nonneg).
    nia. }
  assert (q < 2 ^ 158) as Hq158.
  { assert (2 ^ 53 * 2 ^ 105 = 2 ^ 158) as Hsplit
      by (by rewrite <- Z.pow_add_r by lia).
    pose proof (Z.pow_le_mono_r 2 s 105 ltac:(lia) ltac:(lia)).
    assert (0 < 2 ^ 52) by (by apply Z.pow_pos_nonneg).
    nia. }
  assert (0 < 2 ^ 52) as H52 by (by apply Z.pow_pos_nonneg).
  assert (Zdigits2 q ≤ 158) as Hdq by (apply Zdigits2_le; lia).
  unfold binary_round_aux.
  destruct (shr_fexp_spec q (d1 - d2 - 53) (new_location (Z.pos pb) r)
              ltac:(lia)) as (mrs1&->&Hq1&_).
  destruct (shift_of_large q (d1 - d2 - 53) Hq) as (Hn1&Hn1'&Hq1').
  { assert (53 ≤ Zdigits2 q); [|lia].
    destruct (Z.le_gt_cases 53 (Zdigits2 q)) as [|Hlt]; [done|].
    pose proof (Zdigits2_bound q ltac:(lia)).
    pose proof (Z.pow_le_mono_r 2 (Zdigits2 q) 52 ltac:(lia) ltac:(lia)).
    lia. }
  rewrite Hn1 in *.
  set (n1 := Zdigits2 q - 53) in *.
  destruct (round_nearest_even_bounds (shr_m mrs1) (loc_of_shr_record mrs1))
    as [Hrne _].
  set (m1 := round_nearest_even (shr_m mrs1) (loc_of_shr_record mrs1)) in *.
  set (e1 := d1 - d2 - 53 + n1) in *.
  rewrite Hq1 in Hrne.
  destruct (shr_fexp_spec m1 e1 loc_Exact ltac:(lia)) as (mrs2&->&Hq2&_).
  assert (Zdigits2 m1 ≤ 54) as Hdm1.
  { apply Zdigits2_le; [lia|].
    assert (2 ^ 54 = 2 * 2 ^ 53) as -> by (by rewrite <- Z.pow_succ_r). lia. }
  destruct (shift_of_large m1 e1 ltac:(lia)) as (Hn2&Hn2'&Hq2').
  { assert (53 ≤ Zdigits2 m1); [|unfold e1; lia].
    destruct (Z.le_gt_cases 53 (Zdigits2 m1)) as [|Hlt]; [done|].
    pose proof (Zdigits2_bound m1 ltac:(lia)).
    pose proof (Z.pow_le_mono_r 2 (Zdigits2 m1) 52 ltac:(lia) ltac:(lia)).
    lia. }
  rewrite Hn2 in *. set (n2 := Zdigits2 m1 - 53) in *.
  rewrite <- Hq2 in Hq2'.
  destruct (shr_m mrs2) as [|m2|m2] eqn:Hm2; try lia.
  assert (e1 + n2 ≤ PyFloat.emax - PyFloat.prec) as He2
    by (unfold e1, n1, n2, PyFloat.emax, PyFloat.prec; lia).
  apply Z.leb_le in He2. rewrite He2.
  exists m2, (e1 + n2). split; [done|]. split; [lia|].
  (* the bound *)
  assert (0 < 2 ^ n1 ∧ 0 < 2 ^ n2) as [Hp1 Hp2]
    by (split; apply Z.pow_pos_nonneg; lia).
  pose proof (Z.mul_div_le q (2 ^ n1) Hp1) as Hfl1.
  pose proof (Z.mul_div_le m1 (2 ^ n2) Hp2) as Hfl2.
  rewrite <- Hq2 in Hfl2.
  assert ((Z.pos m2 - 1) * 2 ^ (n1 + n2) * Z.pos pb ≤ Z.pos pa * 2 ^ s)
    as Hbound.
  { rewrite Z.pow_add_r by lia.
    apply (floor_chain (Z.pos m2) m1 (q / 2 ^ n1) q); try done; try lia. }
  split; intros He.
  - assert (2 ^ (n1 + n2) = 2 ^ (e1 + n2) * 2 ^ s) as Hsplit.
    { rewrite <- Z.pow_add_r by lia. f_equal. unfold e1, s. lia. }
    assert (0 < 2 ^ (e1 + n2)) by (by apply Z.pow_pos_nonneg). nia.
  - assert (2 ^ s = 2 ^ (n1 + n2) * 2 ^ (- (e1 + n2))) as Hsplit.
    { rewrite <- Z.pow_add_r by lia. f_equal. unfold e1, s. lia. }
    assert (0 < 2 ^ (n1 + n2)) by (apply Z.pow_pos_nonneg; lia).
    nia.
Qed.


(** The quotient [a / b], times [b], is at most [a + 1/2]. *)
Lemma truediv_int_within (a b : Z) :
  1 ≤ a < 2 ^ 51 → 1 ≤ b < 2 ^ 53 →
  ∃ x, PyFloat.truediv_int a b = Ok x ∧ within b a x.
Proof.
  intros Ha Hb.
  assert (2 ^ 51 < 2 ^ 53) as H5153 by (by apply Z.pow_lt_mono_r).
  destruct (truediv_int_normal a b ltac:(lia) Hb) as (m&e&Hx&Hm&[Hpos Hneg]).
  eexists. split; [exact Hx|]. simpl.
  assert (2 ^ 52 = 2 * 2 ^ 51) as H52 by (by rewrite <- Z.pow_succ_r).
  set (K := 2 ^ 51) in *.
  assert (e < 0) as He.
  { destruct (Z.le_gt_cases 0 e) as [He|]; [|done]. specialize (Hpos He).
    assert (0 < 2 ^ e) by (by apply Z.pow_pos_nonneg).
    assert (Z.pos m - 1 ≤ (Z.pos m - 1) * b * 2 ^ e); [|lia].
    assert (Z.pos m - 1 ≤ (Z.pos m - 1) * b) by nia. nia. }
  split; [done|]. split; [lia|].
  specialize (Hneg He).
  assert (0 < 2 ^ (- e)) as HT by (apply Z.pow_pos_nonneg; lia).
  set (T := 2 ^ (- e)) in *.
  assert (2 * b < T) as HbT.
  { destruct (Z.lt_ge_cases (2 * b) T) as [|Hge]; [done|]. exfalso.
    assert ((2 * K - 1) * b ≤ (Z.pos m - 1) * b) as H1
      by (apply Z.mul_le_mono_nonneg_r; lia).
    assert (a * T ≤ (K - 1) * T) as H2
      by (apply Z.mul_le_mono_nonneg_r; lia).
    assert (T * (2 * K - 1) ≤ 2 * b * (2 * K - 1)) as H3
      by (apply Z.mul_le_mono_nonneg_r; lia).
    nia. }
  nia.
Qed.

Lemma ltb_positive_true (m1 m2 : positive) (e1 e2 : Z) :
  PyFloat.ltb (S754_finite false m1 e1) (S754_finite false m2 e2) = true →
  e1 < e2 ∨ (e1 = e2 ∧ Z.pos m1 < Z.pos m2).
Proof.
  unfold PyFloat.ltb, SFltb. rewrite SFcompare_positive.
  destruct (Z.compare_spec e1 e2) as [->|?|?]; try done; auto.
  destruct (Pos.compare_spec m1 m2) as [?|Hlt|?]; try done.
  intros _. right. split; [done|]. by apply Pos2Z.pos_lt_pos.
Qed.

Lemma ltb_positive_false (m1 m2 : positive) (e1 e2 : Z) :
  PyFloat.ltb (S754_finite false m2 e2) (S754_finite false m1 e1) = false →
  e1 < e2 ∨ (e1 = e2 ∧ Z.pos m1 ≤ Z.pos m2).
Proof.
  unfold PyFloat.ltb, SFltb. rewrite SFcompare_positive.
  destruct (Z.compare_spec e2 e1) as [->|?|?]; try done; auto.
  destruct (Pos.compare_spec m2 m1) as [->|Hlt|Hgt]; try done; intros _.
  - right. split; [done|]. lia.
  - right. split; [done|]. apply Pos2Z.pos_lt_pos in Hgt. lia.
Qed.

(** A bound on [c * y] is a bound on [c * x] for [x <= y]. *)
Lemma within_le (c V : Z) (m1 m2 : positive) (e1 e2 : Z) :
  0 ≤ c → 0 ≤ V →
  e1 < e2 ∨ (e1 = e2 ∧ Z.pos m1 ≤ Z.pos m2) →
  Z.pos m1 < 2 ^ 53 → 2 ^ 52 ≤ Z.pos m2 → e2 < 0 →
  2 * c * Z.pos m2 ≤ (2 * V + 1) * 2 ^ (- e2) →
  2 * c * Z.pos m1 ≤ (2 * V + 1) * 2 ^ (- e1).
Proof.
  intros Hc HV Hle Hm1 Hm2 He2 Hb.
  assert (2 ^ 53 = 2 * 2 ^ 52) as H53 by (by rewrite <- Z.pow_succ_r).
  set (K := 2 ^ 52) in *.
  destruct Hle as [Hlt|[-> Hm]].
  - assert (2 ^ (- e1) = 2 ^ (- e2) * 2 ^ (e2 - e1)) as ->.
    { rewrite <- Z.pow_add_r by lia. f_equal; lia. }
    assert (0 < 2 ^ (- e2)) by (apply Z.pow_pos_nonneg; lia).
    assert (2 ≤ 2 ^ (e2 - e1)) as H2.
    { change 2 with (2 ^ 1) at 1. apply Z.pow_le_mono_r; lia. }
    set (T := 2 ^ (- e2)) in *. set (U := 2 ^ (e2 - e1)) in *.
    assert (2 * c * Z.pos m1 ≤ 2 * (2 * c * Z.pos m2)) as H1.
    { assert (c * Z.pos m1 ≤ c * (2 * K)) by (apply Z.mul_le_mono_nonneg_l; lia).
      assert (c * K ≤ c * Z.pos m2) by (apply Z.mul_le_mono_nonneg_l; lia).
      lia. }
    assert ((2 * V + 1) * T * 2 ≤ (2 * V + 1) * T * U) as H3.
    { apply Z.mul_le_mono_nonneg_l; [|done].
      apply Z.mul_nonneg_nonneg; lia. }
    lia.
  - etrans; [|exact Hb]. apply Z.mul_le_mono_nonneg_l; lia.
Qed.

Lemma min2_within (c1 V1 c2 V2 : Z) (x y : PyFloat.float) :
  0 ≤ c1 → 0 ≤ V1 → 0 ≤ c2 → 0 ≤ V2 →
  within c1 V1 x → within c2 V2 y →
  within c1 V1 (PyFloat.min2 x y) ∧ within c2 V2 (PyFloat.min2 x y).
Proof.
  intros Hc1 HV1 Hc2 HV2.
  destruct x as [| | |[] mx ex]; try done. destruct y as [| | |[] my ey]; try done.
  intros (Hex&Hmx&Hbx) (Hey&Hmy&Hby). unfold PyFloat.min2.
  destruct (PyFloat.ltb _ _) eqn:Hlt.
  - apply ltb_positive_true in Hlt. split; [|done]. simpl.
    split; [done|]. split; [done|].
    apply (within_le c1 V1 my mx ey ex); try done; lia.
  - apply ltb_positive_false in Hlt. split; [done|]. simpl.
    split; [done|]. split; [done|].
    apply (within_le c2 V2 mx my ex ey); try done; lia.
Qed.

(** When [x >= 1] and [c * x <= V + 1/2], then [c <= V]. *)
Lemma within_one (c V : Z) (x : PyFloat.float) :
  0 ≤ c → 0 ≤ V → within c V x →
  PyFloat.geb x PyFloat.one = true ∨ PyFloat.ltb PyFloat.one x = true →
  c ≤ V.
Proof.
  intros Hc HV. destruct x as [| | |[] m e]; try done.
  intros (He&Hm&Hb) Hge.
  assert (-52 < e ∨ (-52 = e ∧ Z.pos 4503599627370496 ≤ Z.pos m)) as Hle.
  { destruct Hge as [Hge|Hlt].
    - revert Hge. unfold PyFloat.geb, SFleb.
      change PyFloat.one with (S754_finite false 4503599627370496 (-52)).
      rewrite SFcompare_positive.
      destruct (Z.compare_spec (-52) e) as [<-|?|?]; try done; auto.
      destruct (Pos.compare_spec 4503599627370496 m) as [<-|Hlt|?];
        try done; intros _; right; (split; [done|]); [lia|].
      apply Pos2Z.pos_lt_pos in Hlt. lia.
    - change PyFloat.one with (S754_finite false 4503599627370496 (-52))
        in Hlt.
      apply ltb_positive_true in Hlt as [?|[? ?]]; [by left|].
      right. split; [done|lia]. }
  pose proof (within_le c V 4503599627370496 m (-52) e Hc HV Hle) as H.
  change (Z.pos 4503599627370496) with (2 ^ 52) in H.
  change (2 ^ (- -52)) with (2 ^ 52) in H.
  assert (2 ^ 53 = 2 * 2 ^ 52) as H53 by (by rewrite <- Z.pow_succ_r).
  assert (0 < 2 ^ 52) as H52 by (by apply Z.pow_pos_nonneg).
  set (K := 2 ^ 52) in *.
  specialize (H ltac:(lia) ltac:(lia) He Hb). nia.
Qed.

End FloatsQuotient.

(** ** Floats: products below a half-integer *)

Section FloatsHalf.

(** Rounding to nearest after the shift stays at or below a bound
    [V / 2 ^ k] with [V < 2 ^ 53]. *)
Lemma round_le_scaled (p : positive) (e k V : Z) (mrs : shr_record) :
  le_float (Z.pos p) (e + k) V → 0 ≤ V < 2 ^ 53 → 0 ≤ k ≤ 1074 →
  shr_m mrs = Z.pos p / 2 ^ shift_of (Z.pos p) e →
  (Z.pos p mod 2 ^ shift_of (Z.pos p) e = 0 →
   loc_of_shr_record mrs = loc_Exact) →
  0 ≤ round_nearest_even (shr_m mrs) (loc_of_shr_record mrs) ∧
  le_float (round_nearest_even (shr_m mrs) (loc_of_shr_record mrs))
    (e + shift_of (Z.pos p) e + k) V.
Proof.
  intros Hle HV Hk Hq Hexact.
  pose proof (digits_le_float p (e + k) V Hle HV) as Hdig.
  destruct (round_nearest_even_bounds (shr_m mrs) (loc_of_shr_record mrs))
    as [Hrne _].
  assert (0 ≤ shr_m mrs) as Hq0.
  { rewrite Hq. apply Z.div_pos; [lia|]. apply Z.pow_pos_nonneg; [lia|].
    unfold shift_of. lia. }
  split; [lia|].
  revert Hq Hexact Hrne. unfold shift_of. simpl Zdigits2.
  destruct (Z.le_gt_cases
              (fexp PyFloat.prec PyFloat.emax (Z.pos (digits2_pos p) + e) - e)
              0)
    as [Hn|Hn]; [rewrite Z.max_r by done|rewrite Z.max_l by lia].
  - rewrite Z.div_1_r, Z.mod_1_r, Z.add_0_r. intros Hq Hexact _.
    rewrite Hexact, Hq by done. done.
  - set (n := fexp PyFloat.prec PyFloat.emax (Z.pos (digits2_pos p) + e) - e)
      in *.
    intros Hq Hexact Hrne.
    assert (e + n + k ≤ 0 ∧ e + k < 0) as [He1 He].
    { unfold n, fexp, emin, PyFloat.prec, PyFloat.emax in *. lia. }
    destruct Hle as [_ Hneg]. specialize (Hneg He).
    assert (0 < 2 ^ n) as Hpn by (apply Z.pow_pos_nonneg; lia).
    assert (2 ^ (- (e + k)) = 2 ^ (- (e + n + k)) * 2 ^ n) as Hsplit.
    { rewrite <- Z.pow_add_r by lia. f_equal; lia. }
    assert (0 < 2 ^ (- (e + n + k))) as Hp1 by (apply Z.pow_pos_nonneg; lia).
    pose proof (Z.div_mod (Z.pos p) (2 ^ n) ltac:(lia)) as Hdm.
    pose proof (Z.mod_pos_bound (Z.pos p) (2 ^ n) Hpn) as Hmod.
    assert (round_nearest_even (shr_m mrs) (loc_of_shr_record mrs)
            ≤ V * 2 ^ (- (e + n + k))) as Hbound.
    { destruct (Z.eq_dec (Z.pos p mod 2 ^ n) 0) as [Hz|Hnz].
      - rewrite (Hexact Hz). simpl. rewrite Hq. nia.
      - assert (shr_m mrs < V * 2 ^ (- (e + n + k))); [|lia].
        rewrite Hq. nia. }
    split; intros He'.
    + assert (e + n + k = 0) as Hz by lia. rewrite Hz in Hbound |- *.
      change (2 ^ (- 0)) with 1 in Hbound. rewrite Z.pow_0_r. lia.
    + done.
Qed.

Lemma binary_round_aux_le_scaled (p : positive) (e k V : Z) :
  le_float (Z.pos p) (e + k) V → 0 ≤ V < 2 ^ 53 → 0 ≤ k ≤ 1074 →
  match binary_round_aux PyFloat.prec PyFloat.emax false (Z.pos p) e loc_Exact
  with
  | S754_zero _ => True
  | S754_finite s' m' e' => s' = false ∧ le_float (Z.pos m') (e' + k) V
  | _ => False
  end.
Proof.
  intros Hle HV Hk. unfold binary_round_aux.
  destruct (shr_fexp_spec (Z.pos p) e loc_Exact ltac:(lia))
    as (mrs1&->&Hq1&Hex1).
  destruct (round_le_scaled p e k V mrs1 Hle HV Hk Hq1 (Hex1 eq_refl))
    as [Hm1 Hle1].
  set (m1 := round_nearest_even (shr_m mrs1) (loc_of_shr_record mrs1)) in *.
  set (e1 := e + shift_of (Z.pos p) e) in *.
  destruct (shr_fexp_spec m1 e1 loc_Exact Hm1) as (mrs2&->&Hq2&_).
  assert (0 ≤ shift_of m1 e1) as Hn2 by (unfold shift_of; lia).
  pose proof (le_float_shift m1 (e1 + k) (shift_of m1 e1) V Hm1 Hn2 Hle1)
    as Hle2.
  rewrite <- Hq2 in Hle2.
  assert (0 ≤ shr_m mrs2) as Hm2.
  { rewrite Hq2. apply Z.div_pos; [done|]. by apply Z.pow_pos_nonneg. }
  destruct (shr_m mrs2) as [|m2|m2]; [done| |lia].
  set (e2 := e1 + shift_of m1 e1) in *.
  replace (e1 + k + shift_of m1 e1) with (e2 + k) in Hle2 by (unfold e2; lia).
  assert (e2 ≤ PyFloat.emax - PyFloat.prec) as He2.
  { unfold PyFloat.emax, PyFloat.prec.
    destruct (Z.le_gt_cases e2 0) as [|Hpos]; [lia|].
    destruct Hle2 as [Hle2 _]. specialize (Hle2 ltac:(lia)).
    destruct (Z.le_gt_cases 53 (e2 + k)) as [He53|]; [|lia].
    pose proof (Z.pow_le_mono_r 2 53 (e2 + k) ltac:(lia) He53). nia. }
  apply Z.leb_le in He2. rewrite He2. done.
Qed.


Lemma to_int_half (V : Z) (m : positive) (e : Z) :
  0 ≤ V → le_float (Z.pos m) (e + 1) (2 * V + 1) →
  ∃ k, PyFloat.to_int (S754_finite false m e) = Ok k ∧ 0 ≤ k ≤ V.
Proof.
  intros HV [Hpos Hneg]. simpl. eexists. split; [done|].
  destruct (Z.leb_spec 0 e) as [He|He].
  - specialize (Hpos ltac:(lia)). rewrite Z.pow_add_r, Z.pow_1_r in Hpos by lia.
    assert (0 < 2 ^ e) by (by apply Z.pow_pos_nonneg). nia.
  - assert (0 < 2 ^ (- e)) as Hp by (apply Z.pow_pos_nonneg; lia).
    split; [apply Z.div_pos; lia|].
    assert (Z.pos m `div` 2 ^ (- e) < V + 1); [|lia].
    apply Z.div_lt_upper_bound; [done|].
    destruct (Z.eq_dec e (-1)) as [->|Hne].
    + specialize (Hpos ltac:(lia)). simpl in Hpos.
      change (2 ^ (- -1)) with 2. lia.
    + specialize (Hneg ltac:(lia)).
      assert (2 ^ (- e) = 2 * 2 ^ (- (e + 1))) as ->.
      { rewrite <- Z.pow_succ_r by lia. f_equal; lia. }
      assert (0 < 2 ^ (- (e + 1))) by (apply Z.pow_pos_nonneg; lia).
      nia.
Qed.

Lemma le_float_product (c V : Z) (mc m : positive) (ec e : Z) :
  eq_float (Z.pos mc) ec c → e < 0 →
  2 * c * Z.pos m ≤ (2 * V + 1) * 2 ^ (- e) →
  le_float (Z.pos (mc * m)) (ec + e + 1) (2 * V + 1).
Proof.
  intros [Hcpos Hcneg] He Hb. rewrite Pos2Z.inj_mul.
  assert (0 < 2 ^ (- e)) as HT by (apply Z.pow_pos_nonneg; lia).
  set (W := 2 * V + 1) in *.
  destruct (Z.le_gt_cases 0 ec) as [Hec|Hec].
  - specialize (Hcpos Hec). assert (0 < 2 ^ ec) by (by apply Z.pow_pos_nonneg).
    split; intros Hs.
    + assert (2 * 2 ^ ec = 2 ^ (ec + e + 1) * 2 ^ (- e)) as Hsplit.
      { rewrite <- Z.pow_succ_r, <- Z.pow_add_r by lia. f_equal; lia. }
      assert (0 < 2 ^ (ec + e + 1)) by (by apply Z.pow_pos_nonneg).
      set (T := 2 ^ (- e)) in *. set (U := 2 ^ (ec + e + 1)) in *.
      assert (Z.pos mc * Z.pos m * U * T ≤ W * T) as H1.
      { replace (Z.pos mc * Z.pos m * U * T)
          with (2 * (Z.pos mc * 2 ^ ec) * Z.pos m)
          by (rewrite <- (Z.mul_assoc _ U T), <- Hsplit; ring).
        by rewrite Hcpos. }
      apply Z.mul_le_mono_pos_r in H1; done.
    + assert (2 ^ (- e) = 2 * 2 ^ ec * 2 ^ (- (ec + e + 1))) as Hsplit.
      { rewrite <- Z.pow_succ_r, <- Z.pow_add_r by lia. f_equal; lia. }
      set (U := 2 ^ (- (ec + e + 1))) in *.
      assert (Z.pos mc * Z.pos m * (2 * 2 ^ ec) ≤ W * U * (2 * 2 ^ ec)) as H1.
      { replace (Z.pos mc * Z.pos m * (2 * 2 ^ ec))
          with (2 * (Z.pos mc * 2 ^ ec) * Z.pos m) by ring.
        rewrite Hcpos. etrans; [exact Hb|]. rewrite Hsplit.
        apply Z.eq_le_incl. ring. }
      apply Z.mul_le_mono_pos_r in H1; [done|lia].
  - specialize (Hcneg Hec). split; intros Hs; [lia|].
    assert (2 * 2 ^ (- (ec + e + 1)) = 2 ^ (- ec) * 2 ^ (- e)) as Hsplit.
    { rewrite <- Z.pow_succ_r, <- Z.pow_add_r by lia. f_equal; lia. }
    assert (0 < 2 ^ (- ec)) by (apply Z.pow_pos_nonneg; lia).
    set (U := 2 ^ (- (ec + e + 1))) in *. set (T := 2 ^ (- e)) in *.
    assert (2 * (Z.pos mc * Z.pos m) ≤ 2 * (W * U)) as H1; [|lia].
    replace (2 * (W * U)) with (W * T * 2 ^ (- ec))
      by (rewrite <- Z.mul_assoc, (Z.mul_comm T), <- Hsplit; ring).
    rewrite Hcneg.
    replace (2 * (c * 2 ^ (- ec) * Z.pos m))
      with (2 * c * Z.pos m * 2 ^ (- ec)) by ring.
    apply Z.mul_le_mono_nonneg_r; [lia|done].
Qed.

(** [int(c * x)] is at most [V] when [c * x <= V + 1/2]. *)
Lemma int_mul_within (c V : Z) (x : PyFloat.float) :
  0 < c < 2 ^ 53 → 0 ≤ V → 2 * V + 1 < 2 ^ 53 → within c V x →
  ∃ k, (y ← PyFloat.int_mul c x; PyFloat.to_int y) = Ok k ∧ 0 ≤ k ≤ V.
Proof.
  intros Hc HV HW Hx.
  destruct (of_int_exact c Hc) as (f&Hf&Hex).
  unfold PyFloat.int_mul. rewrite Hf. simpl.
  destruct f as [| | |[] mc ec]; try done.
  destruct x as [| | |[] m e]; try done.
  destruct Hx as (He&Hm&Hb). simpl in Hex.
  pose proof (le_float_product c V mc m ec e Hex He Hb) as Hle.
  unfold PyFloat.mul, SFmul. simpl xorb.
  pose proof (binary_round_aux_le_scaled (mc * m) (ec + e) 1 (2 * V + 1)
                Hle ltac:(lia) ltac:(lia)) as Hr.
  destruct (binary_round_aux _ _ _ _ _ _) as [s|s| |s m' e']; try done.
  - exists 0. split; [done|lia].
  - destruct Hr as [-> Hr]. by apply to_int_half.
Qed.

End FloatsHalf.

(** ** Nothing is cropped *)

Section Within.

Lemma within_plain (c V : Z) (x : PyFloat.float) : within c V x → plain x.
Proof. destruct x as [| | |[] m e]; try done. by intros (_&[_ ?]&_). Qed.

(** The scale of the fit mode, and what it is bounded by. *)
Lemma fit_scale_within (orig target : Z * Z) :
  1 ≤ orig.1 < 2 ^ 53 → 1 ≤ orig.2 < 2 ^ 53 →
  1 ≤ target.1 < 2 ^ 51 → 1 ≤ target.2 < 2 ^ 51 →
  ∃ sw sh,
    PyFloat.truediv_int target.1 orig.1 = Ok sw ∧
    PyFloat.truediv_int target.2 orig.2 = Ok sh ∧
    within orig.1 target.1 (PyFloat.min2 sw sh) ∧
    within orig.2 target.2 (PyFloat.min2 sw sh).
Proof.
  intros Hw Hh Htw Hth.
  destruct (truediv_int_within target.1 orig.1 Htw Hw) as (sw&Hsw&Hbw).
  destruct (truediv_int_within target.2 orig.2 Hth Hh) as (sh&Hsh&Hbh).
  exists sw, sh. split; [done|]. split; [done|].
  apply min2_within; try done; lia.
Qed.

(** X27. The fit mode crops nothing: for a source below [2 ^ 53] and
    a target below [2 ^ 51] pixels a side, both at least 1 x 1, the
    scale and the inner size are computed without an exception, the
    inner size is within the source size and within the target size,
    and the offset it is pasted at is not negative. *)
Theorem fit_never_crops (orig target : Z * Z) :
  1 ≤ orig.1 < 2 ^ 53 → 1 ≤ orig.2 < 2 ^ 53 →
  1 ≤ target.1 < 2 ^ 51 → 1 ≤ target.2 < 2 ^ 51 →
  ∃ scale new_size,
    fit_scale orig target = Ok scale ∧
    fit_inner_size orig scale = Ok new_size ∧
    0 ≤ new_size.1 ≤ Z.min orig.1 target.1 ∧
    0 ≤ new_size.2 ≤ Z.min orig.2 target.2 ∧
    0 ≤ (center_offset target new_size).1 ∧
    0 ≤ (center_offset target new_size).2.
Proof.
  intros Hw Hh Htw Hth.
  assert (2 ^ 51 < 2 ^ 52 ∧ 2 ^ 52 < 2 ^ 53) as [H5152 H5253]
    by (split; by apply Z.pow_lt_mono_r).
  destruct (fit_scale_within orig target Hw Hh Htw Hth)
    as (sw&sh&Hsw&Hsh&Hbw&Hbh).
  set (scale := PyFloat.min2 sw sh) in *.
  assert (fit_scale orig target = Ok scale) as Hscale.
  { unfold fit_scale. rewrite Hsw, Hsh. done. }
  assert (∃ new_size, fit_inner_size orig scale = Ok new_size ∧
            0 ≤ new_size.1 ≤ Z.min orig.1 target.1 ∧
            0 ≤ new_size.2 ≤ Z.min orig.2 target.2) as (new_size&Hn&Hb1&Hb2).
  { unfold fit_inner_size. destruct (PyFloat.geb scale PyFloat.one) eqn:Hge.
    - exists orig. split; [done|].
      pose proof (within_one orig.1 target.1 scale ltac:(lia) ltac:(lia) Hbw
                    (or_introl Hge)).
      pose proof (within_one orig.2 target.2 scale ltac:(lia) ltac:(lia) Hbh
                    (or_introl Hge)).
      lia.
    - destruct (int_mul_shrinks orig.1 scale ltac:(lia)
                  (within_plain _ _ _ Hbw) Hge) as (nw&Hnw&?).
      destruct (int_mul_shrinks orig.2 scale ltac:(lia)
                  (within_plain _ _ _ Hbw) Hge) as (nh&Hnh&?).
      destruct (int_mul_within orig.1 target.1 scale ltac:(lia) ltac:(lia)
                  ltac:(lia) Hbw) as (nw'&Hnw'&?).
      destruct (int_mul_within orig.2 target.2 scale ltac:(lia) ltac:(lia)
                  ltac:(lia) Hbh) as (nh'&Hnh'&?).
      rewrite Hnw in Hnw' |- *. rewrite Hnh in Hnh' |- *.
      injection Hnw' as <-. injection Hnh' as <-.
      exists (nw, nh). simpl. split; [done|]. lia. }
  exists scale, new_size. repeat split; try done; try lia;
    unfold center_offset; simpl; apply Z.div_pos; lia.
Qed.

(** X28. The preview lies within the canvas: for a canvas below
    [2 ^ 51] and a processed image below [2 ^ 53] pixels a side, both
    at least 1 x 1, the scale, the preview size and the corner are
    computed without an exception, the preview size is within the size
    of the image and within the size of the canvas, and the corner is
    not negative. *)
Theorem viewport_fit_within_canvas (canvas img : Z * Z) :
  1 ≤ canvas.1 < 2 ^ 51 → 1 ≤ canvas.2 < 2 ^ 51 →
  1 ≤ img.1 < 2 ^ 53 → 1 ≤ img.2 < 2 ^ 53 →
  ∃ scale preview origin,
    viewport_fit canvas img = Ok (scale, preview, origin) ∧
    0 ≤ preview.1 ≤ Z.min img.1 canvas.1 ∧
    0 ≤ preview.2 ≤ Z.min img.2 canvas.2 ∧
    origin = center_offset canvas preview ∧
    0 ≤ origin.1 ∧ 0 ≤ origin.2.
Proof.
  intros Hcw Hch Hw Hh.
  assert (2 ^ 51 < 2 ^ 52 ∧ 2 ^ 52 < 2 ^ 53) as [H5152 H5253]
    by (split; by apply Z.pow_lt_mono_r).
  destruct (fit_scale_within img canvas Hw Hh Hcw Hch)
    as (sw&sh&Hsw&Hsh&Hbw&Hbh).
  assert (plain sw ∧ plain sh) as [Hpw Hph].
  { split; (eapply truediv_int_plain; [| |done]); lia. }
  destruct (preview_side img.1 sw sh ltac:(lia) Hpw Hph) as (pw&Hpw'&?&_).
  destruct (preview_side img.2 sw sh ltac:(lia) Hpw Hph) as (ph&Hph'&?&_).
  assert (pw ≤ canvas.1 ∧ ph ≤ canvas.2) as [Hcpw Hcph].
  { revert Hpw' Hph'. unfold PyFloat.min3.
    set (m := PyFloat.min2 sw sh) in *. unfold PyFloat.min2 at 1 2.
    destruct (PyFloat.ltb PyFloat.one m) eqn:Hlt.
    - rewrite (int_mul_one img.1), (int_mul_one img.2) by lia.
      intros [= <-] [= <-].
      pose proof (within_one img.1 canvas.1 m ltac:(lia) ltac:(lia) Hbw
                    (or_intror Hlt)).
      pose proof (within_one img.2 canvas.2 m ltac:(lia) ltac:(lia) Hbh
                    (or_intror Hlt)).
      lia.
    - destruct (int_mul_within img.1 canvas.1 m ltac:(lia) ltac:(lia)
                  ltac:(lia) Hbw) as (pw'&->&?).
      destruct (int_mul_within img.2 canvas.2 m ltac:(lia) ltac:(lia)
                  ltac:(lia) Hbh) as (ph'&->&?).
      intros [= <-] [= <-]. lia. }
  exists (PyFloat.min3 sw sh PyFloat.one), (pw, ph),
    (center_offset canvas (pw, ph)).
  split.
  { unfold viewport_fit. rewrite Hsw, Hsh. simpl. rewrite Hpw', Hph'. done. }
  simpl. repeat split; try lia; apply Z.div_pos; lia.
Qed.

End Within.

(** ** The controls *)

Section ControlsProperties.

Context {B : Imaging} {P : Pathlib}.
Variable int_of_str : string → option Z.

Lemma of_int_raises (n : Z) (e : exn) :
  PyFloat.of_int n = Raise e → e = OverflowError.
Proof.
  unfold PyFloat.of_int. destruct (binary_normalize _ _ _ _ _); congruence.
Qed.

Lemma to_int_raises (x : PyFloat.float) (e : exn) :
  PyFloat.to_int x = Raise e → e = OverflowError ∨ e = ValueError.
Proof. destruct x; simpl; intros [=]; auto. Qed.

Lemma locked_height_raises (w : Z) (ratio : PyFloat.float) (e : exn) :
  locked_height w ratio = Raise e →
  e = OverflowError ∨ e = ValueError ∨ e = ZeroDivisionError.
Proof.
  unfold locked_height, PyFloat.int_div, PyFloat.div.
  destruct (PyFloat.of_int w) as [f|e'] eqn:Hf; simpl.
  - destruct (PyFloat.is_zero ratio); simpl.
    + intros [= <-]. auto.
    + intros [|]%to_int_raises; auto.
  - intros [= <-]. left. by eapply of_int_raises.
Qed.

Lemma locked_width_raises (h : Z) (ratio : PyFloat.float) (e : exn) :
  locked_width h ratio = Raise e → e = OverflowError ∨ e = ValueError.
Proof.
  unfold locked_width, PyFloat.int_mul.
  destruct (PyFloat.of_int h) as [f|e'] eqn:Hf; simpl.
  - apply to_int_raises.
  - intros [= <-]. left. by eapply of_int_raises.
Qed.

(** What [on_dim_change] went through when it returns. *)
Lemma on_dim_change_inv (st st' : app) (source : string) :
  on_dim_change int_of_str st source = Ok st' →
  (original_image st = None ∧ st' = st) ∨
  (is_Some (original_image st) ∧
   (st' = set_preview_job (Some 100) st ∨
    (source = "width" ∧ aspect_locked st = true ∧
     ∃ w n, int_of_str (entry_width st) = Some w ∧
            locked_height w (aspect_ratio st) = Ok n ∧
            st' = set_preview_job (Some 100)
                    (set_entry_height (str_int n) st)) ∨
    (source ≠ "width" ∧ aspect_locked st = true ∧
     ∃ h n, int_of_str (entry_height st) = Some h ∧
            locked_width h (aspect_ratio st) = Ok n ∧
            st' = set_preview_job (Some 100)
                    (set_entry_width (str_int n) st)))).
Proof.
  unfold on_dim_change, recompute_locked.
  destruct (original_image st) as [img|]; [|intros [= <-]; auto].
  intros H. right. split; [done|].
  destruct (aspect_locked st); [|injection H as <-; auto].
  destruct (String.eqb_spec source "width") as [->|Hne].
  - destruct (int_of_str (entry_width st)) as [w|];
      [|injection H as <-; auto].
    destruct (locked_height w (aspect_ratio st)) as [n|e] eqn:Hn; simpl in H.
    + injection H as <-. right. left. eauto 10.
    + destruct e; simpl in H; try done; injection H as <-; auto.
  - destruct (int_of_str (entry_height st)) as [h|];
      [|injection H as <-; auto].
    destruct (locked_width h (aspect_ratio st)) as [n|e] eqn:Hn; simpl in H.
    + injection H as <-. right. right. eauto 10.
    + destruct e; simpl in H; try done; injection H as <-; auto.
Qed.

Lemma on_dim_change_raise (st : app) (source : string) (e : exn) :
  on_dim_change int_of_str st source = Raise e →
  e = OverflowError ∧ aspect_locked st = true.
Proof.
  unfold on_dim_change, recompute_locked.
  destruct (original_image st) as [img|]; [|done].
  destruct (aspect_locked st); [|done].
  destruct (String.eqb source "width").
  - destruct (int_of_str (entry_width st)) as [w|]; [|done].
    destruct (locked_height w (aspect_ratio st)) as [n|e'] eqn:Hn; [done|].
    apply locked_height_raises in Hn as [->|[->| ->]]; simpl; try done.
    by intros [= <-].
  - destruct (int_of_str (entry_height st)) as [h|]; [|done].
    destruct (locked_width h (aspect_ratio st)) as [n|e'] eqn:Hn; [done|].
    apply locked_width_raises in Hn as [->| ->]; simpl; try done.
    by intros [= <-].
Qed.

Lemma toggle_aspect_lock_raise (st : app) (e : exn) :
  toggle_aspect_lock int_of_str st = Raise e → e = OverflowError.
Proof.
  unfold toggle_aspect_lock.
  destruct (aspect_locked st); [|done].
  destruct (original_image st); [|done].
  destruct (int_of_str (entry_width st)) as [w|]; [|done].
  destruct (locked_width w (aspect_ratio st)) as [n|e'] eqn:Hn; [done|].
  apply locked_width_raises in Hn as [->| ->]; simpl; try done.
  by intros [= <-].
Qed.

(** X7. [on_dim_change] never rewrites the entry it was called for,
    and changes nothing but the other entry and the pending debounced
    call; with the lock off, or without an image, no entry changes; and
    without an image nothing changes at all. *)
Theorem on_dim_change_frame (st st' : app) (source : string) :
  on_dim_change int_of_str st source = Ok st' →
  (∃ width height job,
     st' = set_preview_job job
             (set_entry_height height (set_entry_width width st)) ∧
     (source = "width" → width = entry_width st) ∧
     (source ≠ "width" → height = entry_height st) ∧
     (aspect_locked st = false → 
      width = entry_width st ∧ height = entry_height st)) ∧
  (original_image st = None → st' = st).
Proof.
  intros H. apply on_dim_change_inv in H
    as [[Ho ->]|[Ho [->|[(->&Hl&w&n&_&_&->)|(Hne&Hl&h&n&_&_&->)]]]].
  - split; [|done].
    exists (entry_width st), (entry_height st), (preview_job st).
    by destruct st.
  - split; [|by intros Hn; rewrite Hn in Ho; destruct Ho].
    exists (entry_width st), (entry_height st), (Some 100).
    by destruct st.
  - split; [|by intros Hn; rewrite Hn in Ho; destruct Ho].
    exists (entry_width st), (str_int n), (Some 100).
    repeat split; try done; intros; congruence.
  - split; [|by intros Hn; rewrite Hn in Ho; destruct Ho].
    exists (str_int n), (entry_height st), (Some 100).
    repeat split; try done; intros; congruence.
Qed.

(** X8. The callbacks of the dimension controls swallow [ValueError]
    and [ZeroDivisionError]: the only exception that leaves
    [on_dim_change], [swap_dimensions] or [toggle_aspect_lock] is
    [OverflowError], and only with the lock on. *)
Theorem dimension_callbacks_raise (st : app) (source : string) (e : exn) :
  (on_dim_change int_of_str st source = Raise e →
   e = OverflowError ∧ aspect_locked st = true) ∧
  (swap_dimensions int_of_str st = Raise e →
   e = OverflowError ∧ aspect_locked st = true) ∧
  (toggle_aspect_lock int_of_str st = Raise e →
   e = OverflowError ∧ aspect_locked st = true).
Proof.
  split; [apply on_dim_change_raise|]. split.
  - unfold swap_dimensions. intros H. by apply on_dim_change_raise in H.
  - intros H. split; [by eapply toggle_aspect_lock_raise|].
    unfold toggle_aspect_lock in H. by destruct (aspect_locked st).
Qed.

(** X9. With the lock on, a width whose height comes out below 1 is
    written to the height entry all the same; the dimensions are then
    refused and the preview stands still. *)
Theorem locked_height_below_one (st : app) (img : image) (w new_h : Z) :
  original_image st = Some img →
  aspect_locked st = true →
  int_of_str (entry_width st) = Some w →
  locked_height w (aspect_ratio st) = Ok new_h →
  new_h < 1 →
  int_of_str (str_int new_h) = Some new_h →
  ∃ st', on_dim_change int_of_str st "width" = Ok st' ∧
         entry_height st' = str_int new_h ∧
         get_dimensions int_of_str st' = None ∧
         update_preview int_of_str st' = st'.
Proof.
  intros Himg Hlock Hw Hh Hlt Hrt. eexists. split.
  { unfold on_dim_change, recompute_locked. rewrite Himg, Hlock. simpl.
    rewrite Hw, Hh. done. }
  split; [done|].
  assert (get_dimensions int_of_str
            (set_preview_job (Some 100) (set_entry_height (str_int new_h) st))
          = None) as Hd.
  { unfold get_dimensions. simpl. rewrite Hw, Hrt. simpl.
    rewrite (proj2 (Z.ltb_lt new_h 1) Hlt). by rewrite orb_true_r. }
  split; [done|]. unfold update_preview. rewrite Hd. simpl. by rewrite Himg.
Qed.

(** X5. Text the key validation accepts can still be refused as a
    dimension: with an entry that is empty, or holds a number below 1,
    [get_dimensions] answers nothing and [update_preview] leaves
    everything as it was. *)
Theorem accepted_text_refused (st : app) (text : string) :
  entry_width st = text ∨ entry_height st = text →
  (text = "" ∧ int_of_str "" = None) ∨
  (∃ n, int_of_str text = Some n ∧ n < 1) →
  validate_dimension_input int_of_str text = true ∧
  get_dimensions int_of_str st = None ∧
  update_preview int_of_str st = st.
Proof.
  intros Hentry Hbad.
  assert (get_dimensions int_of_str st = None) as Hd.
  { unfold get_dimensions.
    assert (int_of_str text = None ∨ ∃ n, int_of_str text = Some n ∧ n < 1)
      as Hparse.
    { destruct Hbad as [[-> ?]|?]; auto. }
    destruct Hentry as [-> | ->], Hparse as [Hnone|(n&Hn&Hlt)];
      rewrite ?Hnone, ?Hn; simpl; try done.
    - destruct (int_of_str (entry_height st)); simpl; [|done].
      by rewrite (proj2 (Z.ltb_lt n 1) Hlt).
    - by destruct (int_of_str (entry_width st)).
    - destruct (int_of_str (entry_width st)); simpl; [|done].
      by rewrite (proj2 (Z.ltb_lt n 1) Hlt), orb_true_r. }
  repeat split; [|done|].
  - unfold validate_dimension_input.
    destruct Hbad as [[-> _]|(n&->&_)]; [done|].
    by destruct (String.eqb text "").
  - unfold update_preview. rewrite Hd. by destruct (original_image st).
Qed.

(** X10. [toggle_aspect_lock] does nothing with the lock off, without
    an image, or when the width entry holds no number.  Otherwise it
    writes [int(w * ratio)] to the height entry and refreshes the
    preview; the width entry, the image and the mode are as before. *)
Theorem toggle_aspect_lock_effect (st : app) :
  (aspect_locked st = false ∨ original_image st = None ∨
   int_of_str (entry_width st) = None →
   toggle_aspect_lock int_of_str st = Ok st) ∧
  (∀ w h,
     aspect_locked st = true → is_Some (original_image st) →
     int_of_str (entry_width st) = Some w →
     locked_width w (aspect_ratio st) = Ok h →
     ∃ st', toggle_aspect_lock int_of_str st = Ok st' ∧
            st' = update_preview int_of_str
                    (set_entry_height (str_int h) st) ∧
            entry_height st' = str_int h ∧
            entry_width st' = entry_width st ∧
            same_source st st' ∧
            resize_mode st' = resize_mode st).
Proof.
  unfold toggle_aspect_lock. split.
  - intros [->|[->| ->]]; [done|by destruct (aspect_locked st)|].
    by destruct (aspect_locked st), (original_image st).
  - intros w h -> [img ->] -> ->. eexists. split; [done|]. split; [done|].
    destruct (update_preview_settings int_of_str
                (set_entry_height (str_int h) st))
      as (?&?&?&?&?&?&?&?&?&?&?&?).
    repeat split; done.
Qed.

(** X11. [reset_dimensions] writes the size on record to the two
    entries; read back, they give that size when it is at least 1 x 1
    and [int] reads what [str] wrote.  Without an image nothing
    changes. *)
Theorem reset_dimensions_reads_back (st : app) :
  (original_image st = None → reset_dimensions int_of_str st = st) ∧
  (is_Some (original_image st) →
   entry_width (reset_dimensions int_of_str st) = str_int (orig_width st) ∧
   entry_height (reset_dimensions int_of_str st) = str_int (orig_height st) ∧
   same_source st (reset_dimensions int_of_str st) ∧
   (1 ≤ orig_width st → 1 ≤ orig_height st →
    int_of_str (str_int (orig_width st)) = Some (orig_width st) →
    int_of_str (str_int (orig_height st)) = Some (orig_height st) →
    get_dimensions int_of_str (reset_dimensions int_of_str st)
      = Some (orig_width st, orig_height st))).
Proof.
  unfold reset_dimensions. split; [by intros ->|]. intros [img ->].
  match goal with
  | |- context [update_preview int_of_str ?s] =>
    destruct (update_preview_settings int_of_str s)
      as (Ho&?&?&?&Hw&Hh&?&Hew&Heh&?&?&?)
  end.
  repeat split; try done.
  intros Hw1 Hh1 Hrw Hrh. unfold get_dimensions. rewrite Hew, Heh. simpl.
  rewrite Hrw, Hrh. simpl.
  by rewrite (proj2 (Z.ltb_ge _ _) Hw1), (proj2 (Z.ltb_ge _ _) Hh1).
Qed.

(** X12. [swap_dimensions] puts the text of the height entry into the
    width entry.  With the lock off, or without an image, it puts the
    text of the width entry into the height entry as well, and a
    second swap restores both. *)
Theorem swap_dimensions_exchanges (st : app) :
  (∀ st', swap_dimensions int_of_str st = Ok st' →
          entry_width st' = entry_height st) ∧
  (aspect_locked st = false ∨ original_image st = None →
   ∃ st' st'',
     swap_dimensions int_of_str st = Ok st' ∧
     entry_width st' = entry_height st ∧
     entry_height st' = entry_width st ∧
     swap_dimensions int_of_str st' = Ok st'' ∧
     entry_width st'' = entry_width st ∧
     entry_height st'' = entry_height st).
Proof.
  unfold swap_dimensions. split.
  - intros st' H. apply on_dim_change_inv in H
      as [[Ho ->]|[Ho [->|[(_&Hl&w&n&_&_&->)|(Hne&_)]]]]; done.
  - intros Hoff.
    destruct (original_image st) as [img|] eqn:Ho.
    + destruct Hoff as [Hl|?]; [|done].
      exists (set_preview_job (Some 100) (swap_entries st)),
        (set_preview_job (Some 100)
           (swap_entries (set_preview_job (Some 100) (swap_entries st)))).
      unfold on_dim_change, swap_entries; simpl. rewrite Ho, Hl. simpl.
      repeat split.
    + exists (swap_entries st), (swap_entries (swap_entries st)).
      unfold on_dim_change, swap_entries; simpl. rewrite Ho.
      repeat split.
Qed.

(** X13. With the lock on and an image loaded, [swap_dimensions] does
    not exchange: the width entry takes the text of the height entry,
    and the height entry takes [int(h / ratio)] for the number [h]
    that text holds. *)
Theorem swap_dimensions_locked (st : app) (h n : Z) :
  is_Some (original_image st) →
  aspect_locked st = true →
  int_of_str (entry_height st) = Some h →
  locked_height h (aspect_ratio st) = Ok n →
  ∃ st', swap_dimensions int_of_str st = Ok st' ∧
         entry_width st' = entry_height st ∧
         entry_height st' = str_int n.
Proof.
  intros [img Ho] Hl Hh Hn.
  unfold swap_dimensions, on_dim_change, recompute_locked, swap_entries.
  simpl. rewrite Ho, Hl. simpl. rewrite Hh, Hn. simpl. by eexists.
Qed.

(** *** Sequences of actions *)

Lemma same_source_refl (st : app) : same_source st st.
Proof. by repeat split. Qed.

Lemma same_source_trans (st1 st2 st3 : app) :
  same_source st1 st2 → same_source st2 st3 → same_source st1 st3.
Proof.
  intros (?&?&?&?&?) (?&?&?&?&?). repeat split; congruence.
Qed.

Lemma same_settings_source (st st' : app) :
  same_settings st st' → same_source st st'.
Proof. intros (?&?&?&?&?&?&?&?&?&?&?&?). by repeat split. Qed.

Lemma on_dim_change_source (st st' : app) (source : string) :
  on_dim_change int_of_str st source = Ok st' → same_source st st'.
Proof.
  intros H. apply on_dim_change_inv in H
    as [[Ho ->]|[Ho [->|[(_&_&w&n&_&_&->)|(_&_&h&n&_&_&->)]]]];
    by repeat split.
Qed.

Lemma toggle_aspect_lock_source (st st' : app) :
  toggle_aspect_lock int_of_str st = Ok st' → same_source st st'.
Proof.
  unfold toggle_aspect_lock.
  destruct (aspect_locked st); [|intros [= <-]; apply same_source_refl].
  destruct (original_image st) eqn:Ho;
    [|intros [= <-]; apply same_source_refl].
  destruct (int_of_str (entry_width st)) as [w|];
    [|intros [= <-]; apply same_source_refl].
  destruct (locked_width w (aspect_ratio st)) as [n|[]];
    try done; try (intros [= <-]; apply same_source_refl).
  intros [= <-].
  eapply same_source_trans;
    [|apply same_settings_source, update_preview_settings].
  by repeat split.
Qed.

Lemma perform_source (st : app) (a : action) :
  is_Apri a = false → same_source st (perform int_of_str st a).
Proof.
  destruct a as [source proposed|on|mode| | | |path opened|fr canvas|];
    simpl; try done; intros _.
  - set (st1 := if validate_dimension_input int_of_str proposed then _
                else _).
    assert (same_source st st1) as H1.
    { unfold st1. destruct (validate_dimension_input _ _); [|by repeat split].
      by destruct (String.eqb source "width"); repeat split. }
    destruct (on_dim_change int_of_str st1 source) as [st'|e] eqn:Hd;
      simpl; [|done].
    eapply same_source_trans; [exact H1|]. by eapply on_dim_change_source.
  - destruct (toggle_aspect_lock _ _) as [st'|e] eqn:Ht; simpl.
    + eapply same_source_trans; [|by eapply toggle_aspect_lock_source].
      by repeat split.
    + by repeat split.
  - unfold on_mode_change.
    eapply same_source_trans;
      [|apply same_settings_source, update_preview_settings].
    by repeat split.
  - unfold reset_dimensions. destruct (original_image st) eqn:Ho;
      [|apply same_source_refl].
    eapply same_source_trans;
      [|apply same_settings_source, update_preview_settings].
    by repeat split.
  - unfold swap_dimensions.
    destruct (on_dim_change _ _ _) as [st'|e] eqn:Hd; simpl.
    + eapply same_source_trans; [|by eapply on_dim_change_source].
      by repeat split.
    + by repeat split.
  - apply same_settings_source, update_preview_settings.
  - unfold on_window_resize. by destruct fr; repeat split.
  - apply same_settings_source, update_preview_settings.
Qed.

(** X14. Whatever the user does with the controls, short of opening a
    file, the loaded image, the size and ratio on record and the stored
    list of recent files stay as they are. *)
Theorem run_keeps_source (st : app) (actions : list action) :
  Forall (λ a, is_Apri a = false) actions →
  same_source st (run int_of_str st actions).
Proof.
  unfold run. revert st.
  induction actions as [|a actions IH]; intros st Hall; simpl.
  { apply same_source_refl. }
  apply Forall_cons in Hall as [Ha Hall].
  eapply same_source_trans; [by apply perform_source|by apply IH].
Qed.

Context {L : ImagingLaws B}.

Lemma consistent_same (st st' : app) :
  original_image st' = original_image st →
  orig_width st' = orig_width st → orig_height st' = orig_height st →
  processed_image st' = processed_image st →
  consistent st → consistent st'.
Proof.
  unfold consistent. intros -> -> -> ->. done.
Qed.

Lemma update_preview_consistent (st : app) :
  consistent st → consistent (update_preview int_of_str st).
Proof.
  intros (H1&H2&H3).
  destruct (update_preview_settings int_of_str st)
    as (Ho&_&_&_&Hw&Hh&_).
  split; [|split].
  - intros Hnone. rewrite Ho in Hnone. unfold update_preview.
    rewrite Hnone. auto.
  - rewrite Ho, Hw, Hh. done.
  - intros p Hp.
    apply (update_preview_processed_nonempty int_of_str) in Hp
      as [Hp|Hp]; [by apply H3|done].
Qed.

Lemma on_dim_change_consistent (st st' : app) (source : string) :
  on_dim_change int_of_str st source = Ok st' →
  consistent st → consistent st'.
Proof.
  intros H. apply on_dim_change_inv in H
    as [[Ho ->]|[Ho [->|[(_&_&w&n&_&_&->)|(_&_&h&n&_&_&->)]]]];
    try done; by apply consistent_same.
Qed.

Lemma toggle_aspect_lock_consistent (st st' : app) :
  toggle_aspect_lock int_of_str st = Ok st' →
  consistent st → consistent st'.
Proof.
  unfold toggle_aspect_lock.
  destruct (aspect_locked st); [|by intros [= <-]].
  destruct (original_image st) eqn:Ho; [|by intros [= <-]].
  destruct (int_of_str (entry_width st)) as [w|]; [|by intros [= <-]].
  destruct (locked_width w (aspect_ratio st)) as [n|[]];
    try done; try (by intros [= <-]).
  intros [= <-] Hc. apply update_preview_consistent.
  by eapply consistent_same; [..|exact Hc].
Qed.

Lemma load_image_consistent (st : app) (filepath : option string)
    (opened : result image) :
  consistent st → consistent (load_image int_of_str st filepath opened).
Proof.
  intros Hc. unfold load_image. destruct filepath as [path|]; [|done].
  destruct opened as [img|e]; [|by eapply consistent_same; [..|exact Hc]].
  set (img' := if preserve_exif st then _ else _).
  destruct (img_size img') as [width height] eqn:Hsize.
  destruct Hc as (_&_&H3).
  destruct (load_aspect_ratio width height) as [ratio|e].
  - match goal with
    | |- consistent (set_status _ (update_preview _ ?s)) =>
      assert (consistent s) as Hs
    end.
    { split; [done|]. split; [|done]. simpl. intros ? [= <-]. done. }
    apply (update_preview_consistent) in Hs.
    by eapply consistent_same; [..|exact Hs].
  - split; [done|]. split; [|done]. simpl. intros ? [= <-]. done.
Qed.

Lemma perform_consistent (st : app) (a : action) :
  consistent st → consistent (perform int_of_str st a).
Proof.
  intros Hc.
  destruct a as [source proposed|on|mode| | | |path opened|fr canvas|];
    simpl.
  - set (st1 := if validate_dimension_input int_of_str proposed then _
                else _).
    assert (consistent st1) as H1.
    { unfold st1. destruct (validate_dimension_input _ _); [|done].
      by destruct (String.eqb source "width");
        (eapply consistent_same; [..|exact Hc]). }
    destruct (on_dim_change int_of_str st1 source) as [st'|e] eqn:Hd;
      simpl; [|done].
    by eapply on_dim_change_consistent.
  - assert (consistent (set_aspect_locked on st)) as H1
      by (by eapply consistent_same; [..|exact Hc]).
    destruct (toggle_aspect_lock _ _) as [st'|e] eqn:Ht; simpl; [|done].
    by eapply toggle_aspect_lock_consistent.
  - apply update_preview_consistent.
    by eapply consistent_same; [..|exact Hc].
  - unfold reset_dimensions. destruct (original_image st) eqn:Ho; [|done].
    apply update_preview_consistent.
    by eapply consistent_same; [..|exact Hc].
  - assert (consistent (swap_entries st)) as H1
      by (by eapply consistent_same; [..|exact Hc]).
    unfold swap_dimensions.
    destruct (on_dim_change _ _ _) as [st'|e] eqn:Hd; simpl; [|done].
    by eapply on_dim_change_consistent.
  - by apply update_preview_consistent.
  - by apply load_image_consistent.
  - unfold on_window_resize.
    by destruct fr; (eapply consistent_same; [..|exact Hc]).
  - by apply update_preview_consistent.
Qed.

(** X15. From start-up on, whatever is opened and whatever the user
    does with the controls: there is a processed image only while an
    image is loaded, the size on record is the size of the loaded
    image, and the processed image, the one [save_image] writes, has at
    least one pixel. *)
Theorem run_consistent (canvas : Z * Z) (stored : option (list string))
    (actions : list action) :
  consistent (run int_of_str (init canvas stored) actions).
Proof.
  assert (consistent (init canvas stored)) as Hinit by (by repeat split).
  unfold run. revert Hinit. generalize (init canvas stored).
  induction actions as [|a actions IH]; intros st Hc; simpl; [done|].
  by apply IH, perform_consistent.
Qed.

End ControlsProperties.

(** ** The recent files, stored and on screen *)

Section RecentProperties.

Implicit Types (l : list string) (x : string).

Lemma list_remove_sublist x l : list_remove x l `sublist_of` l.
Proof.
  induction l as [|y l IH]; simpl; [done|].
  case_decide; [by apply sublist_cons|by apply sublist_skip].
Qed.

Lemma list_remove_other x y l : y ≠ x → y ∈ l → y ∈ list_remove x l.
Proof.
  intros Hne. induction l as [|z l IH]; simpl; [done|].
  intros [->|Hin]%elem_of_cons.
  - rewrite decide_False by done. apply list_elem_of_here.
  - case_decide; [done|]. apply list_elem_of_further. by apply IH.
Qed.

Lemma filter_none (P : string → Prop) `{∀ y, Decision (P y)} l :
  (∀ y, y ∈ l → ¬ P y) → filter P l = [].
Proof.
  induction l as [|y l IH]; intros Hall; [done|].
  rewrite filter_cons, decide_False by (apply Hall, list_elem_of_here).
  apply IH. intros z Hz. by apply Hall, list_elem_of_further.
Qed.

Lemma list_remove_length x l : (length (list_remove x l) ≤ length l)%nat.
Proof. apply sublist_length, list_remove_sublist. Qed.

Lemma list_remove_length_in x l :
  x ∈ l → S (length (list_remove x l)) = length l.
Proof.
  induction l as [|y l IH]; simpl; [by intros ?%elem_of_nil|].
  intros Hin. case_decide as Hxy; [done|].
  apply elem_of_cons in Hin as [?|Hin]; [done|]. simpl. by rewrite IH.
Qed.

(** X16. Inserting the path that is already first changes nothing:
    opening the same file again, or saving over it, leaves the stored
    list as the first insertion left it. *)
Theorem add_recent_file_again (stored : option (list string)) x :
  add_recent_file (add_recent_file stored x) x = add_recent_file stored x.
Proof.
  rewrite !add_recent_file_eq. simpl.
  rewrite decide_True by done.
  by rewrite take_take, Nat.min_id.
Qed.

(** X17. For any stored list, the list written back starts with the
    path inserted and has at most 5 paths; what follows the first path
    are paths of the stored list, in the order they had; no stored path
    is dropped while there is room for it; and a stored list without a
    repeated path gives one without a repeated path. *)
Theorem add_recent_file_keeps_order (stored : option (list string)) x :
  ∃ l, add_recent_file stored x = Some l ∧
       head l = Some x ∧
       (length l ≤ 5)%nat ∧
       tail l `sublist_of` default [] stored ∧
       ((length (default [] stored) < 5)%nat →
        ∀ y, y ∈ default [] stored → y ∈ l) ∧
       (NoDup (default [] stored) → NoDup l).
Proof.
  rewrite add_recent_file_eq. eexists. split; [done|].
  set (recent := default [] stored). simpl.
  split; [done|]. split; [rewrite length_take; lia|].
  split; [|split].
  - etrans; [apply sublist_take|apply list_remove_sublist].
  - intros Hlen y Hy. destruct (decide (y = x)) as [->|Hne].
    { apply list_elem_of_here. }
    apply list_elem_of_further. rewrite take_ge.
    + by apply list_remove_other.
    + pose proof (list_remove_length x recent). lia.
  - intros Hnd. apply NoDup_cons. split.
    + intros Hin. eapply elem_of_sublist in Hin; [|apply sublist_take].
      rewrite list_remove_NoDup in Hin by done.
      apply list_elem_of_filter in Hin as [? _]. done.
    + eapply sublist_NoDup; [|apply sublist_take].
      eapply sublist_NoDup; [|apply list_remove_sublist]. done.
Qed.

Variable path_exists : string → bool.
Variable path_name : string → string.

Lemma foldl_add_row_rows (lb : listbox) l :
  rows (foldl (add_row path_exists path_name) lb l) =
    rows lb ++
    ((λ f, if path_exists f then path_name f
           else path_name f +:+ " (mancante)") <$> l).
Proof.
  revert lb. induction l as [|f l IH]; intros lb; simpl.
  { by rewrite app_nil_r. }
  rewrite IH. unfold add_row.
  destruct (path_exists f); simpl; by rewrite <- app_assoc.
Qed.

Lemma foldl_add_row_paths (lb : listbox) l (name : string) :
  paths (foldl (add_row path_exists path_name) lb l) !! name =
    match last (filter (λ f, path_exists f = true ∧ path_name f = name) l) with
    | Some f => Some f
    | None => paths lb !! name
    end.
Proof.
  revert lb. induction l as [|f l IH] using rev_ind; intros lb; [done|].
  rewrite foldl_snoc, filter_app, filter_cons, filter_nil. unfold add_row at 1.
  destruct (decide (path_exists f = true ∧ path_name f = name))
    as [[Hex <-]|Hn].
  - rewrite Hex. simpl. by rewrite last_snoc, lookup_insert_eq.
  - rewrite app_nil_r. destruct (path_exists f) eqn:Hex; simpl; [|apply IH].
    rewrite lookup_insert_ne; [apply IH|]. intros Heq. by apply Hn.
Qed.

(** X18. The list on screen has one row for each stored path, in the
    stored order: the name of the file when the file exists, the name
    followed by " (mancante)" when it does not; none without a stored
    list. *)
Theorem load_recent_files_rows (stored : option (list string)) :
  rows (load_recent_files path_exists path_name stored) =
    (λ f, if path_exists f then path_name f
          else path_name f +:+ " (mancante)") <$> default [] stored.
Proof.
  destruct stored as [recent|]; simpl; [|done].
  by rewrite foldl_add_row_rows.
Qed.

Lemma contains_append (needle s t : string) :
  contains needle t = true → contains needle (s +:+ t) = true.
Proof.
  intros Ht. induction s as [|c s IH]; simpl; [done|].
  change (String.app s t) with (s +:+ t).
  rewrite IH. apply orb_true_r.
Qed.

Context {B : Imaging} {PL : Pathlib}.
Variable int_of_str : string → option Z.


(** X19. A double click on the row of a file that no longer exists
    loads nothing, and so does one on the row of a file whose name
    contains "(mancante)", and one without a selection. *)
Theorem on_recent_select_missing (st : app) (recent : list string)
    (i : nat) (f : string) (open : string → result image) :
  on_recent_select int_of_str st
    (load_recent_files path_exists path_name (Some recent)) None open = st ∧
  (recent !! i = Some f →
   path_exists f = false ∨ contains "(mancante)" (path_name f) = true →
   on_recent_select int_of_str st
     (load_recent_files path_exists path_name (Some recent)) (Some i) open
   = st).
Proof.
  split; [done|]. intros Hi Hbad. unfold on_recent_select, load_recent_files.
  rewrite foldl_add_row_rows. simpl.
  rewrite list_lookup_fmap, Hi. simpl.
  destruct (path_exists f) eqn:Hex.
  - destruct Hbad as [?|Hc]; [done|]. by rewrite Hc.
  - by rewrite contains_append.
Qed.

(** X20. A double click on the row of a file that exists loads the
    last stored path that exists and has the name in that row: the path
    of the row itself when no later stored file that exists has the
    same name.  Whatever is loaded from the list is a stored path of a
    file that exists. *)
Theorem on_recent_select_loads (st : app) (recent : list string)
    (i : nat) (f : string) (open : string → result image) :
  recent !! i = Some f →
  path_exists f = true →
  contains "(mancante)" (path_name f) = false →
  ∃ g, last (filter (λ g, path_exists g = true ∧ path_name g = path_name f)
               recent) = Some g ∧
       on_recent_select int_of_str st
         (load_recent_files path_exists path_name (Some recent)) (Some i) open
         = load_image int_of_str st (Some g) (open g) ∧
       g ∈ recent ∧ path_exists g = true ∧ path_name g = path_name f ∧
       ((∀ j h, (i < j)%nat → recent !! j = Some h →
                path_exists h = true → path_name h ≠ path_name f) →
        g = f).
Proof.
  intros Hi Hex Hname.
  set (P := λ g, path_exists g = true ∧ path_name g = path_name f).
  assert (f ∈ filter P recent) as Hin.
  { apply list_elem_of_filter. split; [done|]. by eapply list_elem_of_lookup_2. }
  destruct (last (filter P recent)) as [g|] eqn:Hlast.
  2: { apply last_None in Hlast. rewrite Hlast in Hin.
       by apply elem_of_nil in Hin. }
  exists g. split; [done|].
  pose proof (last_Some_elem_of _ _ Hlast) as Hg.
  apply list_elem_of_filter in Hg as [[Hgex Hgname] Hgin].
  split; [|repeat split; try done].
  - unfold on_recent_select, load_recent_files.
    rewrite foldl_add_row_rows. simpl.
    rewrite list_lookup_fmap, Hi. simpl. rewrite Hex, Hname.
    rewrite foldl_add_row_paths. fold P. by rewrite Hlast.
  - intros Hlater.
    apply last_Some in Hlast as [pre Hpre].
    apply take_drop_middle in Hi.
    rewrite <- Hi in Hpre. rewrite filter_app, filter_cons in Hpre.
    rewrite decide_True in Hpre by done.
    assert (filter P (drop (S i) recent) = []) as Hnil.
    { apply filter_none. intros h [j Hj]%list_elem_of_lookup [Hhex Hhname].
      rewrite lookup_drop in Hj.
      by apply (Hlater (S i + j)%nat h ltac:(lia) Hj Hhex). }
    rewrite Hnil in Hpre.
    by apply app_inj_tail in Hpre as [_ ->].
Qed.

End RecentProperties.

(** ** Loading *)

Section Loading.

Context {B : Imaging} {P : Pathlib}.
Variable int_of_str : string → option Z.

(** X21. A load that fails, because the file cannot be opened or
    because the ratio cannot be computed, shows in the status and
    leaves the preview, the two entries, the ratio, the mode and the
    stored recent files in place; when it is the open that fails, the
    image loaded before stays as well.  A dismissed dialog changes
    nothing. *)
Theorem load_image_failure (st : app) (path : string)
    (opened : result image) :
  let st' := load_image int_of_str st (Some path) opened in
  load_image int_of_str st None opened = st ∧
  (status st' = ErroreCaricamento →
   processed_image st' = processed_image st ∧
   canvas_image st' = canvas_image st ∧
   entry_width st' = entry_width st ∧
   entry_height st' = entry_height st ∧
   aspect_ratio st' = aspect_ratio st ∧
   resize_mode st' = resize_mode st ∧
   recent_files st' = recent_files st) ∧
  (∀ e, opened = Raise e →
        st' = set_status ErroreCaricamento st ∧ same_source st st').
Proof.
  simpl. split; [done|]. split.
  - unfold load_image. destruct opened as [img|e]; [|done].
    destruct (img_size _) as [width height].
    by destruct (load_aspect_ratio width height).
  - by intros e ->.
Qed.

(** X22. A load that went through: the image held is the opened one,
    normalised when the option is on and as opened when it is off; the
    entries show its size; [str(Path(filepath))], the path in normal
    form, is inserted in the stored recent files; the mode and the lock
    are as before.  Read back, the entries give that size when it is at
    least 1 x 1 and [int] reads what [str] wrote. *)
Theorem load_image_success (st : app) (path : string) (img : image) :
  let st' := load_image int_of_str st (Some path) (Ok img) in
  let loaded := if preserve_exif st then apply_exif_orientation img else img in
  status st' = Caricato path →
  original_image st' = Some loaded ∧
  entry_width st' = str_int (img_size loaded).1 ∧
  entry_height st' = str_int (img_size loaded).2 ∧
  recent_files st' = add_recent_file (recent_files st) (Path_str path) ∧
  resize_mode st' = resize_mode st ∧
  aspect_locked st' = aspect_locked st ∧
  (1 ≤ (img_size loaded).1 → 1 ≤ (img_size loaded).2 →
   int_of_str (str_int (img_size loaded).1) = Some (img_size loaded).1 →
   int_of_str (str_int (img_size loaded).2) = Some (img_size loaded).2 →
   get_dimensions int_of_str st' = Some (img_size loaded)).
Proof.
  intros st' loaded. subst st'. unfold load_image. fold loaded.
  destruct (img_size loaded) as [width height]. simpl.
  destruct (load_aspect_ratio width height) as [ratio|e]; [|done].
  intros _.
  match goal with
  | |- context [update_preview int_of_str ?s] =>
    destruct (update_preview_settings int_of_str s)
      as (Ho&Hm&Hl&_&_&_&_&Hew&Heh&_&_&Hr)
  end.
  unfold set_status. simpl in *.
  repeat split; try done.
  intros Hw Hh Hrw Hrh. unfold get_dimensions. simpl.
  rewrite Hew, Heh. simpl. rewrite Hrw, Hrh. simpl.
  by rewrite (proj2 (Z.ltb_ge _ _) Hw), (proj2 (Z.ltb_ge _ _) Hh).
Qed.

Context {L : ImagingLaws B}.

(** X23. Normalising the orientation keeps the size or exchanges
    width and height; the number of pixels is the same. *)
Theorem apply_exif_orientation_size (img : image) :
  (img_size (apply_exif_orientation img) = img_size img ∨
   img_size (apply_exif_orientation img) = swap_size (img_size img)) ∧
  (img_size (apply_exif_orientation img)).1 *
  (img_size (apply_exif_orientation img)).2
  = (img_size img).1 * (img_size img).2.
Proof.
  assert (img_size (apply_exif_orientation img) = img_size img ∨
          img_size (apply_exif_orientation img) = swap_size (img_size img))
    as Hsize.
  { unfold apply_exif_orientation. rewrite exif_rotation_tag.
    unfold Spec.orientation_rotation.
    destruct (Image_getexif img) as [o|e]; [|repeat case_decide; auto].
    repeat case_decide; auto.
    - destruct (Image_rotate img 180) eqn:Hr; auto.
      left. by apply rotate_180_size.
    - destruct (Image_rotate img 270) eqn:Hr; auto.
      right. by apply rotate_270_size.
    - destruct (Image_rotate img 90) eqn:Hr; auto.
      right. by apply rotate_90_size. }
  split; [done|]. destruct Hsize as [->| ->]; [done|]. simpl. lia.
Qed.

Context {M : ModeLaws B}.

(** X24. The fit mode answers an image with an alpha channel, mode
    RGBA, exactly for sources in mode RGBA or P; any other source,
    whatever its mode, comes out in mode RGB. *)
Theorem process_fit_mode (img out : image) (target : Z * Z) :
  process_fit img target = Ok out →
  img_mode out = (if bool_decide (img_mode img ∈ ["RGBA"; "P"])
                  then "RGBA" else "RGB").
Proof.
  intros Hout.
  apply process_fit_inv in Hout as (scale&new_size&resized&bg&_&_&_&_&Hbg&_&->).
  rewrite paste_mode. unfold fit_background in Hbg.
  case_bool_decide; by eapply new_mode.
Qed.

End Loading.

(** ** Saving *)

Section SavingProperties.

Context {B : Imaging} {O : ImagingOutput B} {P : Pathlib}.
Variable suffix : string → string.

Lemma save_image_inv (st : app) (save_path : option string) :
  match written (save_image suffix st save_path) with
  | Some (path, img, save_kwargs) =>
    save_path = Some path ∧
    Image_save img path save_kwargs = Ok () ∧
    report (save_image suffix st save_path) = Salvato path ∧
    recent_saved (save_image suffix st save_path)
      = add_recent_file (recent_files st) (Path_str path) ∧
    ∃ processed,
      processed_image st = Some processed ∧
      save_format (suffix path) processed = Ok (img, save_kwargs)
  | None =>
    recent_saved (save_image suffix st save_path) = recent_files st ∧
    ∀ path, report (save_image suffix st save_path) ≠ Salvato path
  end.
Proof.
  unfold save_image.
  destruct (processed_image st) as [processed|]; [|done].
  destruct save_path as [path|]; [|done].
  destruct (save_format (suffix path) processed) as [[img kw]|e] eqn:Hf;
    simpl; [|done].
  destruct (Image_save img path kw) as [[]|e] eqn:Hs; simpl; [|done].
  eauto 10.
Qed.

(** X25. [save_image] writes a file only when there is a processed
    image, a path was chosen and the backend's [save] returned;
    [str(Path(save_path))], the path in normal form, then goes to the
    front of the stored recent files and the status says so.  In every other case nothing is written, the
    stored list is as before, and no success is reported.  For an
    extension other than [.jpg] and [.jpeg], what is written is the
    processed image itself. *)
Theorem save_image_writes (st : app) (save_path : option string) :
  match written (save_image suffix st save_path) with
  | Some (path, img, save_kwargs) =>
    save_path = Some path ∧
    Image_save img path save_kwargs = Ok () ∧
    report (save_image suffix st save_path) = Salvato path ∧
    recent_saved (save_image suffix st save_path)
      = add_recent_file (recent_files st) (Path_str path) ∧
    (suffix path ∉ [".jpg"; ".jpeg"] → processed_image st = Some img)
  | None =>
    recent_saved (save_image suffix st save_path) = recent_files st ∧
    ∀ path, report (save_image suffix st save_path) ≠ Salvato path
  end.
Proof.
  pose proof (save_image_inv st save_path) as H.
  destruct (written _) as [[[path img] kw]|]; [|done].
  destruct H as (?&?&?&?&processed&Hp&Hf). repeat split; try done.
  intros Hext. rewrite Hp. f_equal. unfold save_format in Hf.
  rewrite bool_decide_eq_false_2 in Hf by done.
  destruct (String.eqb _ ".png"); [congruence|].
  destruct (String.eqb _ ".webp"); congruence.
Qed.

Context {L : ImagingLaws B} {M : ModeLaws B} {OL : OutputLaws B O}.

Lemma flatten_for_jpeg_inv (img out : image) :
  flatten_for_jpeg img = Ok out →
  img_mode out = "RGB" ∧ img_size out = img_size img.
Proof.
  unfold flatten_for_jpeg. case_bool_decide as Hmode.
  - intros H. apply bind_Ok in H as (bg&Hbg&H).
    pose proof (new_mode _ _ _ _ Hbg) as Hbm.
    pose proof (new_size _ _ _ _ Hbg) as Hbs.
    destruct (String.eqb _ "RGBA").
    + apply bind_Ok in H as (mask&_&H).
      rewrite (paste_mask_mode _ _ _ _ H), (paste_mask_size _ _ _ _ H).
      done.
    + by injection H as <-.
  - destruct (String.eqb_spec (img_mode img) "RGB") as [Heq|Hne]; simpl.
    + by intros [= <-].
    + intros [= <-]. by rewrite convert_mode, convert_size.
Qed.

(** X26. What is written under the extension [.jpg] or [.jpeg] is in
    mode RGB, whatever the mode of the processed image, has the size of
    the processed image, and is saved with quality 95, optimised. *)
Theorem save_image_jpeg (st : app) (path written_path : string)
    (img : image) (save_kwargs : list save_option) :
  suffix path ∈ [".jpg"; ".jpeg"] →
  written (save_image suffix st (Some path))
    = Some (written_path, img, save_kwargs) →
  written_path = path ∧
  img_mode img = "RGB" ∧
  save_kwargs = [Quality 95; Optimize true] ∧
  ∃ processed, processed_image st = Some processed ∧
               img_size img = img_size processed.
Proof.
  intros Hext Hw. pose proof (save_image_inv st (Some path)) as H.
  rewrite Hw in H. destruct H as ([= <-]&_&_&_&processed&Hp&Hf).
  unfold save_format in Hf. rewrite bool_decide_eq_true_2 in Hf by done.
  apply bind_Ok in Hf as (flat&Hflat&[= <- <-]).
  apply flatten_for_jpeg_inv in Hflat as [Hm Hs]. eauto 10.
Qed.

End SavingProperties.

(** ** The reference backend meets the laws of modes and output *)

#[export] Instance pillow_mode_laws : ModeLaws Pillow.backend.
Proof.
  split; simpl; try done.
  intros m s c r. unfold Pillow.new.
  destruct (_ || _); [done|]. by intros [= <-].
Qed.

#[export] Instance pillow_output_laws :
  OutputLaws Pillow.backend PillowOutput.output.
Proof.
  split; simpl; intros bg im mask r; unfold PillowOutput.paste_mask;
    case_bool_decide; try done; by intros [= <-].
Qed.

(** ** The further properties at sample inputs *)

Section SceneSamples.

#[local] Existing Instance Pillow.backend.
#[local] Existing Instance PillowOutput.output.
#[local] Existing Instance Posix.pathlib.

(** A 1600 x 1200 image on a canvas of 800 x 600 is shown at half its
    size. *)
Lemma viewport_fit_never_enlarges_witness :
  ∃ preview,
    viewport_fit (800, 600) (1600, 1200)
      = Ok (PyFloat.min3 Scenes.half Scenes.half PyFloat.one, preview,
            center_offset (800, 600) preview) ∧
    0 ≤ preview.1 ≤ 1600 ∧ 0 ≤ preview.2 ≤ 1200 ∧
    (PyFloat.ltb (PyFloat.min3 Scenes.half Scenes.half PyFloat.one)
       PyFloat.one = false →
     preview = (1600, 1200)).
Proof.
  apply (viewport_fit_never_enlarges (800, 600) (1600, 1200)
           Scenes.half Scenes.half);
    simpl; try lia; vm_compute; reflexivity.
Defined.

Lemma draw_preview_shows_witness :
  ∃ shown,
    canvas_image (draw_preview Examples.started Scenes.large)
      = Some (0, 0, shown) ∧
    img_size shown = (800, 600) ∧
    img_mode shown ≠ "RGBA" ∧
    balanced (800, 600) (img_size shown) (0, 0).
Proof.
  eexists.
  apply (draw_preview_shows (L := pillow_laws) (M := pillow_mode_laws)
           Examples.started Scenes.large _ Scenes.half (800, 600) (0, 0));
    simpl; try lia; vm_compute; reflexivity.
Defined.

Lemma update_preview_frame_witness :
  update_preview Examples.int_of_str Examples.started = Examples.started ∧
  update_preview Examples.int_of_str Scenes.zero_typed = Scenes.zero_typed.
Proof.
  split.
  - apply (proj1 (proj2 (update_preview_frame Examples.int_of_str
                           Examples.started))).
    reflexivity.
  - apply (proj2 (proj2 (update_preview_frame Examples.int_of_str
                           Scenes.zero_typed))).
    vm_compute; reflexivity.
Defined.

Lemma update_preview_processed_witness :
  processed_image Examples.fitting = Some Scenes.wide_fitted ∨
  ∃ w h, get_dimensions Examples.int_of_str Examples.fitting = Some (w, h) ∧
         process_image Examples.fitting w h = Ok (Some Scenes.wide_fitted) ∧
         1 ≤ w ∧ 1 ≤ h ∧ img_size Scenes.wide_fitted = (w, h).
Proof.
  apply (update_preview_processed (L := pillow_laws) Examples.int_of_str
           Examples.fitting Scenes.wide_fitted).
  vm_compute; reflexivity.
Defined.

Lemma update_preview_installs_witness :
  ∃ p, processed_image (update_preview Examples.int_of_str Scenes.previewed)
       = Some p ∧
       img_size p = (4, 3).
Proof.
  apply (update_preview_installs (L := pillow_laws) Examples.int_of_str
           Scenes.previewed 4 3).
  - by eexists.
  - vm_compute; reflexivity.
  - left. reflexivity.
Defined.

Lemma accepted_text_refused_witness :
  validate_dimension_input Examples.int_of_str "0" = true ∧
  get_dimensions Examples.int_of_str Scenes.zero_typed = None ∧
  update_preview Examples.int_of_str Scenes.zero_typed = Scenes.zero_typed.
Proof.
  apply (accepted_text_refused Examples.int_of_str Scenes.zero_typed "0").
  - left. reflexivity.
  - right. exists 0. split; [vm_compute; reflexivity|lia].
Defined.

Lemma on_dim_change_frame_witness :
  (∃ width height job,
     set_preview_job (Some 100) (set_entry_height "1" Examples.width_typed)
       = set_preview_job job
           (set_entry_height height
              (set_entry_width width Examples.width_typed)) ∧
     ("width" = "width" → width = entry_width Examples.width_typed) ∧
     ("width" ≠ "width" → height = entry_height Examples.width_typed) ∧
     (aspect_locked Examples.width_typed = false →
      width = entry_width Examples.width_typed ∧
      height = entry_height Examples.width_typed)) ∧
  (original_image Examples.width_typed = None →
   set_preview_job (Some 100) (set_entry_height "1" Examples.width_typed)
   = Examples.width_typed).
Proof.
  apply (on_dim_change_frame Examples.int_of_str Examples.width_typed
           (set_preview_job (Some 100)
              (set_entry_height "1" Examples.width_typed)) "width").
  vm_compute; reflexivity.
Defined.

(** A width of [2 ^ 1100] typed with the lock on: the callback raises
    [OverflowError]. *)
Lemma dimension_callbacks_raise_witness :
  on_dim_change Examples.int_of_str Scenes.huge_typed "width"
    = Raise OverflowError ∧
  OverflowError = OverflowError ∧ aspect_locked Scenes.huge_typed = true.
Proof.
  assert (on_dim_change Examples.int_of_str Scenes.huge_typed "width"
          = Raise OverflowError) as Hraise by (vm_compute; reflexivity).
  split; [exact Hraise|].
  exact (proj1 (dimension_callbacks_raise Examples.int_of_str
                  Scenes.huge_typed "width" OverflowError) Hraise).
Defined.

(** With the 7 x 4 file loaded, a width of 1 makes the height 0. *)
Lemma locked_height_below_one_witness :
  ∃ st', on_dim_change Examples.int_of_str Scenes.one_typed "width" = Ok st' ∧
         entry_height st' = str_int 0 ∧
         get_dimensions Examples.int_of_str st' = None ∧
         update_preview Examples.int_of_str st' = st'.
Proof.
  apply (locked_height_below_one Examples.int_of_str Scenes.one_typed
           Examples.landscape 1 0);
    try lia; vm_compute; reflexivity.
Defined.

(** With the 7 x 4 file loaded and a width of 3, switching the lock on
    makes the height 5, where a key in the width entry makes it 1. *)
Lemma toggle_aspect_lock_effect_witness :
  ∃ st', toggle_aspect_lock Examples.int_of_str Examples.width_typed = Ok st' ∧
         st' = update_preview Examples.int_of_str
                 (set_entry_height (str_int 5) Examples.width_typed) ∧
         entry_height st' = str_int 5 ∧
         entry_width st' = entry_width Examples.width_typed ∧
         same_source Examples.width_typed st' ∧
         resize_mode st' = resize_mode Examples.width_typed.
Proof.
  apply (proj2 (toggle_aspect_lock_effect Examples.int_of_str
                  Examples.width_typed) 3 5).
  - reflexivity.
  - by eexists.
  - vm_compute; reflexivity.
  - vm_compute; reflexivity.
Defined.

Lemma reset_dimensions_reads_back_witness :
  entry_width (reset_dimensions Examples.int_of_str Examples.width_typed)
    = "7" ∧
  entry_height (reset_dimensions Examples.int_of_str Examples.width_typed)
    = "4" ∧
  get_dimensions Examples.int_of_str
    (reset_dimensions Examples.int_of_str Examples.width_typed)
    = Some (7, 4).
Proof.
  destruct (proj2 (reset_dimensions_reads_back Examples.int_of_str
                     Examples.width_typed) ltac:(by eexists))
    as (Hw&Hh&_&Hd).
  split; [exact Hw|]. split; [exact Hh|].
  apply Hd; vm_compute; first [reflexivity|congruence].
Defined.

Lemma swap_dimensions_exchanges_witness :
  ∃ st' st'',
    swap_dimensions Examples.int_of_str Scenes.unlocked = Ok st' ∧
    entry_width st' = "4" ∧ entry_height st' = "7" ∧
    swap_dimensions Examples.int_of_str st' = Ok st'' ∧
    entry_width st'' = "7" ∧ entry_height st'' = "4".
Proof.
  apply (proj2 (swap_dimensions_exchanges Examples.int_of_str
                  Scenes.unlocked)).
  left. reflexivity.
Defined.

(** With the 7 x 4 file loaded and the lock on, the swap leaves 4 x 2,
    not 4 x 7. *)
Lemma swap_dimensions_locked_witness :
  ∃ st', swap_dimensions Examples.int_of_str Examples.loaded = Ok st' ∧
         entry_width st' = "4" ∧ entry_height st' = str_int 2.
Proof.
  apply (swap_dimensions_locked Examples.int_of_str Examples.loaded 4 2).
  - by eexists.
  - reflexivity.
  - vm_compute; reflexivity.
  - vm_compute; reflexivity.
Defined.

Lemma run_keeps_source_witness :
  same_source Examples.loaded
    (run Examples.int_of_str Examples.loaded Scenes.editing).
Proof.
  apply (run_keeps_source Examples.int_of_str Examples.loaded Scenes.editing).
  repeat constructor.
Defined.

Lemma run_consistent_witness :
  consistent (run Examples.int_of_str (init (800, 600) None) Scenes.afternoon).
Proof.
  apply (run_consistent (L := pillow_laws) Examples.int_of_str).
Defined.

(** The row of a file that is gone. *)
Lemma on_recent_select_missing_witness :
  on_recent_select Examples.int_of_str Examples.started
    (load_recent_files (Posix.exists_on Scenes.disk) Posix.name
       (Some Scenes.stored))
    (Some 2%nat) Scenes.open
  = Examples.started.
Proof.
  apply (proj2 (on_recent_select_missing (Posix.exists_on Scenes.disk)
                  Posix.name Examples.int_of_str Examples.started
                  Scenes.stored 2 "/c/gone.png" Scenes.open)).
  - reflexivity.
  - left. vm_compute; reflexivity.
Defined.

(** Two stored files called [photo.png]: the row of the first loads
    the second. *)
Lemma on_recent_select_loads_witness :
  ∃ g, last (filter (λ g, Posix.exists_on Scenes.disk g = true ∧
                          Posix.name g = Posix.name "/a/photo.png")
               Scenes.stored) = Some g ∧
       on_recent_select Examples.int_of_str Examples.started
         (load_recent_files (Posix.exists_on Scenes.disk) Posix.name
            (Some Scenes.stored))
         (Some 0%nat) Scenes.open
       = load_image Examples.int_of_str Examples.started (Some g)
           (Scenes.open g) ∧
       g = "/b/photo.png".
Proof.
  destruct (on_recent_select_loads (Posix.exists_on Scenes.disk) Posix.name
              Examples.int_of_str Examples.started Scenes.stored 0
              "/a/photo.png" Scenes.open eq_refl eq_refl eq_refl)
    as (g&Hlast&Hload&_).
  exists g. split; [exact Hlast|]. split; [exact Hload|].
  vm_compute in Hlast. congruence.
Defined.

Lemma load_image_failure_witness :
  load_image Examples.int_of_str Examples.loaded (Some "broken.png")
    (Raise BackendError)
  = set_status ErroreCaricamento Examples.loaded ∧
  recent_files
    (load_image Examples.int_of_str Examples.loaded (Some "broken.png")
       (Raise BackendError))
  = recent_files Examples.loaded.
Proof.
  destruct (load_image_failure Examples.int_of_str Examples.loaded
              "broken.png" (Raise BackendError)) as (_&Hkept&Hopen).
  split.
  - apply (Hopen BackendError eq_refl).
  - apply Hkept. reflexivity.
Defined.

(** Opened as [./landscape.png], the file is stored as
    [landscape.png]. *)
Lemma load_image_success_witness :
  original_image Scenes.dotted = Some Examples.landscape ∧
  entry_width Scenes.dotted = "7" ∧
  entry_height Scenes.dotted = "4" ∧
  recent_files Scenes.dotted = Some ["landscape.png"] ∧
  get_dimensions Examples.int_of_str Scenes.dotted = Some (7, 4).
Proof.
  destruct (load_image_success Examples.int_of_str Examples.started
              "./landscape.png" Examples.landscape eq_refl)
    as (Ho&Hw&Hh&Hr&_&_&Hd).
  split; [exact Ho|]. split; [exact Hw|]. split; [exact Hh|].
  split; [exact Hr|].
  apply Hd; vm_compute; first [reflexivity|congruence].
Defined.

Lemma apply_exif_orientation_size_witness :
  (img_size (apply_exif_orientation Scenes.turned) = (30, 20) ∨
   img_size (apply_exif_orientation Scenes.turned) = (20, 30)) ∧
  (img_size (apply_exif_orientation Scenes.turned)).1 *
  (img_size (apply_exif_orientation Scenes.turned)).2 = 600.
Proof.
  exact (apply_exif_orientation_size (L := pillow_laws) Scenes.turned).
Defined.

Lemma process_fit_mode_witness :
  img_mode
    (Pillow.derived (10, 9) "RGBA"
       (Pillow.Pasted (Pillow.Blank [255; 255; 255; 0])
          (Pillow.Decoded "small.png") (3, 3)))
  = "RGBA".
Proof.
  apply (process_fit_mode (L := pillow_laws) (M := pillow_mode_laws)
           Examples.small _ (10, 9)).
  vm_compute; reflexivity.
Defined.

(** Saving a 4 x 3 image with alpha as [small.JPG], as [small.png],
    under an extension the backend does not know, and by a path that
    is not in normal form. *)
Lemma save_image_samples :
  (∃ img,
     written (save_image Posix.suffix_lower Scenes.previewed
                (Some "/out/small.JPG"))
     = Some ("/out/small.JPG", img, [Quality 95; Optimize true]) ∧
     img_mode img = "RGB") ∧
  save_image Posix.suffix_lower Scenes.previewed (Some "/out/small.png")
  = SaveOutcome (Some ("/out/small.png", Examples.small, [Optimize true]))
      (Some ["/out/small.png"; "small.png"]) (Salvato "/out/small.png") ∧
  save_image Posix.suffix_lower Scenes.previewed (Some "/out/small.xyz")
  = SaveOutcome None (Some ["small.png"]) (SalvataggioFallito ValueError) ∧
  save_image Posix.suffix_lower Examples.started (Some "/out/small.png")
  = SaveOutcome None None NessunaImmagine ∧
  save_image Posix.suffix_lower Scenes.previewed (Some "/out//./small.png")
  = SaveOutcome
      (Some ("/out//./small.png", Examples.small, [Optimize true]))
      (Some ["/out/small.png"; "small.png"]) (Salvato "/out//./small.png").
Proof.
  split; [eexists; split; vm_compute; reflexivity|].
  repeat split; vm_compute; reflexivity.
Qed.

Lemma save_image_jpeg_witness :
  ∃ img,
    written (save_image Posix.suffix_lower Scenes.previewed
               (Some "/out/small.JPG"))
    = Some ("/out/small.JPG", img, [Quality 95; Optimize true]) ∧
    img_mode img = "RGB" ∧
    img_size img = (4, 3).
Proof.
  eexists. split; [vm_compute; reflexivity|].
  edestruct (save_image_jpeg (L := pillow_laws) (M := pillow_mode_laws)
               (OL := pillow_output_laws) Posix.suffix_lower
               Scenes.previewed "/out/small.JPG" "/out/small.JPG")
    as (_&Hmode&_&processed&Hp&Hsize).
  - vm_compute. apply list_elem_of_here.
  - vm_compute; reflexivity.
  - split; [exact Hmode|]. rewrite Hsize.
    injection Hp as <-. reflexivity.
Defined.

(** An 8 x 7 source fitted into 2 x 100. *)
Lemma fit_never_crops_witness :
  ∃ scale new_size,
    fit_scale (8, 7) (2, 100) = Ok scale ∧
    fit_inner_size (8, 7) scale = Ok new_size ∧
    0 ≤ new_size.1 ≤ Z.min 8 2 ∧
    0 ≤ new_size.2 ≤ Z.min 7 100 ∧
    0 ≤ (center_offset (2, 100) new_size).1 ∧
    0 ≤ (center_offset (2, 100) new_size).2.
Proof.
  apply (fit_never_crops (8, 7) (2, 100)); simpl; lia.
Defined.

(** A 1600 x 1200 image on a canvas of 800 x 600. *)
Lemma viewport_fit_within_canvas_witness :
  ∃ scale preview origin,
    viewport_fit (800, 600) (1600, 1200) = Ok (scale, preview, origin) ∧
    0 ≤ preview.1 ≤ Z.min 1600 800 ∧
    0 ≤ preview.2 ≤ Z.min 1200 600 ∧
    origin = center_offset (800, 600) preview ∧
    0 ≤ origin.1 ∧ 0 ≤ origin.2.
Proof.
  apply (viewport_fit_within_canvas (800, 600) (1600, 1200)); simpl; lia.
Defined.

End SceneSamples.
